(** * Actabl Salesforce integration: PKCE, verifier store, credential store,
      token refresh and the authenticated API call

    A shallow embedding of [utils/pkce.js], [db.js] and [utils/salesforce.js]
    together with the properties the design document states about them. *)

From Stdlib Require Import ZArith NArith Lia List Bool Ascii String.
From Stdlib.Strings Require Import Byte.
From stdpp Require Import base tactics option list gmap strings fin_maps.

Set Warnings "-register-all".
Local Open Scope Z_scope.

(* ===================================================================== *)
(** * utils/pkce.js : PKCE generator                                      *)
(* ===================================================================== *)

Module Pkce.

(** The 64 characters [Buffer.prototype.toString('base64')] draws from. *)
Definition base64_alphabet : string :=
  "ABCDEFGHIJKLMNOPQRSTUVWXYZabcdefghijklmnopqrstuvwxyz0123456789+/".

(** The character standing for the 6-bit group [i]. *)
Definition base64_char (i : N) : ascii :=
  match String.get (N.to_nat i) base64_alphabet with
  | Some c => c
  | None => "="%char
  end.

(** [buffer.toString('base64')]: the runtime's encoder.  Three bytes give
    four 6-bit groups; a tail of one or two bytes is completed with zero
    bits and padded with [=] to a multiple of four characters. *)
Fixpoint toString_base64 (buffer : list byte) : string :=
  match buffer with
  | [] => EmptyString
  | [a] =>
      let x := Byte.to_N a in
      String (base64_char (x / 4))
        (String (base64_char ((x mod 4) * 16)) "==")
  | [a; b] =>
      let x := Byte.to_N a in
      let y := Byte.to_N b in
      String (base64_char (x / 4))
        (String (base64_char ((x mod 4) * 16 + y / 16))
           (String (base64_char ((y mod 16) * 4)) "="))
  | a :: b :: c :: rest =>
      let x := Byte.to_N a in
      let y := Byte.to_N b in
      let z := Byte.to_N c in
      String (base64_char (x / 4))
        (String (base64_char ((x mod 4) * 16 + y / 16))
           (String (base64_char ((y mod 16) * 4 + z / 64))
              (String (base64_char (z mod 64)) (toString_base64 rest))))
  end%N.

(** [s.replace(/c/g, d)] for a one-character pattern and replacement. *)
Fixpoint replace_all (c d : ascii) (s : string) : string :=
  match s with
  | EmptyString => EmptyString
  | String x s' =>
      String (if Ascii.eqb x c then d else x) (replace_all c d s')
  end.

(** [s.replace(/c/g, '')]. *)
Fixpoint remove_all (c : ascii) (s : string) : string :=
  match s with
  | EmptyString => EmptyString
  | String x s' =>
      if Ascii.eqb x c then remove_all c s' else String x (remove_all c s')
  end.

Definition base64urlEncode (buffer : list byte) : string :=
  remove_all "="
    (replace_all "/" "_"
       (replace_all "+" "-" (toString_base64 buffer))).

(** [crypto.randomBytes] is the source of randomness; the generator is a
    function of what it hands out. *)
Definition generateCodeVerifier (randomBytes : nat -> list byte) : string :=
  let buffer := randomBytes 32%nat in
  base64urlEncode buffer.

(** Membership in the URL-safe alphabet: A-Z, a-z, 0-9, '-' and '_'. *)
Definition url_safe (c : ascii) : bool :=
  let n := N_of_ascii c in
  ((65 <=? n) && (n <=? 90) || (97 <=? n) && (n <=? 122)
   || (48 <=? n) && (n <=? 57) || (n =? 45) || (n =? 95))%N.

Fixpoint string_forall (p : ascii -> bool) (s : string) : bool :=
  match s with
  | EmptyString => true
  | String c s' => p c && string_forall p s'
  end.

Fixpoint string_mem (c : ascii) (s : string) : bool :=
  match s with
  | EmptyString => false
  | String x s' => Ascii.eqb x c || string_mem c s'
  end.

(** Length of the unpadded encoding of [n] bytes. *)
Fixpoint unpadded_length (n : nat) : nat :=
  match n with
  | 0 => 0
  | 1 => 2
  | 2 => 3
  | S (S (S k)) => 4 + unpadded_length k
  end%nat.

(** A character as it leaves [base64urlEncode]'s two substitutions. *)
Definition url_variant (c : ascii) : ascii :=
  let c1 := if Ascii.eqb c "+" then "-"%char else c in
  if Ascii.eqb c1 "/" then "_"%char else c1.

(** [crypto.createHash('sha256').update(verifier).digest()] is taken as
    given: [sha256] stands for it. *)
Definition generateCodeChallenge (sha256 : string -> list byte)
    (verifier : string) : string :=
  let hash := sha256 verifier in
  base64urlEncode hash.

Definition hex_alphabet : string := "0123456789abcdef".

Definition hex_char (i : N) : ascii :=
  match String.get (N.to_nat i) hex_alphabet with
  | Some c => c
  | None => "?"%char
  end.

(** [buffer.toString('hex')]: two lowercase digits per byte. *)
Fixpoint toString_hex (buffer : list byte) : string :=
  match buffer with
  | [] => EmptyString
  | a :: rest =>
      let x := Byte.to_N a in
      String (hex_char (x / 16)) (String (hex_char (x mod 16)) (toString_hex rest))
  end%N.

Definition base36_alphabet : string := "0123456789abcdefghijklmnopqrstuvwxyz".

Definition base36_char (i : N) : ascii :=
  match String.get (N.to_nat i) base36_alphabet with
  | Some c => c
  | None => "?"%char
  end.

(** The base-36 digits of [n], most significant first.  [fuel] bounds the
    number of digits. *)
Fixpoint base36_digits (fuel : nat) (n : N) : list N :=
  match fuel with
  | O => []
  | S fuel' =>
      if (n <? 36)%N then [n]
      else base36_digits fuel' (n / 36) ++ [(n mod 36)%N]
  end.

(** The digits of a magnitude as text.  A number has no more base-36
    digits than binary ones, which is the fuel given. *)
Definition magnitude_text (n : N) : string :=
  string_of_list_ascii
    (map base36_char (base36_digits (S (N.to_nat (N.log2 n))) n)).

(** [n.toString(36)] for an integer [n], as [Date.now()] gives. *)
Definition Number_toString36 (n : Z) : string :=
  let digits := magnitude_text (Z.to_N (Z.abs n)) in
  if n <? 0 then String "-" digits else digits.

(** [now] is what [Date.now()] returns. *)
Definition generateState (now : Z) (randomBytes : nat -> list byte) : string :=
  let timestamp := Number_toString36 now in
  let random := toString_hex (randomBytes 8%nat) in
  timestamp +:+ "-" +:+ random.

(** The character [base64urlEncode] gives for the 6-bit group [i]. *)
Definition base64url_char (i : N) : ascii := url_variant (base64_char i).

(** The 6-bit group a character of the URL-safe alphabet stands for. *)
Definition base64url_index (c : ascii) : N :=
  let n := N_of_ascii c in
  (if (65 <=? n) && (n <=? 90) then n - 65
   else if (97 <=? n) && (n <=? 122) then n - 97 + 26
   else if (48 <=? n) && (n <=? 57) then n - 48 + 52
   else if n =? 45 then 62
   else 63)%N.

(** The value of a digit character of base 36 (and so of base 16). *)
Definition base36_index (c : ascii) : N :=
  let n := N_of_ascii c in
  (if (48 <=? n) && (n <=? 57) then n - 48 else n - 97 + 10)%N.

(** The number a list of base-36 digits stands for, most significant
    digit first. *)
Definition base36_value (digits : list N) : N :=
  fold_left (fun acc d => acc * 36 + d)%N digits 0%N.

(** Membership in 0-9, a-f. *)
Definition is_hex_digit (c : ascii) : bool :=
  let n := N_of_ascii c in
  ((48 <=? n) && (n <=? 57) || (97 <=? n) && (n <=? 102))%N.

(** Membership in 0-9, a-z. *)
Definition is_base36_digit (c : ascii) : bool :=
  let n := N_of_ascii c in
  ((48 <=? n) && (n <=? 57) || (97 <=? n) && (n <=? 122))%N.

End Pkce.

(* ===================================================================== *)
(** * utils/pkce.js : the in-memory verifier store                        *)
(* ===================================================================== *)

Module VerifierStore.

(** Value of the map: [{ verifier, createdAt }]. *)
Record Entry : Type := mkEntry { verifier : string; createdAt : Z }.

(** [const verifierStore = new Map()], keyed by the state parameter.  The
    map is module-level state, so every operation takes the current map and
    gives back the next one. *)
Abbreviation Store := (gmap string Entry).

Definition VERIFIER_TTL : Z := 30 * 60 * 1000.

(** The age test both functions apply: [now - entry.createdAt > VERIFIER_TTL]. *)
Definition expired (now : Z) (entry : Entry) : bool :=
  now - createdAt entry >? VERIFIER_TTL.

(** [for (const [state, entry] of verifierStore.entries())]: one pass over
    the entries, deleting from the live map.  [now] is the value the single
    [Date.now()] call at the top of the function returned. *)
Definition sweep_step (now : Z) (store : Store) (item : string * Entry) : Store :=
  let '(state, entry) := item in
  if expired now entry then delete state store else store.

Definition cleanupExpiredVerifiers (now : Z) (verifierStore : Store) : Store :=
  foldl (sweep_step now) verifierStore (map_to_list verifierStore).

(** [now_cleanup] is what [Date.now()] returned inside the sweep, [now_set]
    what the second call returned when the entry was built. *)
Definition storeVerifier (now_cleanup now_set : Z) (state verifier : string)
    (verifierStore : Store) : Store :=
  let verifierStore := cleanupExpiredVerifiers now_cleanup verifierStore in
  <[state := {| verifier := verifier; createdAt := now_set |}]> verifierStore.

(** Returns the verifier ([None] is the source's [null]) and the next map.
    [now] is what [Date.now()] returns at the age check. *)
Definition getVerifier (now : Z) (state : string) (verifierStore : Store)
    : option string * Store :=
  match verifierStore !! state with
  | None => (None, verifierStore)
  | Some entry =>
      let verifierStore := delete state verifierStore in
      if now - createdAt entry >? VERIFIER_TTL
      then (None, verifierStore)
      else (Some (verifier entry), verifierStore)
  end.

End VerifierStore.

(* ===================================================================== *)
(** * The JavaScript values and the runtime the async code runs on        *)
(* ===================================================================== *)

Module Js.

(** Values the code handles: parsed JSON, arguments, [null], [undefined].
    Numbers are only ever tested for truthiness or handed on, so integers
    stand for them.  A string is the text as it travels to the database
    and over HTTP, the characters of its UTF-8 form: the strings here are
    the well-formed ones, U+0000 included, lone surrogates not. *)
Inductive JsValue : Type :=
| JUndefined
| JNull
| JBool (b : bool)
| JNum (n : Z)
| JStr (s : string)
| JArr (items : list JsValue)
| JObj (fields : list (string * JsValue)).

(** What [if (v)], [!v], [v && _] and [v || _] test. *)
Definition truthy (v : JsValue) : bool :=
  match v with
  | JUndefined | JNull => false
  | JBool b => b
  | JNum n => negb (n =? 0)
  | JStr s => negb (String.eqb s "")
  | JArr _ | JObj _ => true
  end.

(** [a || b] *)
Definition js_or (a b : JsValue) : JsValue := if truthy a then a else b.

Fixpoint assoc (key : string) (fields : list (string * JsValue)) : JsValue :=
  match fields with
  | [] => JUndefined
  | (k, v) :: rest => if String.eqb k key then v else assoc key rest
  end.

(** What the code throws.  Every [new Error(template)] of the source is a
    constructor holding the values the template interpolates; the other
    constructors are the rejections of the runtime and of the libraries. *)
Inductive JsError : Type :=
| TypeError (reading : string)
    (* Cannot read properties of null/undefined (reading '...') *)
| SyntaxError
    (* response.json() on a body that is not JSON *)
| FetchError (reason : string)
    (* node-fetch rejects: the request got no response *)
| DatabaseError (reason : string)
    (* pg rejects the statement *)
| NoTokensFound
    (* 'No tokens found in database' *)
| NotConnected
    (* 'Not connected to Salesforce' *)
| TokenRefreshRejected (description : JsValue)
    (* `Token refresh failed: ${errorData.error_description || errorData.error}` *)
| TokenRefreshFailed (refreshError : JsError)
    (* `Token refresh failed: ${refreshError.message}` *)
| SalesforceApiError (status : Z) (errorData : JsValue).
    (* `Salesforce API error (${response.status}): ${JSON.stringify(errorData)}` *)

(** [v.key] for a key that is no built-in property name. *)
Definition getProp (v : JsValue) (key : string) : JsError + JsValue :=
  match v with
  | JUndefined | JNull => inl (TypeError key)
  | JObj fields => inr (assoc key fields)
  | _ => inr JUndefined
  end.

(** An HTTP body, held as what [JSON.parse] makes of its text: the parsed
    value, or the raw text when it is not JSON. *)
Inductive Body : Type :=
| JsonText (value : JsValue)
| PlainText (text : string).

Record Response : Type := mkResponse { status : Z; body : Body }.

(** [response.ok] *)
Definition ok (response : Response) : bool :=
  (200 <=? status response) && (status response <=? 299).

(** What [fetch(url, options)] is called with. *)
Record Request : Type := mkRequest {
  url : string;
  method : string;
  headers : list (string * string);
  req_body : option string
}.

(** What a [fetch] promise settles to. *)
Inductive FetchResult : Type :=
| Resolved (response : Response)
| Rejected (reason : string).

(** The parts of the platform the code calls and the configuration it reads. *)
Class Runtime : Type := {
  JSON_stringify : JsValue -> string;
  URLSearchParams_toString : list (string * string) -> string;
  (* pg's text form of a query parameter that is no string and not null *)
  pg_prepareValue : JsValue -> string;
  process_env : string -> option string
}.

End Js.

(* ===================================================================== *)
(** * db.js : the credential store                                        *)
(* ===================================================================== *)

Module Db.
Import Js.

(** A row of [salesforce_tokens]. *)
Record Row : Type := mkRow {
  row_id : Z;
  access_token : string;
  refresh_token : string;
  instance_url : string;
  created_at : Z;
  updated_at : Z
}.

(** The table, the sequence behind [id SERIAL] and the server clock that
    [CURRENT_TIMESTAMP] reads. *)
Record Database : Type := mkDatabase {
  salesforce_tokens : list Row;
  salesforce_tokens_id_seq : Z;
  current_timestamp : Z
}.

(** A freshly created table. *)
Definition empty_database (now : Z) : Database :=
  {| salesforce_tokens := []; salesforce_tokens_id_seq := 1;
     current_timestamp := now |}.

(** The statements [db.js] sends through [pool.query]. *)
Inductive Statement : Type :=
| DELETE_all
    (* DELETE FROM salesforce_tokens *)
| INSERT_returning_id (accessToken refreshToken instanceUrl : JsValue)
    (* INSERT INTO salesforce_tokens (access_token, refresh_token,
       instance_url) VALUES ($1, $2, $3) RETURNING id *)
| SELECT_latest
    (* SELECT * FROM salesforce_tokens ORDER BY id DESC LIMIT 1 *)
| UPDATE_access_token (newAccessToken : JsValue) (id : Z).
    (* UPDATE salesforce_tokens SET access_token = $1,
       updated_at = CURRENT_TIMESTAMP WHERE id = $2 *)

(** [ORDER BY id DESC LIMIT 1] *)
Fixpoint latest (rows : list Row) : option Row :=
  match rows with
  | [] => None
  | r :: rest =>
      match latest rest with
      | None => Some r
      | Some r' => if row_id r' <? row_id r then Some r else Some r'
      end
  end.

Definition set_access_token (value : string) (now : Z) (r : Row) : Row :=
  {| row_id := row_id r; access_token := value;
     refresh_token := refresh_token r; instance_url := instance_url r;
     created_at := created_at r; updated_at := now |}.

(** What the update statement does to one row. *)
Definition updated_row (id : Z) (value : string) (now : Z) (r : Row) : Row :=
  if row_id r =? id then set_access_token value now r else r.

(** What the primary key and the sequence guarantee: no two rows share an
    id, and every id was drawn from the sequence before its present value. *)
Definition db_wf (d : Database) : Prop :=
  NoDup (map row_id (salesforce_tokens d))
  /\ Forall (fun r => row_id r < salesforce_tokens_id_seq d)
       (salesforce_tokens d).

(** The [id] column is a 32-bit INTEGER, and so is the sequence behind
    [SERIAL]. *)
Definition INT4_MIN : Z := -2147483648.
Definition INT4_MAX : Z := 2147483647.

Definition int4 (n : Z) : bool := (INT4_MIN <=? n) && (n <=? INT4_MAX).

(** Whether a text holds the character U+0000, which a TEXT column does not
    take. *)
Fixpoint has_nul (s : string) : bool :=
  match s with
  | EmptyString => false
  | String c rest => Ascii.eqb c "000"%char || has_nul rest
  end.

Section Queries.
Context {RT : Runtime}.

(** A query parameter as the driver sends it; [None] is SQL NULL. *)
Definition prepareValue (v : JsValue) : option string :=
  match v with
  | JUndefined | JNull => None
  | JStr s => Some s
  | _ => Some (pg_prepareValue v)
  end.

(** A parameter bound to a TEXT column: the server refuses a text that
    holds U+0000 when it reads the parameter, before the statement runs. *)
Definition bind_text (v : JsValue) : JsError + option string :=
  match prepareValue v with
  | Some s =>
      if has_nul s
      then inl (DatabaseError "invalid byte sequence for encoding UTF8: 0x00")
      else inr (Some s)
  | None => inr None
  end.

(** The value [v] reaches a TEXT column as the text [s]. *)
Definition stored_as (v : JsValue) (s : string) : Prop :=
  prepareValue v = Some s /\ has_nul s = false.

(** A parameter compared with the INTEGER column [id]. *)
Definition bind_int4 (n : Z) : JsError + Z :=
  if int4 n then inr n
  else inl (DatabaseError "value is out of range for type integer").

(** What one statement does to the database: the rows of the result and
    the next state, or the error the server answers with.  The server is
    taken to be reachable, so a statement fails only by what it is given:
    a parameter the server cannot read (a text with U+0000, an id outside
    32 bits), a sequence that has run out, or a NULL for a NOT NULL
    column.  Parameters are read before the statement runs; a sequence
    value drawn for an insert that NOT NULL then rejects is not given
    back. *)
Definition execute (st : Statement) (d : Database)
    : (JsError + list Row) * Database :=
  match st with
  | DELETE_all =>
      (inr [],
       {| salesforce_tokens := [];
          salesforce_tokens_id_seq := salesforce_tokens_id_seq d;
          current_timestamp := current_timestamp d |})
  | INSERT_returning_id a r u =>
      match bind_text a, bind_text r, bind_text u with
      | inr a', inr r', inr u' =>
          let id := salesforce_tokens_id_seq d in
          if INT4_MAX <? id then
            (inl (DatabaseError "nextval: reached maximum value of sequence"),
             d)
          else
            match a', r', u' with
            | Some a', Some r', Some u' =>
                let row := {| row_id := id; access_token := a';
                              refresh_token := r'; instance_url := u';
                              created_at := current_timestamp d;
                              updated_at := current_timestamp d |} in
                (inr [row],
                 {| salesforce_tokens := salesforce_tokens d ++ [row];
                    salesforce_tokens_id_seq := id + 1;
                    current_timestamp := current_timestamp d |})
            | _, _, _ =>
                (inl (DatabaseError "null value violates not-null constraint"),
                 {| salesforce_tokens := salesforce_tokens d;
                    salesforce_tokens_id_seq := id + 1;
                    current_timestamp := current_timestamp d |})
            end
      | inl e, _, _ => (inl e, d)
      | _, inl e, _ => (inl e, d)
      | _, _, inl e => (inl e, d)
      end
  | SELECT_latest =>
      (inr (option_list (latest (salesforce_tokens d))), d)
  | UPDATE_access_token v id =>
      match bind_text v, bind_int4 id with
      | inr v', inr id =>
          if existsb (fun r => row_id r =? id) (salesforce_tokens d) then
            match v' with
            | Some v' =>
                (inr [],
                 {| salesforce_tokens :=
                      map (updated_row id v' (current_timestamp d))
                          (salesforce_tokens d);
                    salesforce_tokens_id_seq := salesforce_tokens_id_seq d;
                    current_timestamp := current_timestamp d |})
            | None =>
                (inl (DatabaseError "null value violates not-null constraint"),
                 d)
            end
          else (inr [], d)
      | inl e, _ => (inl e, d)
      | _, inl e => (inl e, d)
      end
  end.

End Queries.
End Db.

(* ===================================================================== *)
(** * Async functions: state, exceptions and the record of what was done  *)
(* ===================================================================== *)

Module Async.
Import Js Db.

(** Everything outside the process: the database, and what the successive
    [fetch] calls will settle to, in the order the calls are made. *)
Record World : Type := mkWorld {
  db : Database;
  incoming : list FetchResult
}.

(** What a run leaves on record, oldest first. *)
Inductive Event : Type :=
| EvQuery (st : Statement)
| EvFetch (req : Request) (res : FetchResult)
| EvRefresh.   (* refreshAccessToken was entered *)

Inductive Outcome (A : Type) : Type :=
| Returned (a : A)
| Thrown (e : JsError).
Arguments Returned {A} a.
Arguments Thrown {A} e.

(** An [async] function body: from a world to how it settles, the world it
    leaves and the events of this run. *)
Definition Async (A : Type) : Type := World -> Outcome A * World * list Event.

Definition ret {A} (a : A) : Async A := fun w => (Returned a, w, []).

Definition throw {A} (e : JsError) : Async A := fun w => (Thrown e, w, []).

Definition bind {A B} (m : Async A) (k : A -> Async B) : Async B :=
  fun w =>
    match m w with
    | (Returned a, w1, t1) =>
        match k a w1 with
        | (o, w2, t2) => (o, w2, t1 ++ t2)
        end
    | (Thrown e, w1, t1) => (Thrown e, w1, t1)
    end.

(** [try { m } catch (e) { handler(e) }] *)
Definition try_catch {A} (m : Async A) (handler : JsError -> Async A) : Async A :=
  fun w =>
    match m w with
    | (Returned a, w1, t1) => (Returned a, w1, t1)
    | (Thrown e, w1, t1) =>
        match handler e w1 with
        | (o, w2, t2) => (o, w2, t1 ++ t2)
        end
    end.

Definition emit (ev : Event) : Async unit := fun w => (Returned tt, w, [ev]).

(** A synchronous step that may throw. *)
Definition lift {A} (r : JsError + A) : Async A :=
  match r with
  | inl e => throw e
  | inr a => ret a
  end.

Declare Scope async_scope.
Delimit Scope async_scope with async.
Notation "x <- m ;; k" := (bind m (fun x => k))
  (at level 100, m at next level, right associativity) : async_scope.
Notation "m ;; k" := (bind m (fun _ => k))
  (at level 100, right associativity) : async_scope.
Local Open Scope async_scope.

Section Primitives.
Context {RT : Runtime}.

(** [await pool.query(text, params)], giving [result.rows]. *)
Definition pool_query (st : Statement) : Async (list Row) :=
  fun w =>
    match execute st (db w) with
    | (inr rows, d) =>
        (Returned rows, {| db := d; incoming := incoming w |}, [EvQuery st])
    | (inl e, d) =>
        (Thrown e, {| db := d; incoming := incoming w |}, [EvQuery st])
    end.

(** [await fetch(url, options)]: the next settlement is consumed; when none
    is left the request gets no response. *)
Definition fetch (req : Request) : Async Response :=
  fun w =>
    match incoming w with
    | Resolved response :: rest =>
        (Returned response, {| db := db w; incoming := rest |},
         [EvFetch req (Resolved response)])
    | Rejected reason :: rest =>
        (Thrown (FetchError reason), {| db := db w; incoming := rest |},
         [EvFetch req (Rejected reason)])
    | [] =>
        (Thrown (FetchError "no response"), w,
         [EvFetch req (Rejected "no response")])
    end.

(** [await response.json()] *)
Definition response_json (response : Response) : Async JsValue :=
  match body response with
  | JsonText v => ret v
  | PlainText _ => throw SyntaxError
  end.

(** [await response.text()] *)
Definition response_text (response : Response) : Async Body :=
  ret (body response).

(* ------------------------------- db.js ------------------------------- *)

(** What [getTokens] resolves to when a row exists. *)
Record Tokens : Type := mkTokens {
  accessToken : string;
  refreshToken : string;
  instanceUrl : string;
  id : Z
}.

Definition storeTokens (accessToken refreshToken instanceUrl : JsValue)
    : Async Z :=
  pool_query DELETE_all ;;
  rows <- pool_query (INSERT_returning_id accessToken refreshToken instanceUrl) ;;
  match rows with
  | r :: _ => ret (row_id r)
  | [] => throw (TypeError "id")
  end.

Definition getTokens : Async (option Tokens) :=
  rows <- pool_query SELECT_latest ;;
  match rows with
  | [] => ret None
  | r :: _ =>
      ret (Some {| accessToken := access_token r;
                   refreshToken := refresh_token r;
                   instanceUrl := instance_url r;
                   id := row_id r |})
  end.

Definition updateAccessToken (id : Z) (newAccessToken : JsValue) : Async unit :=
  pool_query (UPDATE_access_token newAccessToken id) ;;
  ret tt.

Definition deleteTokens : Async unit :=
  pool_query DELETE_all ;;
  ret tt.

(* -------------------------- utils/salesforce.js ---------------------- *)

(** [process.env.X] inside a template or a [URLSearchParams] value. *)
Definition env_text (name : string) : string :=
  match process_env name with
  | Some s => s
  | None => "undefined"
  end.

Definition SF_CLIENT_ID : string := env_text "SF_CLIENT_ID".
Definition SF_CLIENT_SECRET : string := env_text "SF_CLIENT_SECRET".

(** [process.env.SF_LOGIN_URL || 'https://login.salesforce.com'] *)
Definition SF_LOGIN_URL : string :=
  match process_env "SF_LOGIN_URL" with
  | Some s => if String.eqb s "" then "https://login.salesforce.com" else s
  | None => "https://login.salesforce.com"
  end.

(** The object [refreshAccessToken] returns. *)
Record NewTokens : Type := mkNewTokens {
  new_accessToken : JsValue;
  new_instanceUrl : JsValue
}.

Definition refreshAccessToken : Async NewTokens :=
  emit EvRefresh ;;
  tokens <- getTokens ;;
  match tokens with
  | None => throw NoTokensFound
  | Some tokens =>
      let params := URLSearchParams_toString
        [("grant_type", "refresh_token");
         ("client_id", SF_CLIENT_ID);
         ("client_secret", SF_CLIENT_SECRET);
         ("refresh_token", refreshToken tokens)] in
      response <- fetch
        {| url := SF_LOGIN_URL +:+ "/services/oauth2/token";
           method := "POST";
           headers := [("Content-Type", "application/x-www-form-urlencoded")];
           req_body := Some params |} ;;
      if negb (ok response) then
        errorData <- response_json response ;;
        error_description <- lift (getProp errorData "error_description") ;;
        if truthy error_description
        then throw (TokenRefreshRejected error_description)
        else
          error <- lift (getProp errorData "error") ;;
          throw (TokenRefreshRejected error)
      else
        data <- response_json response ;;
        access_token <- lift (getProp data "access_token") ;;
        (* Update the stored access token *)
        updateAccessToken (id tokens) access_token ;;
        instance_url <- lift (getProp data "instance_url") ;;
        ret {| new_accessToken := access_token;
               new_instanceUrl :=
                 js_or instance_url (JStr (instanceUrl tokens)) |}
  end.

(** The inner [makeRequest] closure; [endpoint], [method] and [body] are
    the variables it captures. *)
Definition makeRequest (endpoint method : string) (body : JsValue)
    (accessToken instanceUrl : string) : Async Response :=
  let options_body :=
    if truthy body && (String.eqb method "POST" || String.eqb method "PATCH")
    then Some (JSON_stringify body)
    else None in
  let url := instanceUrl +:+ endpoint in
  fetch
    {| url := url;
       method := method;
       headers := [("Authorization", "Bearer " +:+ accessToken);
                   ("Content-Type", "application/json")];
       req_body := options_body |}.

(** [JSON.parse(errorText)], with the [catch] that wraps raw text. *)
Definition parse_errorData (errorText : Body) : JsValue :=
  match errorText with
  | JsonText v => v
  | PlainText text => JObj [("message", JStr text)]
  end.

Definition salesforceApiCall (endpoint method : string) (body : JsValue)
    : Async JsValue :=
  tokens <- getTokens ;;
  match tokens with
  | None => throw NotConnected
  | Some tokens =>
      (* First attempt *)
      response <- makeRequest endpoint method body
                    (accessToken tokens) (instanceUrl tokens) ;;
      (* If 401, try refreshing token and retry *)
      response <-
        (if status response =? 401 then
           try_catch
             (newTokens <- refreshAccessToken ;;
              tokens <- getTokens ;;
              match tokens with
              | None => throw (TypeError "accessToken")
              | Some tokens =>
                  makeRequest endpoint method body
                    (accessToken tokens) (instanceUrl tokens)
              end)
             (fun refreshError => throw (TokenRefreshFailed refreshError))
         else ret response) ;;
      if negb (ok response) then
        errorText <- response_text response ;;
        let errorData := parse_errorData errorText in
        throw (SalesforceApiError (status response) errorData)
      else response_json response
  end.

End Primitives.

Section Wrappers.
Context {RT : Runtime}.
(** The global [encodeURIComponent]. *)
Variable encodeURIComponent : string -> string.

Definition SF_API_VERSION : string := "v59.0".

Definition executeQuery (query : string) : Async JsValue :=
  let encodedQuery := encodeURIComponent query in
  salesforceApiCall
    ("/services/data/" +:+ SF_API_VERSION +:+ "/query?q=" +:+ encodedQuery)
    "GET" JNull.

Definition describeObject (objectName : string) : Async JsValue :=
  salesforceApiCall
    ("/services/data/" +:+ SF_API_VERSION +:+ "/sobjects/" +:+ objectName
     +:+ "/describe")
    "GET" JNull.

End Wrappers.

(** ** Reading the state and the record of a run *)

Definition tokens_of_row (r : Row) : Tokens :=
  {| accessToken := access_token r; refreshToken := refresh_token r;
     instanceUrl := instance_url r; id := row_id r |}.

(** The credential [getTokens] would find in a database. *)
Definition current (d : Database) : option Tokens :=
  tokens_of_row <$> latest (salesforce_tokens d).

(** The row an accepted insert adds. *)
Definition inserted_row (d : Database) (a r u : string) : Row :=
  {| row_id := salesforce_tokens_id_seq d; access_token := a;
     refresh_token := r; instance_url := u;
     created_at := current_timestamp d; updated_at := current_timestamp d |}.

(** What the server takes for an insert: three texts it can read and a
    sequence that has not run out. *)
Definition insert_accepted {RT : Runtime} (a r u : JsValue) (d : Database)
    (a' r' u' : string) : Prop :=
  stored_as a a' /\ stored_as r r' /\ stored_as u u'
  /\ salesforce_tokens_id_seq d <= INT4_MAX.

(** The request [makeRequest] sends for a credential. *)
Definition api_request {RT : Runtime} (endpoint method : string)
    (body : JsValue) (tok : Tokens) : Request :=
  {| url := instanceUrl tok +:+ endpoint;
     method := method;
     headers := [("Authorization", "Bearer " +:+ accessToken tok);
                 ("Content-Type", "application/json")];
     req_body :=
       if truthy body && (String.eqb method "POST" || String.eqb method "PATCH")
       then Some (JSON_stringify body)
       else None |}.

(** The request [refreshAccessToken] sends for a credential. *)
Definition refresh_request {RT : Runtime} (tok : Tokens) : Request :=
  {| url := SF_LOGIN_URL +:+ "/services/oauth2/token";
     method := "POST";
     headers := [("Content-Type", "application/x-www-form-urlencoded")];
     req_body :=
       Some (URLSearchParams_toString
               [("grant_type", "refresh_token");
                ("client_id", SF_CLIENT_ID);
                ("client_secret", SF_CLIENT_SECRET);
                ("refresh_token", refreshToken tok)]) |}.

(** Every request of a run, whoever sent it. *)
Fixpoint requests (t : list Event) : list Request :=
  match t with
  | [] => []
  | EvFetch req _ :: rest => req :: requests rest
  | _ :: rest => requests rest
  end.

(** The stored credential with another access token. *)
Definition with_access_token (a : string) (tok : Tokens) : Tokens :=
  {| accessToken := a; refreshToken := refreshToken tok;
     instanceUrl := instanceUrl tok; id := id tok |}.

(** How [salesforceApiCall] settles once it holds its last response. *)
Definition settle (response : Response) : Outcome JsValue :=
  if ok response then
    match body response with
    | JsonText v => Returned v
    | PlainText _ => Thrown SyntaxError
    end
  else Thrown (SalesforceApiError (status response)
                 (parse_errorData (body response))).

(** The requests [makeRequest] builds are the ones that carry a bearer
    token; the refresher's request has a single form content-type header. *)
Definition is_api_request (req : Request) : bool :=
  match headers req with
  | [(h, _); _] => String.eqb h "Authorization"
  | _ => false
  end.

(** What the API answered, request by request. *)
Fixpoint api_exchanges (t : list Event) : list (Request * FetchResult) :=
  match t with
  | [] => []
  | EvFetch req res :: rest =>
      if is_api_request req then (req, res) :: api_exchanges rest
      else api_exchanges rest
  | _ :: rest => api_exchanges rest
  end.

(** What the API answered, without the requests. *)
Definition api_responses (t : list Event) : list FetchResult :=
  map snd (api_exchanges t).

(** How many times the token refresher was invoked. *)
Fixpoint refresh_count (t : list Event) : nat :=
  match t with
  | [] => 0%nat
  | EvRefresh :: rest => S (refresh_count rest)
  | _ :: rest => refresh_count rest
  end.

End Async.

(* ===================================================================== *)
(** * The authorization flow: the code exchange and the route handlers    *)
(* ===================================================================== *)

Module Server.
Import Js Db Async.

(** What the flow can fail with: anything the layers below throw, or the
    provider's refusal of the authorization code. *)
Inductive AppError : Type :=
| Js (e : JsError)
| TokenExchangeFailed (description : JsValue).
    (* `Token exchange failed: ${errorData.error_description || errorData.error}` *)

(** The pages the handlers send. *)
Inductive Page : Type :=
| SuccessHtml                       (* getSuccessHtml() *)
| DashboardHtml (isConnected : bool). (* getDashboardHtml(isConnected) *)

(** The [details] member of an error reply. *)
Inductive Details : Type :=
| DetailsValue (v : JsValue)    (* a value of the request *)
| DetailsMessage (e : AppError).  (* error.message of what was caught *)

(** What a handler answers with. *)
Inductive Reply : Type :=
| ReplyJson (status : Z) (error : string) (details : option Details)
    (* res.status(status).json({ error, details }) *)
| ReplySend (page : Page)
    (* res.send(html) *)
| ReplyRedirect (location : string).
    (* res.redirect(location) *)

(** [req.query] of the callback route. *)
Record CallbackQuery : Type := mkCallbackQuery {
  code : JsValue;
  state : JsValue;
  error : JsValue;
  error_description : JsValue
}.

Section Handlers.
Context {RT : Runtime}.
(** [String(v)]: how a value is turned into text inside [URLSearchParams]. *)
Variable String_of : JsValue -> string.
(** The digest behind [generateCodeChallenge] and the random source. *)
Variable sha256 : string -> list byte.
Variable randomBytes : nat -> list byte.

(* -------------------------- utils/salesforce.js ---------------------- *)

(** The request [exchangeCodeForTokens] sends. *)
Definition exchange_request (code codeVerifier redirectUri : string) : Request :=
  {| url := SF_LOGIN_URL +:+ "/services/oauth2/token";
     method := "POST";
     headers := [("Content-Type", "application/x-www-form-urlencoded")];
     req_body :=
       Some (URLSearchParams_toString
               [("grant_type", "authorization_code");
                ("client_id", SF_CLIENT_ID);
                ("client_secret", SF_CLIENT_SECRET);
                ("redirect_uri", redirectUri);
                ("code", code);
                ("code_verifier", codeVerifier)]) |}.

(** The body of [exchangeCodeForTokens] up to its [throw]: [inl] holds what
    the refusal message interpolates, [inr] the parsed token response. *)
Definition exchange_attempt (code codeVerifier redirectUri : string)
    : Async (JsValue + JsValue) :=
  (response <- fetch (exchange_request code codeVerifier redirectUri) ;;
   if negb (ok response) then
     errorData <- response_json response ;;
     error_description <- lift (getProp errorData "error_description") ;;
     if truthy error_description
     then ret (inl error_description)
     else
       error <- lift (getProp errorData "error") ;;
       ret (inl error)
   else
     data <- response_json response ;;
     ret (inr data))%async.

Definition exchangeCodeForTokens (code codeVerifier redirectUri : string)
    (w : World) : (AppError + JsValue) * World * list Event :=
  match exchange_attempt code codeVerifier redirectUri w with
  | (Returned (inr tokenResponse), w1, t1) => (inr tokenResponse, w1, t1)
  | (Returned (inl description), w1, t1) =>
      (inl (TokenExchangeFailed description), w1, t1)
  | (Thrown e, w1, t1) => (inl (Js e), w1, t1)
  end.

Definition buildAuthorizationUrl (redirectUri codeChallenge state : string)
    : string :=
  let params := URLSearchParams_toString
    [("response_type", "code");
     ("client_id", SF_CLIENT_ID);
     ("redirect_uri", redirectUri);
     ("scope", "api refresh_token");
     ("code_challenge", codeChallenge);
     ("code_challenge_method", "S256");
     ("state", state)] in
  SF_LOGIN_URL +:+ "/services/oauth2/authorize?" +:+ params.

(* ------------------------------ server.js ---------------------------- *)

(** GET /auth.  [baseUrl] is what [getBaseUrl(req)] gave; the three clock
    readings are those of [generateState] and of the two inside
    [storeVerifier].  Gives the reply and the next verifier store. *)
Definition auth (now_state now_cleanup now_set : Z) (baseUrl : string)
    (verifierStore : gmap string VerifierStore.Entry)
    : Reply * gmap string VerifierStore.Entry :=
  let codeVerifier := Pkce.generateCodeVerifier randomBytes in
  let codeChallenge := Pkce.generateCodeChallenge sha256 codeVerifier in
  let state := Pkce.generateState now_state randomBytes in
  let verifierStore :=
    VerifierStore.storeVerifier now_cleanup now_set state codeVerifier
      verifierStore in
  let redirectUri := baseUrl +:+ "/callback" in
  let authUrl := buildAuthorizationUrl redirectUri codeChallenge state in
  (ReplyRedirect authUrl, verifierStore).

(** [getVerifier(state)] for whatever the query string parsed to: the keys
    of the map are strings, so only a string can find an entry. *)
Definition getVerifier_of (now : Z) (state : JsValue)
    (verifierStore : gmap string VerifierStore.Entry)
    : option string * gmap string VerifierStore.Entry :=
  match state with
  | JStr s => VerifierStore.getVerifier now s verifierStore
  | _ => (None, verifierStore)
  end.

(** GET /callback.  [now] is the clock reading inside [getVerifier]. *)
Definition callback (now : Z) (baseUrl : string) (query : CallbackQuery)
    (verifierStore : gmap string VerifierStore.Entry) (w : World)
    : Reply * gmap string VerifierStore.Entry * World * list Event :=
  (* Check for OAuth errors *)
  if truthy (error query) then
    (ReplyJson 400 "OAuth authorization failed"
       (Some (DetailsValue (js_or (error_description query) (error query)))),
     verifierStore, w, [])
  (* Validate required parameters *)
  else if negb (truthy (code query)) || negb (truthy (state query)) then
    (ReplyJson 400 "Missing code or state parameter" None,
     verifierStore, w, [])
  else
    (* Retrieve code verifier *)
    let '(codeVerifier, verifierStore) :=
      getVerifier_of now (state query) verifierStore in
    match codeVerifier with
    | None =>
        (ReplyJson 400 "Invalid or expired state parameter" None,
         verifierStore, w, [])
    | Some codeVerifier =>
        if String.eqb codeVerifier "" then
          (ReplyJson 400 "Invalid or expired state parameter" None,
           verifierStore, w, [])
        else
          (* Exchange code for tokens *)
          let redirectUri := baseUrl +:+ "/callback" in
          match exchangeCodeForTokens (String_of (code query)) codeVerifier
                  redirectUri w with
          | (inl e, w1, t1) =>
              (ReplyJson 500 "Failed to complete OAuth flow"
                 (Some (DetailsMessage e)), verifierStore, w1, t1)
          | (inr tokenResponse, w1, t1) =>
              (* Store tokens in database *)
              match (access_token <- lift (getProp tokenResponse "access_token") ;;
                     refresh_token <- lift (getProp tokenResponse "refresh_token") ;;
                     instance_url <- lift (getProp tokenResponse "instance_url") ;;
                     storeTokens access_token refresh_token instance_url)%async
                      w1 with
              | (Returned _, w2, t2) =>
                  (ReplySend SuccessHtml, verifierStore, w2, t1 ++ t2)
              | (Thrown e, w2, t2) =>
                  (ReplyJson 500 "Failed to complete OAuth flow"
                     (Some (DetailsMessage (Js e))), verifierStore, w2,
                   t1 ++ t2)
              end
          end
    end.

(** POST /disconnect *)
Definition disconnect (w : World) : Reply * World * list Event :=
  match deleteTokens w with
  | (Returned _, w1, t1) => (ReplyRedirect "/", w1, t1)
  | (Thrown e, w1, t1) =>
      (ReplyJson 500 "Failed to disconnect" (Some (DetailsMessage (Js e))),
       w1, t1)
  end.

End Handlers.
End Server.

(* ===================================================================== *)
(** * Sample runtime and worlds                                           *)
(* ===================================================================== *)

Module Samples.
Import Js Db Async.

(** A placeholder runtime: every serialiser answers with a fixed text and
    no environment variable is set. *)
Definition sample_runtime : Runtime :=
  {| JSON_stringify := fun _ => "<json>"%string;
     URLSearchParams_toString := fun _ => "<form>"%string;
     pg_prepareValue := fun _ => "<text>"%string;
     process_env := fun _ => None |}.

(** One stored credential. *)
Definition sample_database : Database :=
  {| salesforce_tokens :=
       [ {| row_id := 1; access_token := "AT0"; refresh_token := "RT0";
            instance_url := "https://old.example";
            created_at := 100; updated_at := 100 |} ];
     salesforce_tokens_id_seq := 2;
     current_timestamp := 500 |}.

(** The token endpoint grants a new access token and names a new instance. *)
Definition token_granted : Response :=
  {| status := 200;
     body := JsonText (JObj [("access_token", JStr "AT1");
                             ("instance_url", JStr "https://new.example")]) |}.

Definition unauthorized : Response :=
  {| status := 401;
     body := JsonText (JArr [JObj [("errorCode", JStr "INVALID_SESSION_ID")]]) |}.

Definition records : Response :=
  {| status := 200; body := JsonText (JObj [("totalSize", JNum 0)]) |}.

(** The stored credential, and a token endpoint about to grant. *)
Definition refresh_world : World :=
  {| db := sample_database; incoming := [Resolved token_granted] |}.

(** The API rejects the stored token, the refresh is granted, and the API
    rejects the new token as well. *)
Definition revoked_world : World :=
  {| db := sample_database;
     incoming := [Resolved unauthorized; Resolved token_granted;
                  Resolved unauthorized] |}.

(** The API rejects the stored token, the refresh is granted, and the API
    answers the second request. *)
Definition expired_world : World :=
  {| db := sample_database;
     incoming := [Resolved unauthorized; Resolved token_granted;
                  Resolved records] |}.

(** The token endpoint refuses. *)
Definition token_refused : Response :=
  {| status := 400;
     body := JsonText (JObj [("error", JStr "invalid_grant");
                             ("error_description", JStr "expired access/refresh token")]) |}.

(** A success answer of the token endpoint that names no access token. *)
Definition token_missing : Response :=
  {| status := 200;
     body := JsonText (JObj [("instance_url", JStr "https://new.example")]) |}.

(** The token endpoint grants the authorization code. *)
Definition token_issued : Response :=
  {| status := 200;
     body := JsonText (JObj [("access_token", JStr "AT9");
                             ("refresh_token", JStr "RT9");
                             ("instance_url", JStr "https://org.example")]) |}.

(** No credential stored, nothing will answer. *)
Definition disconnected_world : World :=
  {| db := empty_database 500; incoming := [] |}.

(** The stored credential, and nothing will answer. *)
Definition offline_world : World :=
  {| db := sample_database; incoming := [] |}.

(** The token endpoint refuses the refresh. *)
Definition refused_world : World :=
  {| db := sample_database; incoming := [Resolved token_refused] |}.

Definition missing_world : World :=
  {| db := sample_database; incoming := [Resolved token_missing] |}.

(** The API answers the first request. *)
Definition answering_world : World :=
  {| db := sample_database; incoming := [Resolved records] |}.

(** The API rejects the stored token and the token endpoint is silent. *)
Definition stranded_world : World :=
  {| db := sample_database; incoming := [Resolved unauthorized] |}.

(** The stored credential, and a token endpoint about to grant a code. *)
Definition granting_world : World :=
  {| db := sample_database; incoming := [Resolved token_issued] |}.


(** An answer that is not JSON. *)
Definition unavailable : Response :=
  {| status := 503; body := PlainText "Service Unavailable" |}.


(** The API rejects the stored token, the refresh is granted, and the API
    is down when asked again. *)
Definition failing_world : World :=
  {| db := sample_database;
     incoming := [Resolved unauthorized; Resolved token_granted;
                  Resolved unavailable] |}.

(** The API rejects the stored token, the refresh is granted, and the
    connection drops on the second request. *)
Definition dropped_world : World :=
  {| db := sample_database;
     incoming := [Resolved unauthorized; Resolved token_granted;
                  Rejected "ECONNRESET"] |}.

(** A refresh token with the character U+0000 in it. *)
Definition nul_token : string := String "000"%char "RT2".

(** Text of a value that is a string; anything else is not used below. *)
Definition sample_String_of (v : JsValue) : string :=
  match v with
  | JStr s => s
  | _ => "<value>"
  end.

Definition sample_sha256 (text : string) : list byte := repeat x00 32.

Definition sample_randomBytes (n : nat) : list byte := repeat xab n.

(** A callback of the provider for the state minted at clock reading 1000. *)
Definition sample_query : Server.CallbackQuery :=
  {| Server.code := JStr "code-1";
     Server.state := JStr (Pkce.generateState 1000 sample_randomBytes);
     Server.error := JUndefined;
     Server.error_description := JUndefined |}.

End Samples.
Example base64_Man :
  Pkce.toString_base64 ["M"%byte; "a"%byte; "n"%byte] = "TWFu"%string.
Proof. reflexivity. Qed.

Example base64_Ma :
  Pkce.toString_base64 ["M"%byte; "a"%byte] = "TWE="%string.
Proof. reflexivity. Qed.

Example base64url_ff :
  Pkce.base64urlEncode [xff; xff; xfe] = "___-"%string
  /\ Pkce.base64urlEncode [xfb] = "-w"%string.
Proof. split; reflexivity. Qed.

(* ===================================================================== *)
(** * Properties of the PKCE generator                                    *)
(* ===================================================================== *)

Section PkceFacts.
Import Pkce.

Lemma list_ind3 {A} (P : list A -> Prop) :
  P [] -> (forall a, P [a]) -> (forall a b, P [a; b]) ->
  (forall a b c rest, P rest -> P (a :: b :: c :: rest)) ->
  forall l, P l.
Proof.
  intros H0 H1 H2 H3 l.
  assert (P l /\ (forall a, P (a :: l)) /\ (forall a b, P (a :: b :: l)))
    as [? _]; [|assumption].
  induction l as [|x l (IH0 & IH1 & IH2)]; auto.
Qed.

Lemma base64_char_url_safe (i : N) :
  (i < 64)%N ->
  url_safe (url_variant (base64_char i)) = true
  /\ Ascii.eqb (url_variant (base64_char i)) "=" = false.
Proof.
  intros Hi. unfold base64_char.
  assert (N.to_nat i < 64)%nat as Hn by lia.
  generalize dependent (N.to_nat i). intros n Hn.
  do 64 (destruct n as [|n]; [split; vm_compute; reflexivity|]).
  lia.
Qed.

Lemma byte_bounded (a : byte) : (Byte.to_N a < 256)%N.
Proof. pose proof (Byte.to_N_bounded a). lia. Qed.

Lemma remove_replace_cons c s :
  Ascii.eqb (url_variant c) "=" = false ->
  remove_all "=" (replace_all "/" "_" (replace_all "+" "-" (String c s)))
  = String (url_variant c)
      (remove_all "=" (replace_all "/" "_" (replace_all "+" "-" s))).
Proof. intros H. simpl. fold (url_variant c). now rewrite H. Qed.

Lemma base64urlEncode_shape (buffer : list byte) :
  String.length (base64urlEncode buffer) = unpadded_length (length buffer)
  /\ string_forall url_safe (base64urlEncode buffer) = true.
Proof.
  induction buffer as [|a|a b|a b c rest [IHl IHa]] using list_ind3.
  - split; reflexivity.
  - pose proof (byte_bounded a).
    unfold base64urlEncode; cbn [toString_base64].
    destruct (base64_char_url_safe (Byte.to_N a / 4)) as [S1 E1].
    { apply N.Div0.div_lt_upper_bound; lia. }
    destruct (base64_char_url_safe (Byte.to_N a mod 4 * 16)) as [S2 E2].
    { pose proof (N.mod_upper_bound (Byte.to_N a) 4). lia. }
    rewrite !remove_replace_cons by assumption.
    cbn. rewrite S1, S2. split; reflexivity.
  - pose proof (byte_bounded a). pose proof (byte_bounded b).
    pose proof (N.mod_upper_bound (Byte.to_N a) 4).
    pose proof (N.mod_upper_bound (Byte.to_N b) 16).
    assert (Byte.to_N b / 16 < 16)%N by (apply N.Div0.div_lt_upper_bound; lia).
    unfold base64urlEncode; cbn [toString_base64].
    destruct (base64_char_url_safe (Byte.to_N a / 4)) as [S1 E1].
    { apply N.Div0.div_lt_upper_bound; lia. }
    destruct (base64_char_url_safe (Byte.to_N a mod 4 * 16 + Byte.to_N b / 16))
      as [S2 E2]; [lia|].
    destruct (base64_char_url_safe (Byte.to_N b mod 16 * 4)) as [S3 E3]; [lia|].
    rewrite !remove_replace_cons by assumption.
    cbn. rewrite S1, S2, S3. split; reflexivity.
  - pose proof (byte_bounded a). pose proof (byte_bounded b).
    pose proof (byte_bounded c).
    pose proof (N.mod_upper_bound (Byte.to_N a) 4).
    pose proof (N.mod_upper_bound (Byte.to_N b) 16).
    pose proof (N.mod_upper_bound (Byte.to_N c) 64).
    assert (Byte.to_N b / 16 < 16)%N by (apply N.Div0.div_lt_upper_bound; lia).
    assert (Byte.to_N c / 64 < 4)%N by (apply N.Div0.div_lt_upper_bound; lia).
    unfold base64urlEncode in *; cbn [toString_base64].
    destruct (base64_char_url_safe (Byte.to_N a / 4)) as [S1 E1].
    { apply N.Div0.div_lt_upper_bound; lia. }
    destruct (base64_char_url_safe (Byte.to_N a mod 4 * 16 + Byte.to_N b / 16))
      as [S2 E2]; [lia|].
    destruct (base64_char_url_safe (Byte.to_N b mod 16 * 4 + Byte.to_N c / 64))
      as [S3 E3]; [lia|].
    destruct (base64_char_url_safe (Byte.to_N c mod 64)) as [S4 E4]; [lia|].
    rewrite !remove_replace_cons by assumption.
    cbn [String.length string_forall length unpadded_length].
    rewrite S1, S2, S3, S4, IHl, IHa. split; reflexivity.
Qed.

Lemma string_forall_not_mem (p : ascii -> bool) (c : ascii) (s : string) :
  string_forall p s = true -> p c = false -> string_mem c s = false.
Proof.
  intros Hs Hc. induction s as [|x s IH]; [reflexivity|].
  simpl in *. apply andb_true_iff in Hs as [Hx Hs].
  rewrite (IH Hs), orb_false_r.
  destruct (Ascii.eqb_spec x c) as [->|]; [congruence|reflexivity].
Qed.

(** C9. Whatever 32 bytes the randomness source hands out, the verifier is
    a 43-character string over A-Z, a-z, 0-9, '-' and '_', and holds none
    of '+', '/' and '='. *)
Theorem generateCodeVerifier_url_safe (randomBytes : nat -> list byte) :
  length (randomBytes 32%nat) = 32%nat ->
  String.length (generateCodeVerifier randomBytes) = 43%nat
  /\ string_forall url_safe (generateCodeVerifier randomBytes) = true
  /\ string_mem "+" (generateCodeVerifier randomBytes) = false
  /\ string_mem "/" (generateCodeVerifier randomBytes) = false
  /\ string_mem "=" (generateCodeVerifier randomBytes) = false.
Proof.
  intros Hlen. unfold generateCodeVerifier.
  destruct (base64urlEncode_shape (randomBytes 32%nat)) as [Hl Ha].
  rewrite Hlen in Hl.
  repeat split; try assumption;
    apply (string_forall_not_mem url_safe); auto.
Qed.

End PkceFacts.

Lemma generateCodeVerifier_url_safe_witness :
  let randomBytes := fun n : nat => repeat "a"%byte n in
  length (randomBytes 32%nat) = 32%nat
  /\ Pkce.generateCodeVerifier randomBytes
     = "YWFhYWFhYWFhYWFhYWFhYWFhYWFhYWFhYWFhYWFhYWE"%string
  /\ String.length (Pkce.generateCodeVerifier randomBytes) = 43%nat.
Proof.
  intros randomBytes.
  split; [reflexivity|]. split; [reflexivity|].
  apply (generateCodeVerifier_url_safe randomBytes). reflexivity.
Defined.

(* ===================================================================== *)
(** * More on the PKCE generator                                          *)
(* ===================================================================== *)

Example generateState_sample :
  Pkce.generateState 1700000000000 (fun n => repeat xab n)
  = "loyw3v28-abababababababab"%string.
Proof. reflexivity. Qed.

Example Number_toString36_samples :
  Pkce.Number_toString36 0 = "0"%string
  /\ Pkce.Number_toString36 35 = "z"%string
  /\ Pkce.Number_toString36 36 = "10"%string
  /\ Pkce.Number_toString36 (-37) = "-11"%string.
Proof. repeat split. Qed.

Section PkceMore.
Import Pkce.

Lemma base64url_char_index (i : N) :
  (i < 64)%N -> base64url_index (base64url_char i) = i.
Proof.
  intros Hi. rewrite <- (N2Nat.id i) at 2.
  unfold base64url_char, base64_char.
  assert (N.to_nat i < 64)%nat as Hn by lia.
  generalize dependent (N.to_nat i). intros n Hn.
  do 64 (destruct n as [|n]; [vm_compute; reflexivity|]).
  lia.
Qed.

Lemma base64url_char_inj (i j : N) :
  (i < 64)%N -> (j < 64)%N -> base64url_char i = base64url_char j -> i = j.
Proof.
  intros Hi Hj H. rewrite <- (base64url_char_index i Hi),
    <- (base64url_char_index j Hj). now rewrite H.
Qed.

Lemma base64url_char_not_pad (i : N) :
  (i < 64)%N -> Ascii.eqb (base64url_char i) "=" = false.
Proof. intros Hi. apply base64_char_url_safe, Hi. Qed.

Lemma N_div_mod_bound (x k : N) :
  (0 < k)%N ->
  (x = k * (x / k) + x mod k /\ x mod k < k /\ 0 <= x / k /\ 0 <= x mod k)%N.
Proof.
  intros Hk. split; [apply N.div_mod; lia|].
  split; [apply N.mod_upper_bound; lia|]. split; apply N.le_0_l.
Qed.

Ltac note_div_mod x k :=
  lazymatch goal with
  | H : (x = k * (x / k) + x mod k /\ _)%N |- _ => fail
  | _ => pose proof (N_div_mod_bound x k ltac:(lia))
  end.

Ltac group_bound :=
  repeat match goal with
         | a : byte |- _ =>
             lazymatch goal with
             | H : (Byte.to_N a < 256)%N |- _ => fail
             | _ => pose proof (byte_bounded a)
             end
         end;
  repeat match goal with
         | |- context [(?x mod ?k)%N] => note_div_mod x k
         | |- context [(?x / ?k)%N] => note_div_mod x k
         | H : context [(?x mod ?k)%N] |- _ => note_div_mod x k
         | H : context [(?x / ?k)%N] |- _ => note_div_mod x k
         end;
  lia.

Lemma base64urlEncode_one (a : byte) :
  base64urlEncode [a]
  = String (base64url_char (Byte.to_N a / 4))
      (String (base64url_char (Byte.to_N a mod 4 * 16)) EmptyString).
Proof.
  unfold base64urlEncode; cbn [toString_base64].
  rewrite !remove_replace_cons
    by (apply base64url_char_not_pad; group_bound).
  reflexivity.
Qed.

Lemma base64urlEncode_two (a b : byte) :
  base64urlEncode [a; b]
  = String (base64url_char (Byte.to_N a / 4))
      (String (base64url_char (Byte.to_N a mod 4 * 16 + Byte.to_N b / 16))
         (String (base64url_char (Byte.to_N b mod 16 * 4)) EmptyString)).
Proof.
  unfold base64urlEncode; cbn [toString_base64].
  rewrite !remove_replace_cons
    by (apply base64url_char_not_pad; group_bound).
  reflexivity.
Qed.

Lemma base64urlEncode_three (a b c : byte) (rest : list byte) :
  base64urlEncode (a :: b :: c :: rest)
  = String (base64url_char (Byte.to_N a / 4))
      (String (base64url_char (Byte.to_N a mod 4 * 16 + Byte.to_N b / 16))
         (String (base64url_char (Byte.to_N b mod 16 * 4 + Byte.to_N c / 64))
            (String (base64url_char (Byte.to_N c mod 64))
               (base64urlEncode rest)))).
Proof.
  unfold base64urlEncode; cbn [toString_base64].
  rewrite !remove_replace_cons
    by (apply base64url_char_not_pad; group_bound).
  reflexivity.
Qed.

Lemma byte_to_N_inj (a b : byte) : Byte.to_N a = Byte.to_N b -> a = b.
Proof.
  intros H. apply (f_equal Byte.of_N) in H.
  rewrite !Byte.of_to_N in H. congruence.
Qed.

(** The encoding loses nothing: two buffers with the same encoding are the
    same buffer.  Verifiers made from different random bytes differ. *)
Theorem base64urlEncode_injective (b1 b2 : list byte) :
  base64urlEncode b1 = base64urlEncode b2 -> b1 = b2.
Proof.
  revert b2.
  induction b1 as [|a|a b|a b c rest IH] using list_ind3;
    intros [|a' [|b' [|c' rest']]];
    rewrite ?base64urlEncode_one, ?base64urlEncode_two,
      ?base64urlEncode_three;
    intros H; try reflexivity; try discriminate H;
    try (injection H as H1 H2; discriminate);
    try (injection H as H1 H2 H3; discriminate);
    try (injection H as H1 H2 H3 H4; discriminate).
  - injection H as H1 H2.
    apply base64url_char_inj in H1; [|group_bound..].
    apply base64url_char_inj in H2; [|group_bound..].
    f_equal. apply byte_to_N_inj. group_bound.
  - injection H as H1 H2 H3.
    apply base64url_char_inj in H1; [|group_bound..].
    apply base64url_char_inj in H2; [|group_bound..].
    apply base64url_char_inj in H3; [|group_bound..].
    assert (Byte.to_N a = Byte.to_N a') by group_bound.
    assert (Byte.to_N b = Byte.to_N b') by group_bound.
    f_equal; [|f_equal]; apply byte_to_N_inj; assumption.
  - injection H as H1 H2 H3 H4 H5.
    apply base64url_char_inj in H1; [|group_bound..].
    apply base64url_char_inj in H2; [|group_bound..].
    apply base64url_char_inj in H3; [|group_bound..].
    apply base64url_char_inj in H4; [|group_bound..].
    assert (Byte.to_N a = Byte.to_N a') by group_bound.
    assert (Byte.to_N b = Byte.to_N b') by group_bound.
    assert (Byte.to_N c = Byte.to_N c') by group_bound.
    rewrite (IH rest' H5).
    f_equal; [|f_equal; [|f_equal]]; apply byte_to_N_inj; assumption.
Qed.

Lemma unpadded_length_formula (n : nat) :
  unpadded_length n = ((4 * n + 2) / 3)%nat.
Proof.
  assert (unpadded_length n = ((4 * n + 2) / 3)%nat
          /\ unpadded_length (S n) = ((4 * S n + 2) / 3)%nat
          /\ unpadded_length (S (S n)) = ((4 * S (S n) + 2) / 3)%nat)
    as [H _]; [|exact H].
  induction n as [|n (IH0 & IH1 & IH2)].
  - repeat split.
  - split; [exact IH1|]. split; [exact IH2|].
    cbn [unpadded_length]. rewrite IH0.
    replace (4 * S (S (S n)) + 2)%nat with ((4 * n + 2) + 4 * 3)%nat by lia.
    rewrite Nat.div_add by lia. lia.
Qed.

(** Whatever the buffer, its encoding has the length of unpadded base64,
    a third more than the bytes, rounded up, and stays inside the
    URL-safe alphabet. *)
Theorem base64urlEncode_length_alphabet (buffer : list byte) :
  String.length (base64urlEncode buffer)
  = ((4 * length buffer + 2) / 3)%nat
  /\ string_forall url_safe (base64urlEncode buffer) = true
  /\ string_mem "=" (base64urlEncode buffer) = false.
Proof.
  destruct (base64urlEncode_shape buffer) as [Hl Ha].
  rewrite <- unpadded_length_formula. split; [exact Hl|].
  split; [exact Ha|]. apply (string_forall_not_mem url_safe); auto.
Qed.

(** A 32-byte digest gives a challenge of 43 URL-safe characters, the
    same shape as the verifier. *)
Theorem generateCodeChallenge_url_safe (sha256 : string -> list byte)
    (verifier : string) :
  length (sha256 verifier) = 32%nat ->
  String.length (generateCodeChallenge sha256 verifier) = 43%nat
  /\ string_forall url_safe (generateCodeChallenge sha256 verifier) = true.
Proof.
  intros Hlen. unfold generateCodeChallenge.
  destruct (base64urlEncode_shape (sha256 verifier)) as [Hl Ha].
  rewrite Hlen in Hl. split; assumption.
Qed.

(** ** The state parameter *)

Lemma hex_char_spec (i : N) :
  (i < 16)%N ->
  base36_index (hex_char i) = i /\ is_hex_digit (hex_char i) = true.
Proof.
  intros Hi. rewrite <- (N2Nat.id i) at 2. unfold hex_char.
  assert (N.to_nat i < 16)%nat as Hn by lia.
  generalize dependent (N.to_nat i). intros n Hn.
  do 16 (destruct n as [|n]; [split; vm_compute; reflexivity|]).
  lia.
Qed.

Lemma hex_char_index (i : N) : (i < 16)%N -> base36_index (hex_char i) = i.
Proof. intros Hi. apply hex_char_spec, Hi. Qed.

Lemma base36_char_spec (i : N) :
  (i < 36)%N ->
  base36_index (base36_char i) = i /\ is_base36_digit (base36_char i) = true.
Proof.
  intros Hi. rewrite <- (N2Nat.id i) at 2. unfold base36_char.
  assert (N.to_nat i < 36)%nat as Hn by lia.
  generalize dependent (N.to_nat i). intros n Hn.
  do 36 (destruct n as [|n]; [split; vm_compute; reflexivity|]).
  lia.
Qed.

Lemma toString_hex_shape (buffer : list byte) :
  String.length (toString_hex buffer) = (2 * length buffer)%nat
  /\ string_forall is_hex_digit (toString_hex buffer) = true.
Proof.
  induction buffer as [|a buffer [IHl IHa]]; [split; reflexivity|].
  cbn [toString_hex String.length string_forall length].
  destruct (hex_char_spec (Byte.to_N a / 16)) as [_ ->]; [group_bound|].
  destruct (hex_char_spec (Byte.to_N a mod 16)) as [_ ->]; [group_bound|].
  rewrite IHl, IHa. split; [lia|reflexivity].
Qed.

Lemma toString_hex_inj (b1 b2 : list byte) :
  toString_hex b1 = toString_hex b2 -> b1 = b2.
Proof.
  revert b2. induction b1 as [|a b1 IH]; intros [|a' b2] H;
    try reflexivity; try discriminate H.
  cbn [toString_hex] in H. injection H as H1 H2 H3.
  apply (f_equal base36_index) in H1, H2.
  rewrite !hex_char_index in H1 by group_bound.
  rewrite !hex_char_index in H2 by group_bound.
  rewrite (IH b2 H3). f_equal. apply byte_to_N_inj. group_bound.
Qed.

Lemma base36_digits_bound (fuel : nat) (n : N) :
  Forall (fun d => d < 36)%N (base36_digits fuel n).
Proof.
  revert n. induction fuel as [|fuel IH]; intros n; cbn; [constructor|].
  destruct (N.ltb_spec n 36).
  - repeat constructor. assumption.
  - apply Forall_app. split; [apply IH|].
    repeat constructor. apply N.mod_upper_bound. lia.
Qed.

Lemma base36_value_snoc (digits : list N) (d : N) :
  base36_value (digits ++ [d]) = (base36_value digits * 36 + d)%N.
Proof. unfold base36_value. rewrite fold_left_app. reflexivity. Qed.

(** With fuel for every binary digit, the digits stand for the number. *)
Lemma base36_digits_value (fuel : nat) (n : N) :
  (N.to_nat (N.log2 n) < fuel)%nat ->
  base36_value (base36_digits fuel n) = n.
Proof.
  revert n. induction fuel as [|fuel IH]; intros n Hfuel; [lia|].
  cbn [base36_digits]. destruct (N.ltb_spec n 36) as [Hlt|Hge].
  - reflexivity.
  - rewrite base36_value_snoc, IH.
    + pose proof (N_div_mod_bound n 36 ltac:(lia)). lia.
    + assert (1 <= n / 36)%N as Hq.
      { apply N.div_le_lower_bound; lia. }
      assert (2 * (n / 36) <= n)%N as Hdouble.
      { pose proof (N_div_mod_bound n 36 ltac:(lia)). lia. }
      pose proof (N.log2_double (n / 36) ltac:(lia)) as Hlog.
      pose proof (N.log2_le_mono _ _ Hdouble) as Hmono.
      rewrite Hlog in Hmono. lia.
Qed.

Lemma base36_digits_nonempty (fuel : nat) (n : N) :
  base36_digits (S fuel) n <> [].
Proof.
  cbn. destruct (n <? 36)%N; [discriminate|].
  intros H. apply app_eq_nil in H as [_ H]. discriminate.
Qed.

Lemma map_base36_char_inj (l1 l2 : list N) :
  Forall (fun d => d < 36)%N l1 -> Forall (fun d => d < 36)%N l2 ->
  map base36_char l1 = map base36_char l2 -> l1 = l2.
Proof.
  intros H1. revert l2. induction H1 as [|d l1 Hd _ IH]; intros l2 H2 H.
  - destruct l2; [reflexivity|discriminate].
  - destruct H2 as [|d' l2 Hd' H2]; [discriminate|].
    cbn in H. injection H as Hc Hrest.
    apply (f_equal base36_index) in Hc.
    rewrite (proj1 (base36_char_spec d Hd)),
      (proj1 (base36_char_spec d' Hd')) in Hc.
    subst d'. f_equal. apply IH; assumption.
Qed.

Lemma string_of_list_ascii_inj (l1 l2 : list ascii) :
  string_of_list_ascii l1 = string_of_list_ascii l2 -> l1 = l2.
Proof.
  intros H. apply (f_equal list_ascii_of_string) in H.
  now rewrite !list_ascii_of_string_of_list_ascii in H.
Qed.

Lemma base36_text_digits (l : list N) :
  Forall (fun d => d < 36)%N l ->
  string_forall is_base36_digit (string_of_list_ascii (map base36_char l)) = true.
Proof.
  induction 1 as [|d l Hd _ IH]; [reflexivity|].
  cbn. now rewrite (proj2 (base36_char_spec d Hd)), IH.
Qed.

Lemma magnitude_text_inj (n1 n2 : N) :
  magnitude_text n1 = magnitude_text n2 -> n1 = n2.
Proof.
  unfold magnitude_text. intros H.
  apply string_of_list_ascii_inj, map_base36_char_inj in H;
    [|apply base36_digits_bound..].
  rewrite <- (base36_digits_value (S (N.to_nat (N.log2 n1))) n1) by lia.
  rewrite <- (base36_digits_value (S (N.to_nat (N.log2 n2))) n2) by lia.
  now rewrite H.
Qed.

Lemma magnitude_text_digits (n : N) :
  string_forall is_base36_digit (magnitude_text n) = true
  /\ magnitude_text n <> EmptyString.
Proof.
  split; [apply base36_text_digits, base36_digits_bound|].
  unfold magnitude_text.
  pose proof (base36_digits_nonempty (N.to_nat (N.log2 n)) n) as Hne.
  destruct (base36_digits _ n); [congruence|discriminate].
Qed.

(** Different integers are written differently in base 36. *)
Lemma Number_toString36_inj (z1 z2 : Z) :
  Number_toString36 z1 = Number_toString36 z2 -> z1 = z2.
Proof.
  unfold Number_toString36.
  destruct (Z.ltb_spec z1 0), (Z.ltb_spec z2 0); intros Heq.
  - injection Heq as Heq. apply magnitude_text_inj in Heq. lia.
  - pose proof (magnitude_text_digits (Z.to_N (Z.abs z2))) as [Hd _].
    rewrite <- Heq in Hd. discriminate Hd.
  - pose proof (magnitude_text_digits (Z.to_N (Z.abs z1))) as [Hd _].
    rewrite Heq in Hd. discriminate Hd.
  - apply magnitude_text_inj in Heq. lia.
Qed.

Lemma append_nil_l (b : string) : EmptyString +:+ b = b.
Proof. reflexivity. Qed.

Lemma append_cons (c : ascii) (a b : string) :
  String c a +:+ b = String c (a +:+ b).
Proof. reflexivity. Qed.

Lemma string_length_append (a b : string) :
  String.length (a +:+ b) = (String.length a + String.length b)%nat.
Proof.
  induction a as [|c a IH]; rewrite ?append_nil_l, ?append_cons;
    cbn [String.length]; [reflexivity|now rewrite IH].
Qed.

Lemma string_append_inj (a1 a2 b1 b2 : string) :
  String.length b1 = String.length b2 ->
  a1 +:+ b1 = a2 +:+ b2 -> a1 = a2 /\ b1 = b2.
Proof.
  revert a2. induction a1 as [|c a1 IH]; intros [|c' a2] Hlen H;
    rewrite ?append_nil_l, ?append_cons in H.
  - split; [reflexivity|exact H].
  - apply (f_equal String.length) in H. cbn [String.length] in H.
    rewrite string_length_append in H. lia.
  - apply (f_equal String.length) in H. cbn [String.length] in H.
    rewrite string_length_append in H. lia.
  - injection H as -> H. destruct (IH a2 Hlen H) as [-> ->]. split; reflexivity.
Qed.

(** A state is the timestamp in base 36, a hyphen, and sixteen lowercase
    hexadecimal digits; for a timestamp that is not negative the part
    before the hyphen is a non-empty run of 0-9 and a-z. *)
Theorem generateState_format (now : Z) (randomBytes : nat -> list byte) :
  length (randomBytes 8%nat) = 8%nat ->
  0 <= now ->
  exists timestamp random,
    generateState now randomBytes = timestamp +:+ "-" +:+ random
    /\ timestamp <> EmptyString
    /\ string_forall is_base36_digit timestamp = true
    /\ String.length random = 16%nat
    /\ string_forall is_hex_digit random = true
    /\ String.length (generateState now randomBytes)
       = (String.length timestamp + 17)%nat.
Proof.
  intros Hlen Hnow.
  exists (Number_toString36 now), (toString_hex (randomBytes 8%nat)).
  destruct (toString_hex_shape (randomBytes 8%nat)) as [Hl Hh].
  rewrite Hlen in Hl.
  unfold Number_toString36 at 2 3.
  destruct (Z.ltb_spec now 0); [lia|].
  destruct (magnitude_text_digits (Z.to_N (Z.abs now))) as [Hd Hne].
  repeat split; try assumption.
  unfold generateState. rewrite !string_length_append, Hl.
  unfold Number_toString36.
  destruct (Z.ltb_spec now 0); [lia|]. cbn [String.length]. lia.
Qed.

(** Two states are equal only when both the timestamp and the eight
    random bytes are: neither component is lost or blurred in the text. *)
Theorem generateState_injective (now1 now2 : Z)
    (randomBytes1 randomBytes2 : nat -> list byte) :
  length (randomBytes1 8%nat) = 8%nat ->
  length (randomBytes2 8%nat) = 8%nat ->
  generateState now1 randomBytes1 = generateState now2 randomBytes2 ->
  now1 = now2 /\ randomBytes1 8%nat = randomBytes2 8%nat.
Proof.
  intros H1 H2 H. unfold generateState in H.
  apply string_append_inj in H as [Ht Hr].
  - split; [apply Number_toString36_inj, Ht|].
    rewrite !append_cons, !append_nil_l in Hr.
    injection Hr as Hr. apply toString_hex_inj, Hr.
  - rewrite !append_cons, !append_nil_l. cbn [String.length].
    rewrite (proj1 (toString_hex_shape _)), (proj1 (toString_hex_shape _)).
    now rewrite H1, H2.
Qed.

End PkceMore.

Lemma generateCodeChallenge_url_safe_witness :
  let sha256 := fun _ : string => repeat x00 32 in
  length (sha256 "verifier"%string) = 32%nat
  /\ Pkce.generateCodeChallenge sha256 "verifier"
     = "AAAAAAAAAAAAAAAAAAAAAAAAAAAAAAAAAAAAAAAAAAA"%string
  /\ String.length (Pkce.generateCodeChallenge sha256 "verifier") = 43%nat.
Proof.
  intros sha256. split; [reflexivity|]. split; [reflexivity|].
  apply (generateCodeChallenge_url_safe sha256 "verifier"). reflexivity.
Defined.

Lemma base64urlEncode_injective_witness :
  Pkce.base64urlEncode [x01; x02] = Pkce.base64urlEncode [x01; x02]
  /\ [x01; x02] = [x01; x02].
Proof.
  split; [reflexivity|].
  apply (base64urlEncode_injective [x01; x02] [x01; x02]). reflexivity.
Defined.

Lemma generateState_format_witness :
  exists timestamp random,
    Pkce.generateState 1700000000000 (fun n => repeat xab n)
    = timestamp +:+ "-" +:+ random
    /\ timestamp <> EmptyString
    /\ Pkce.string_forall Pkce.is_base36_digit timestamp = true
    /\ String.length random = 16%nat
    /\ Pkce.string_forall Pkce.is_hex_digit random = true
    /\ String.length (Pkce.generateState 1700000000000 (fun n => repeat xab n))
       = (String.length timestamp + 17)%nat.
Proof.
  apply (generateState_format 1700000000000 (fun n => repeat xab n));
    [reflexivity | lia].
Defined.

Lemma generateState_injective_witness :
  1700000000000 = 1700000000000
  /\ repeat xab 8 = repeat xab 8.
Proof.
  apply (generateState_injective 1700000000000 1700000000000
           (fun n => repeat xab n) (fun n => repeat xab n));
    reflexivity.
Defined.

(* ===================================================================== *)
(** * Properties of the verifier store                                    *)
(* ===================================================================== *)

Section VerifierStoreFacts.
Import VerifierStore.

Implicit Types (m : gmap string Entry) (e : Entry) (s k v : string).

Lemma sweep_absent now (l : list (string * Entry)) m k :
  m !! k = None -> foldl (sweep_step now) m l !! k = None.
Proof.
  revert m. induction l as [|[k' e'] l IH]; intros m Hm; [exact Hm|].
  simpl. apply IH. destruct (expired now e'); [|exact Hm].
  destruct (decide (k' = k)) as [->|Hne].
  - apply lookup_delete_eq.
  - rewrite lookup_delete_ne; assumption.
Qed.

Lemma sweep_drops now (l : list (string * Entry)) m k e :
  (k, e) ∈ l -> expired now e = true ->
  foldl (sweep_step now) m l !! k = None.
Proof.
  intros Hin Hexp. revert m.
  induction l as [|[k' e'] l IH]; intros m; [inversion Hin|].
  apply elem_of_cons in Hin as [Heq|Hin].
  - inversion Heq; subst k' e'. simpl. rewrite Hexp.
    apply sweep_absent, lookup_delete_eq.
  - simpl. apply IH, Hin.
Qed.

Lemma sweep_keeps now (l : list (string * Entry)) m k :
  (forall e, (k, e) ∈ l -> expired now e = false) ->
  foldl (sweep_step now) m l !! k = m !! k.
Proof.
  revert m. induction l as [|[k' e'] l IH]; intros m Hall; [reflexivity|].
  simpl. rewrite IH.
  - destruct (expired now e') eqn:Hexp; [|reflexivity].
    destruct (decide (k' = k)) as [->|Hne].
    + rewrite (Hall e') in Hexp; [discriminate|apply list_elem_of_here].
    + apply lookup_delete_ne, Hne.
  - intros e Hin. apply Hall. apply list_elem_of_further, Hin.
Qed.

(** The sweep keeps exactly the entries that pass the age test. *)
Lemma cleanupExpiredVerifiers_lookup now m k :
  cleanupExpiredVerifiers now m !! k
  = match m !! k with
    | Some e => if expired now e then None else Some e
    | None => None
    end.
Proof.
  unfold cleanupExpiredVerifiers.
  destruct (m !! k) as [e|] eqn:Hk.
  - destruct (expired now e) eqn:Hexp.
    + apply (sweep_drops now _ m k e); [|exact Hexp].
      apply elem_of_map_to_list, Hk.
    + rewrite sweep_keeps; [exact Hk|].
      intros e' Hin. apply elem_of_map_to_list in Hin.
      rewrite Hk in Hin. inversion Hin; subst. exact Hexp.
  - apply sweep_absent, Hk.
Qed.

Lemma cleanupExpiredVerifiers_filter now m :
  cleanupExpiredVerifiers now m
  = filter (fun kv => expired now kv.2 = false) m.
Proof.
  apply map_eq; intros k. rewrite cleanupExpiredVerifiers_lookup.
  destruct (m !! k) as [e|] eqn:Hk.
  - destruct (expired now e) eqn:Hexp; symmetry.
    + apply map_lookup_filter_None. right. intros e' He'.
      rewrite Hk in He'. inversion He'; subst. simpl. congruence.
    + apply map_lookup_filter_Some. split; assumption.
  - symmetry. apply map_lookup_filter_None. left. exact Hk.
Qed.

(** C4. A verifier put under a state and taken while its age is within the
    TTL comes back as it was put, and the next take of that state finds
    nothing, whenever it happens. *)
Theorem storeVerifier_getVerifier_once
    (now_cleanup now_set now_take now_again : Z) s v m :
  now_take - now_set <= VERIFIER_TTL ->
  let stored := storeVerifier now_cleanup now_set s v m in
  let first := getVerifier now_take s stored in
  let second := getVerifier now_again s (snd first) in
  fst first = Some v /\ fst second = None /\ snd second !! s = None.
Proof.
  intros Hage stored first second.
  assert (first = (Some v, delete s stored)) as Hfirst.
  { unfold first, getVerifier, stored, storeVerifier.
    rewrite lookup_insert_eq. cbn [createdAt verifier].
    destruct (Z.gtb_spec (now_take - now_set) VERIFIER_TTL); [lia|reflexivity]. }
  assert (second = (None, delete s stored)) as Hsecond.
  { unfold second. rewrite Hfirst. cbn [snd]. unfold getVerifier.
    now rewrite lookup_delete_eq. }
  rewrite Hfirst, Hsecond. cbn [fst snd].
  repeat split. apply lookup_delete_eq.
Qed.

(** C5. Taking a state whose entry is older than the TTL finds nothing, and
    the entry is gone from the map afterwards. *)
Theorem getVerifier_expired (now : Z) s e m :
  m !! s = Some e ->
  now - createdAt e > VERIFIER_TTL ->
  getVerifier now s m = (None, delete s m)
  /\ snd (getVerifier now s m) !! s = None.
Proof.
  intros Hs Hage. unfold getVerifier. rewrite Hs.
  destruct (Z.gtb_spec (now - createdAt e) VERIFIER_TTL); [|lia].
  split; [reflexivity|]. apply lookup_delete_eq.
Qed.

(** C6, as the code has it.  A put sweeps first and inserts second: the map
    it leaves is the old one without the entries older than the TTL at the
    clock reading of the sweep, with the new entry, stamped at a second
    reading, written over it.  Hence, taking ages at the reading the sweep
    used (the clock not having run backwards before the entry was stamped),
    no entry of the map a put returns is older than the TTL; at a later
    reading, such as the moment the put returns, an entry exceeds the TTL
    by no more than the time gone by since the sweep.  Of the other keys,
    the sweep drops the entries aged above 1800000 ms at its reading and
    keeps every other one as it was. *)
Theorem storeVerifier_sweeps_then_inserts (now_cleanup now_set : Z) s v m :
  now_cleanup <= now_set ->
  let stored := storeVerifier now_cleanup now_set s v m in
  stored
  = <[s := {| verifier := v; createdAt := now_set |}]>
      (filter (fun kv => expired now_cleanup kv.2 = false) m)
  /\ stored !! s = Some {| verifier := v; createdAt := now_set |}
  /\ (forall k e, stored !! k = Some e ->
        now_cleanup - createdAt e <= VERIFIER_TTL
        /\ expired now_cleanup e = false
        /\ forall now, now - createdAt e <= VERIFIER_TTL + (now - now_cleanup))
  /\ (forall k e, k <> s -> m !! k = Some e ->
        (now_cleanup - createdAt e > 1800000 -> stored !! k = None)
        /\ (now_cleanup - createdAt e <= 1800000 -> stored !! k = Some e)).
Proof.
  intros Hclock stored. unfold stored, storeVerifier.
  rewrite cleanupExpiredVerifiers_filter.
  split; [reflexivity|]. split; [apply lookup_insert_eq|].
  split; cycle 1.
  { intros k e Hks Hk. rewrite lookup_insert_ne by congruence. split.
    - intros Hold. apply map_lookup_filter_None. right.
      intros e' Hk'. rewrite Hk in Hk'. inversion Hk'; subst e'. cbn.
      unfold expired, VERIFIER_TTL.
      destruct (Z.gtb_spec (now_cleanup - createdAt e) (30 * 60 * 1000));
        [discriminate|lia].
    - intros Hfresh. apply map_lookup_filter_Some. split; [exact Hk|]. cbn.
      unfold expired, VERIFIER_TTL.
      destruct (Z.gtb_spec (now_cleanup - createdAt e) (30 * 60 * 1000));
        [lia|reflexivity]. }
  intros k e Hk.
  assert (now_cleanup - createdAt e <= VERIFIER_TTL) as Hage; cycle 1.
  { split; [exact Hage|]. split; [|intros now; lia].
    unfold expired. destruct (Z.gtb_spec (now_cleanup - createdAt e) VERIFIER_TTL);
      [lia|reflexivity]. }
  destruct (decide (s = k)) as [->|Hne].
  - rewrite lookup_insert_eq in Hk. inversion Hk; subst. cbn.
    unfold VERIFIER_TTL. lia.
  - rewrite lookup_insert_ne in Hk by assumption.
    apply map_lookup_filter_Some in Hk as [_ Hfresh]. cbn in Hfresh.
    unfold expired in Hfresh.
    destruct (Z.gtb_spec (now_cleanup - createdAt e) VERIFIER_TTL);
      [discriminate|lia].
Qed.

End VerifierStoreFacts.

Lemma storeVerifier_getVerifier_once_witness :
  1005 - 1000 <= VerifierStore.VERIFIER_TTL
  /\ fst (VerifierStore.getVerifier 1005 "state-1"
            (VerifierStore.storeVerifier 1000 1000 "state-1" "verifier-1" ∅))
     = Some "verifier-1"%string.
Proof.
  split; [vm_compute; discriminate|].
  apply (storeVerifier_getVerifier_once 1000 1000 1005 2000
           "state-1" "verifier-1" ∅).
  vm_compute; discriminate.
Defined.

Lemma getVerifier_expired_witness :
  let m : gmap string VerifierStore.Entry :=
    {[ "state-1"%string := VerifierStore.mkEntry "verifier-1" 0 ]} in
  VerifierStore.getVerifier 1800001 "state-1" m = (None, delete "state-1"%string m).
Proof.
  intros m.
  apply (getVerifier_expired 1800001 "state-1"
           (VerifierStore.mkEntry "verifier-1" 0) m).
  - reflexivity.
  - vm_compute; reflexivity.
Defined.

Lemma storeVerifier_sweeps_then_inserts_witness :
  let m : gmap string VerifierStore.Entry :=
    {[ "old"%string := VerifierStore.mkEntry "verifier-0" 0 ]} in
  2000000 <= 2000001
  /\ VerifierStore.storeVerifier 2000000 2000001 "new" "verifier-1" m !! "old"%string
     = None
  /\ (forall k e,
        VerifierStore.storeVerifier 2000000 2000001 "new" "verifier-1" m !! k = Some e ->
        2000000 - VerifierStore.createdAt e <= VerifierStore.VERIFIER_TTL
        /\ VerifierStore.expired 2000000 e = false
        /\ forall now,
             now - VerifierStore.createdAt e
             <= VerifierStore.VERIFIER_TTL + (now - 2000000)).
Proof.
  intros m.
  split; [lia|]. split; [reflexivity|].
  apply (storeVerifier_sweeps_then_inserts 2000000 2000001 "new" "verifier-1" m).
  lia.
Defined.

(** C6 as stated fails.  The store holds an entry stamped at 0.  The sweep
    of a put reads the clock at 1800000, where the age of that entry is
    the TTL and not more, so the entry stays; the new entry is stamped at
    the next reading, 1800001.  The map the put returns still holds the
    old entry, whose age at that reading is above the TTL. *)
Lemma storeVerifier_stale_entry_counterexample :
  VerifierStore.storeVerifier 1800000 1800001 "new" "verifier-1"
    {[ "old"%string := VerifierStore.mkEntry "verifier-0" 0 ]}
  !! "old"%string
  = Some (VerifierStore.mkEntry "verifier-0" 0)
  /\ 1800001 - VerifierStore.createdAt (VerifierStore.mkEntry "verifier-0" 0)
     > VerifierStore.VERIFIER_TTL
  /\ VerifierStore.expired 1800001 (VerifierStore.mkEntry "verifier-0" 0)
     = true
  /\ ~ (forall k e,
          VerifierStore.storeVerifier 1800000 1800001 "new" "verifier-1"
            {[ "old"%string := VerifierStore.mkEntry "verifier-0" 0 ]}
          !! k = Some e ->
          VerifierStore.expired 1800001 e = false).
Proof.
  assert (VerifierStore.storeVerifier 1800000 1800001 "new" "verifier-1"
            {[ "old"%string := VerifierStore.mkEntry "verifier-0" 0 ]}
          !! "old"%string
          = Some (VerifierStore.mkEntry "verifier-0" 0)) as Hold
    by reflexivity.
  split; [exact Hold|]. split; [reflexivity|]. split; [reflexivity|].
  intros Hall. specialize (Hall _ _ Hold). discriminate Hall.
Qed.

(* ===================================================================== *)
(** * More on the verifier store                                          *)
(* ===================================================================== *)

Section VerifierStoreMore.
Import VerifierStore.

Implicit Types (m : gmap string Entry) (e : Entry) (s k v : string).

(** A take touches no state but its own: every other entry, expired or
    not, is still there afterwards, and a take of a state that is not in
    the map changes nothing at all. *)
Theorem getVerifier_frame (now : Z) s m :
  (forall k, k <> s -> snd (getVerifier now s m) !! k = m !! k)
  /\ (m !! s = None -> getVerifier now s m = (None, m)).
Proof.
  split.
  - intros k Hk. unfold getVerifier. destruct (m !! s) as [e|]; [|reflexivity].
    destruct (now - createdAt e >? VERIFIER_TTL); cbn;
      apply lookup_delete_ne; congruence.
  - intros Hs. unfold getVerifier. now rewrite Hs.
Qed.

(** Putting a state again replaces its verifier and restarts its clock:
    the next take gives the later verifier, judged by the later stamp. *)
Theorem storeVerifier_overwrites
    (c1 t1 c2 t2 now : Z) s v1 v2 m :
  now - t2 <= VERIFIER_TTL ->
  getVerifier now s
    (storeVerifier c2 t2 s v2 (storeVerifier c1 t1 s v1 m))
  = (Some v2,
     delete s (storeVerifier c2 t2 s v2 (storeVerifier c1 t1 s v1 m))).
Proof.
  intros Hage. unfold getVerifier, storeVerifier at 1 3.
  rewrite lookup_insert_eq. cbn [createdAt verifier].
  destruct (Z.gtb_spec (now - t2) VERIFIER_TTL); [lia|reflexivity].
Qed.

(** A put keeps what the sweep does not drop: an entry of another state
    that is not older than the TTL at the sweep is found unchanged. *)
Lemma storeVerifier_keeps (now_cleanup now_set : Z) s v k e m :
  k <> s -> m !! k = Some e -> now_cleanup - createdAt e <= VERIFIER_TTL ->
  storeVerifier now_cleanup now_set s v m !! k = Some e.
Proof.
  intros Hk Hm Hage. unfold storeVerifier.
  rewrite lookup_insert_ne by congruence.
  rewrite cleanupExpiredVerifiers_lookup, Hm.
  unfold expired.
  destruct (Z.gtb_spec (now_cleanup - createdAt e) VERIFIER_TTL);
    [lia|reflexivity].
Qed.

(** Two authorizations under way at once do not disturb each other: a
    state put first, then a put of another state, then the take of the
    first while it is within the TTL gives the first verifier, and the
    second is still there to be taken. *)
Theorem storeVerifier_two_flows
    (c1 t1 c2 t2 now now' : Z) s1 v1 s2 v2 m :
  s1 <> s2 ->
  c2 - t1 <= VERIFIER_TTL ->
  now - t1 <= VERIFIER_TTL ->
  now' - t2 <= VERIFIER_TTL ->
  let stored := storeVerifier c2 t2 s2 v2 (storeVerifier c1 t1 s1 v1 m) in
  fst (getVerifier now s1 stored) = Some v1
  /\ fst (getVerifier now' s2 (snd (getVerifier now s1 stored))) = Some v2.
Proof.
  intros Hne Hsweep Hage1 Hage2 stored.
  assert (stored !! s1 = Some (mkEntry v1 t1)) as H1.
  { apply storeVerifier_keeps; [assumption| |assumption].
    unfold storeVerifier. apply lookup_insert_eq. }
  assert (stored !! s2 = Some (mkEntry v2 t2)) as H2.
  { unfold stored, storeVerifier at 1. apply lookup_insert_eq. }
  assert (getVerifier now s1 stored = (Some v1, delete s1 stored)) as Hg.
  { unfold getVerifier. rewrite H1. cbn [createdAt verifier].
    destruct (Z.gtb_spec (now - t1) VERIFIER_TTL); [lia|reflexivity]. }
  rewrite Hg. cbn [fst snd]. split; [reflexivity|].
  unfold getVerifier. rewrite lookup_delete_ne, H2 by assumption.
  cbn [createdAt verifier].
  destruct (Z.gtb_spec (now' - t2) VERIFIER_TTL); [lia|reflexivity].
Qed.

Lemma cleanupExpiredVerifiers_subseteq (now : Z) m :
  cleanupExpiredVerifiers now m ⊆ m.
Proof. rewrite cleanupExpiredVerifiers_filter. apply map_filter_subseteq. Qed.

Lemma cleanupExpiredVerifiers_size (now : Z) m :
  (size (cleanupExpiredVerifiers now m) <= size m)%nat.
Proof. apply map_subseteq_size, cleanupExpiredVerifiers_subseteq. Qed.

(** The sweep only removes: what it leaves is part of what it found, a
    second sweep at the same reading removes nothing more, and nothing it
    leaves is older than the TTL. *)
Theorem cleanupExpiredVerifiers_shrinks (now : Z) m :
  cleanupExpiredVerifiers now m ⊆ m
  /\ cleanupExpiredVerifiers now (cleanupExpiredVerifiers now m)
     = cleanupExpiredVerifiers now m
  /\ (size (cleanupExpiredVerifiers now m) <= size m)%nat
  /\ (forall k e, cleanupExpiredVerifiers now m !! k = Some e ->
        m !! k = Some e /\ now - createdAt e <= VERIFIER_TTL).
Proof.
  split; [apply cleanupExpiredVerifiers_subseteq|]. split; [|split].
  - apply map_eq; intros k. rewrite !cleanupExpiredVerifiers_lookup.
    destruct (m !! k) as [e|]; [|reflexivity].
    destruct (expired now e) eqn:He; [reflexivity|now rewrite He].
  - apply cleanupExpiredVerifiers_size.
  - intros k e. rewrite cleanupExpiredVerifiers_lookup.
    destruct (m !! k) as [e'|]; [|discriminate].
    unfold expired.
    destruct (Z.gtb_spec (now - createdAt e') VERIFIER_TTL); [discriminate|].
    intros Heq; inversion Heq; subst. split; [reflexivity|lia].
Qed.

(** The map grows by at most one entry per put, and an entry a put drops
    was older than the TTL or was the one written over. *)
Theorem storeVerifier_growth (now_cleanup now_set : Z) s v m :
  (size (storeVerifier now_cleanup now_set s v m) <= S (size m))%nat
  /\ (forall k e, m !! k = Some e ->
        storeVerifier now_cleanup now_set s v m !! k = None ->
        k <> s /\ now_cleanup - createdAt e > VERIFIER_TTL).
Proof.
  split.
  - unfold storeVerifier.
    destruct (cleanupExpiredVerifiers now_cleanup m !! s) as [e|] eqn:Hs.
    + rewrite map_size_insert_Some by eauto.
      pose proof (cleanupExpiredVerifiers_size now_cleanup m). lia.
    + rewrite map_size_insert_None by assumption.
      pose proof (cleanupExpiredVerifiers_size now_cleanup m). lia.
  - intros k e Hm Hnone. unfold storeVerifier in Hnone.
    destruct (decide (s = k)) as [->|Hne].
    + rewrite lookup_insert_eq in Hnone. discriminate.
    + rewrite lookup_insert_ne in Hnone by assumption.
      rewrite cleanupExpiredVerifiers_lookup, Hm in Hnone. unfold expired in Hnone.
      destruct (Z.gtb_spec (now_cleanup - createdAt e) VERIFIER_TTL);
        [|discriminate].
      split; [congruence|lia].
Qed.

End VerifierStoreMore.

Lemma storeVerifier_overwrites_witness :
  1500 - 1200 <= VerifierStore.VERIFIER_TTL
  /\ fst (VerifierStore.getVerifier 1500 "state-1"
            (VerifierStore.storeVerifier 1200 1200 "state-1" "verifier-2"
               (VerifierStore.storeVerifier 1000 1000 "state-1" "verifier-1" ∅)))
     = Some "verifier-2"%string.
Proof.
  split; [vm_compute; discriminate|].
  rewrite (storeVerifier_overwrites 1000 1000 1200 1200 1500
             "state-1" "verifier-1" "verifier-2" ∅).
  - reflexivity.
  - vm_compute; discriminate.
Defined.

Lemma storeVerifier_two_flows_witness :
  fst (VerifierStore.getVerifier 2000 "state-1"
         (VerifierStore.storeVerifier 1500 1500 "state-2" "verifier-2"
            (VerifierStore.storeVerifier 1000 1000 "state-1" "verifier-1" ∅)))
  = Some "verifier-1"%string.
Proof.
  apply (storeVerifier_two_flows 1000 1000 1500 1500 2000 2500
           "state-1" "verifier-1" "state-2" "verifier-2" ∅);
    [discriminate | vm_compute; discriminate ..].
Defined.

(* ===================================================================== *)
(** * Properties of the credential store                                  *)
(* ===================================================================== *)

Section CredentialStoreFacts.
Import Js Db Async.
Context {RT : Runtime}.

Lemma getTokens_run (w : World) :
  getTokens w
  = (Returned (current (db w)),
     {| db := db w; incoming := incoming w |}, [EvQuery SELECT_latest]).
Proof.
  unfold getTokens, current, bind, pool_query. cbn.
  destruct (latest (salesforce_tokens (db w))); reflexivity.
Qed.

Lemma latest_map (f : Row -> Row) (rows : list Row) :
  (forall r, row_id (f r) = row_id r) ->
  latest (map f rows) = f <$> latest rows.
Proof.
  intros Hf. induction rows as [|r rows IH]; [reflexivity|].
  cbn [map latest]. rewrite IH.
  destruct (latest rows) as [r'|]; cbn; [|reflexivity].
  rewrite !Hf. destruct (row_id r' <? row_id r); reflexivity.
Qed.

Lemma latest_exists (rows : list Row) (r : Row) :
  latest rows = Some r ->
  existsb (fun r' => row_id r' =? row_id r) rows = true.
Proof.
  revert r. induction rows as [|x rows IH]; intros r H; [discriminate|].
  cbn in *. destruct (latest rows) as [r'|].
  - destruct (row_id r' <? row_id x).
    + inversion H; subst. now rewrite Z.eqb_refl.
    + inversion H; subst. rewrite (IH r eq_refl). apply orb_true_r.
  - inversion H; subst. now rewrite Z.eqb_refl.
Qed.

Lemma has_nul_true (s : string) :
  has_nul s = true <-> In "000"%char (list_ascii_of_string s).
Proof.
  induction s as [|c s IH]; cbn; [split; [discriminate|tauto]|].
  rewrite orb_true_iff, Ascii.eqb_eq, IH. reflexivity.
Qed.

Lemma has_nul_false (s : string) :
  has_nul s = false <-> ~ In "000"%char (list_ascii_of_string s).
Proof.
  rewrite <- has_nul_true. destruct (has_nul s); split; congruence.
Qed.

Lemma int4_true (n : Z) :
  int4 n = true <-> -2147483648 <= n <= 2147483647.
Proof.
  unfold int4, INT4_MIN, INT4_MAX.
  rewrite andb_true_iff, !Z.leb_le. reflexivity.
Qed.

Lemma int4_false (n : Z) :
  int4 n = false <-> n < -2147483648 \/ 2147483647 < n.
Proof.
  unfold int4, INT4_MIN, INT4_MAX.
  destruct (Z.leb_spec (-2147483648) n), (Z.leb_spec n 2147483647); cbn;
    split; intros Hn; try discriminate; try reflexivity; lia.
Qed.

Lemma bind_text_cases (v : JsValue) :
  (prepareValue v = None /\ bind_text v = inr None)
  \/ (exists s, stored_as v s /\ bind_text v = inr (Some s))
  \/ (exists s reason,
        prepareValue v = Some s /\ has_nul s = true
        /\ bind_text v = inl (DatabaseError reason)).
Proof.
  unfold bind_text, stored_as. destruct (prepareValue v) as [s|]; [|now left].
  destruct (has_nul s) eqn:Hs; right; [right|left]; eauto 6.
Qed.

Lemma stored_as_string (s : string) :
  has_nul s = false -> stored_as (JStr s) s.
Proof. intros H. split; [reflexivity|exact H]. Qed.

Lemma stored_as_unique (v : JsValue) (s s' : string) :
  stored_as v s -> stored_as v s' -> s = s'.
Proof. intros [H _] [H' _]. congruence. Qed.

(** The two ways a replace can end. *)
Lemma storeTokens_cases (a r u : JsValue) (w : World) :
  (exists a' r' u',
     insert_accepted a r u (db w) a' r' u'
     /\ storeTokens a r u w
        = (Returned (salesforce_tokens_id_seq (db w)),
           {| db := {| salesforce_tokens := [inserted_row (db w) a' r' u'];
                       salesforce_tokens_id_seq :=
                         salesforce_tokens_id_seq (db w) + 1;
                       current_timestamp := current_timestamp (db w) |};
              incoming := incoming w |},
           [EvQuery DELETE_all; EvQuery (INSERT_returning_id a r u)]))
  \/ (exists reason d',
        storeTokens a r u w
        = (Thrown (DatabaseError reason),
           {| db := d'; incoming := incoming w |},
           [EvQuery DELETE_all; EvQuery (INSERT_returning_id a r u)])
        /\ salesforce_tokens d' = []
        /\ current_timestamp d' = current_timestamp (db w)
        /\ salesforce_tokens_id_seq (db w) <= salesforce_tokens_id_seq d'
           <= salesforce_tokens_id_seq (db w) + 1
        /\ ~ exists a' r' u', insert_accepted a r u (db w) a' r' u').
Proof.
  unfold storeTokens, bind, pool_query, insert_accepted, inserted_row.
  cbn [execute db incoming salesforce_tokens salesforce_tokens_id_seq
       current_timestamp].
  destruct (bind_text_cases a)
    as [[Ha Hba]|[(a' & Ha & Hba)|(a' & ea & Ha & Hna & Hba)]];
  destruct (bind_text_cases r)
    as [[Hr Hbr]|[(r' & Hr & Hbr)|(r' & er & Hr & Hnr & Hbr)]];
  destruct (bind_text_cases u)
    as [[Hu Hbu]|[(u' & Hu & Hbu)|(u' & eu & Hu & Hnu & Hbu)]];
  rewrite ?Hba, ?Hbr, ?Hbu;
  try destruct (Z.ltb_spec INT4_MAX (salesforce_tokens_id_seq (db w)))
    as [Hseq|Hseq];
  cbn [fst snd app db incoming salesforce_tokens salesforce_tokens_id_seq
       current_timestamp];
  try (left; exists a', r', u'; split; [|reflexivity];
       repeat split; solve [apply Ha | apply Hr | apply Hu | exact Hseq]);
  right; eexists _, _; (split; [reflexivity|]);
  cbn [salesforce_tokens salesforce_tokens_id_seq current_timestamp];
  (split; [reflexivity|]); (split; [reflexivity|]); (split; [lia|]);
  intros (x & y & z & [Hx Hx'] & [Hy Hy'] & [Hz Hz'] & Hle);
  try lia; congruence.
Qed.

(** A completed replace leaves one row, built from its arguments. *)
Lemma storeTokens_completed (a r u : JsValue) (w w' : World) (i : Z)
    (t : list Event) :
  storeTokens a r u w = (Returned i, w', t) ->
  exists row,
    salesforce_tokens (db w') = [row]
    /\ row_id row = i
    /\ prepareValue a = Some (access_token row)
    /\ prepareValue r = Some (refresh_token row)
    /\ prepareValue u = Some (instance_url row)
    /\ current (db w') = Some (tokens_of_row row).
Proof.
  destruct (storeTokens_cases a r u w)
    as [(a' & r' & u' & ([Ha _] & [Hr _] & [Hu _] & _) & ->)
       |(reason & d' & -> & _)]; intros H; inversion H; subst; clear H.
  eexists; cbn; repeat split; assumption.
Qed.

(** A replace that does not complete leaves no row. *)
Lemma storeTokens_thrown (a r u : JsValue) (w w' : World) (e : JsError)
    (t : list Event) :
  storeTokens a r u w = (Thrown e, w', t) ->
  salesforce_tokens (db w') = [].
Proof.
  destruct (storeTokens_cases a r u w)
    as [(a' & r' & u' & _ & ->)|(reason & d' & -> & Hrows & _)];
    intros H; inversion H; subst; clear H. exact Hrows.
Qed.

(** However a replace ends, it never leaves more than one row. *)
Lemma storeTokens_at_most_one (a r u : JsValue) (w w' : World)
    (o : Outcome Z) (t : list Event) :
  storeTokens a r u w = (o, w', t) ->
  (length (salesforce_tokens (db w')) <= 1)%nat.
Proof.
  destruct (storeTokens_cases a r u w)
    as [(a' & r' & u' & _ & ->)|(reason & d' & -> & Hrows & _)];
    intros H; inversion H; subst; clear H; cbn; [lia|].
  rewrite Hrows. cbn. lia.
Qed.

(** Called with texts the server can read and a sequence that has not run
    out, a replace completes and the one row holds the three strings. *)
Lemma storeTokens_strings (a r u : string) (w : World) :
  has_nul a = false -> has_nul r = false -> has_nul u = false ->
  salesforce_tokens_id_seq (db w) <= INT4_MAX ->
  storeTokens (JStr a) (JStr r) (JStr u) w
  = (Returned (salesforce_tokens_id_seq (db w)),
     {| db := {| salesforce_tokens := [inserted_row (db w) a r u];
                 salesforce_tokens_id_seq :=
                   salesforce_tokens_id_seq (db w) + 1;
                 current_timestamp := current_timestamp (db w) |};
        incoming := incoming w |},
     [EvQuery DELETE_all;
      EvQuery (INSERT_returning_id (JStr a) (JStr r) (JStr u))]).
Proof.
  intros Ha Hr Hu Hseq.
  destruct (storeTokens_cases (JStr a) (JStr r) (JStr u) w)
    as [(a' & r' & u' & ([Ha' _] & [Hr' _] & [Hu' _] & _) & ->)
       |(reason & d' & _ & _ & _ & _ & Hno)].
  - cbn in Ha', Hr', Hu'. congruence.
  - exfalso. apply Hno. exists a, r, u.
    repeat split; assumption.
Qed.

(** C7, as the code has it.  After any replace the table holds at most one
    row, and exactly one when the replace completed.  A second replace
    that is given three strings without U+0000, while the id sequence has
    not run out, completes: the table then holds exactly one row, whose
    access token, refresh token and instance URL are the three strings and
    whose id is the one returned, and that row is the credential read
    afterwards.  A second replace that does not complete leaves no row:
    its deletion is not undone.  That is how it ends when one of the
    strings holds U+0000, when the sequence has passed 2147483647, or
    when an argument is null or undefined. *)
Theorem storeTokens_twice_one_row
    (a1 r1 u1 : JsValue) (w w1 : World) (o1 : Outcome Z) (t1 : list Event) :
  storeTokens a1 r1 u1 w = (o1, w1, t1) ->
  (forall a2 r2 u2 : string,
     ~ In "000"%char (list_ascii_of_string a2) ->
     ~ In "000"%char (list_ascii_of_string r2) ->
     ~ In "000"%char (list_ascii_of_string u2) ->
     salesforce_tokens_id_seq (db w1) <= 2147483647 ->
     exists w2,
       storeTokens (JStr a2) (JStr r2) (JStr u2) w1
       = (Returned (salesforce_tokens_id_seq (db w1)), w2,
          [EvQuery DELETE_all;
           EvQuery (INSERT_returning_id (JStr a2) (JStr r2) (JStr u2))])
       /\ salesforce_tokens (db w2)
          = [{| row_id := salesforce_tokens_id_seq (db w1);
                access_token := a2; refresh_token := r2; instance_url := u2;
                created_at := current_timestamp (db w1);
                updated_at := current_timestamp (db w1) |}]
       /\ fst (fst (getTokens w2))
          = Returned (Some {| accessToken := a2; refreshToken := r2;
                              instanceUrl := u2;
                              id := salesforce_tokens_id_seq (db w1) |}))
  /\ (forall (a2 r2 u2 : JsValue) (o2 : Outcome Z) (w2 : World)
        (t2 : list Event),
        storeTokens a2 r2 u2 w1 = (o2, w2, t2) ->
        (forall i2, o2 = Returned i2 ->
           exists row, salesforce_tokens (db w2) = [row] /\ row_id row = i2)
        /\ (forall e, o2 = Thrown e -> salesforce_tokens (db w2) = []))
  /\ (length (salesforce_tokens (db w1)) <= 1)%nat
  /\ (forall i1, o1 = Returned i1 ->
        length (salesforce_tokens (db w1)) = 1%nat)
  /\ (forall a2 r2 u2 : string,
        In "000"%char (list_ascii_of_string a2)
        \/ In "000"%char (list_ascii_of_string r2)
        \/ In "000"%char (list_ascii_of_string u2)
        \/ 2147483647 < salesforce_tokens_id_seq (db w1) ->
        exists reason w2,
          storeTokens (JStr a2) (JStr r2) (JStr u2) w1
          = (Thrown (DatabaseError reason), w2,
             [EvQuery DELETE_all;
              EvQuery (INSERT_returning_id (JStr a2) (JStr r2) (JStr u2))])
          /\ salesforce_tokens (db w2) = [])
  /\ (forall a2 r2 u2 : JsValue,
        a2 = JUndefined \/ a2 = JNull \/ r2 = JUndefined \/ r2 = JNull
        \/ u2 = JUndefined \/ u2 = JNull ->
        exists reason w2,
          storeTokens a2 r2 u2 w1
          = (Thrown (DatabaseError reason), w2,
             [EvQuery DELETE_all; EvQuery (INSERT_returning_id a2 r2 u2)])
          /\ salesforce_tokens (db w2) = []).
Proof.
  intros H1. split; [|split; [|split; [|split; [|split]]]].
  5:{ intros a2 r2 u2 Hbad.
      destruct (storeTokens_cases (JStr a2) (JStr r2) (JStr u2) w1)
        as [(a' & r' & u' & ([Ha Hna] & [Hr Hnr] & [Hu Hnu] & Hseq) & _)
           |(reason & d' & -> & Hrows & _)].
      - cbn in Ha, Hr, Hu. inversion Ha; inversion Hr; inversion Hu; subst.
        apply has_nul_false in Hna, Hnr, Hnu. unfold INT4_MAX in Hseq.
        destruct Hbad as [Hbad|[Hbad|[Hbad|Hbad]]]; [tauto..|lia].
      - eexists _, _. split; [reflexivity|exact Hrows]. }
  5:{ intros a2 r2 u2 Hbad.
      destruct (storeTokens_cases a2 r2 u2 w1)
        as [(a' & r' & u' & ([Ha _] & [Hr _] & [Hu _] & _) & _)
           |(reason & d' & -> & Hrows & _)].
      - destruct Hbad as [-> | [-> | [-> | [-> | [-> | ->]]]]]; discriminate.
      - eexists _, _. split; [reflexivity|exact Hrows]. }
  - intros a2 r2 u2 Ha Hr Hu Hseq. apply has_nul_false in Ha, Hr, Hu.
    rewrite (storeTokens_strings a2 r2 u2 w1 Ha Hr Hu Hseq).
    eexists. split; [reflexivity|]. split; reflexivity.
  - intros a2 r2 u2 o2 w2 t2 H2. split.
    + intros i2 ->. apply storeTokens_completed in H2 as (row & Hrow & Hid & _).
      exists row. split; assumption.
    + intros e ->. apply storeTokens_thrown in H2. exact H2.
  - apply storeTokens_at_most_one in H1. exact H1.
  - intros i1 ->. apply storeTokens_completed in H1 as (row & -> & _).
    reflexivity.
Qed.

(** What the update statement answers, case by case. *)
Lemma execute_update_cases (v : JsValue) (i : Z) (d : Database) :
  (exists s,
     stored_as v s /\ int4 i = true
     /\ existsb (fun r => row_id r =? i) (salesforce_tokens d) = true
     /\ execute (UPDATE_access_token v i) d
        = (inr [],
           {| salesforce_tokens :=
                map (updated_row i s (current_timestamp d))
                    (salesforce_tokens d);
              salesforce_tokens_id_seq := salesforce_tokens_id_seq d;
              current_timestamp := current_timestamp d |}))
  \/ (int4 i = true
      /\ existsb (fun r => row_id r =? i) (salesforce_tokens d) = false
      /\ (prepareValue v = None \/ exists s, stored_as v s)
      /\ execute (UPDATE_access_token v i) d = (inr [], d))
  \/ (exists reason,
        execute (UPDATE_access_token v i) d = (inl (DatabaseError reason), d)
        /\ ((exists s, prepareValue v = Some s /\ has_nul s = true)
            \/ int4 i = false
            \/ (prepareValue v = None
                /\ existsb (fun r => row_id r =? i) (salesforce_tokens d)
                   = true))).
Proof.
  cbn [execute]. unfold bind_int4.
  destruct (bind_text_cases v)
    as [[Hv ->]|[(s & Hs & ->)|(s & e & Hv & Hn & ->)]];
    destruct (int4 i) eqn:Hi;
    try destruct (existsb _ _) eqn:Hex.
  - right; right. eexists. split; [reflexivity|]. right; right. now split.
  - right; left. repeat split; try assumption. now left.
  - right; right. eexists. split; [reflexivity|]. right; now left.
  - right; right. eexists. split; [reflexivity|]. right; now left.
  - left. exists s. repeat split; solve [apply Hs|assumption].
  - right; left. repeat split; try assumption. right. now exists s.
  - right; right. eexists. split; [reflexivity|]. right; now left.
  - right; right. eexists. split; [reflexivity|]. right; now left.
  - right; right. eexists. split; [reflexivity|]. left. now exists s.
  - right; right. eexists. split; [reflexivity|]. left. now exists s.
  - right; right. eexists. split; [reflexivity|]. left. now exists s.
  - right; right. eexists. split; [reflexivity|]. left. now exists s.
Qed.

Lemma updateAccessToken_run (i : Z) (v : JsValue) (w : World) :
  updateAccessToken i v w
  = (match fst (execute (UPDATE_access_token v i) (db w)) with
     | inl e => Thrown e
     | inr _ => Returned tt
     end,
     {| db := snd (execute (UPDATE_access_token v i) (db w));
        incoming := incoming w |},
     [EvQuery (UPDATE_access_token v i)]).
Proof.
  unfold updateAccessToken, bind, pool_query.
  destruct (execute _ _) as [[e|rows] d]; reflexivity.
Qed.

Lemma updated_row_none (i : Z) (s : string) (now : Z) (rows : list Row) :
  existsb (fun r => row_id r =? i) rows = false ->
  map (updated_row i s now) rows = rows.
Proof.
  induction rows as [|r rows IH]; [reflexivity|]. cbn.
  intros H. apply orb_false_iff in H as [Hr Hrows].
  unfold updated_row at 1. rewrite Hr, (IH Hrows). reflexivity.
Qed.

(** C8. [updateAccessToken id s] touches nothing but the access token and
    the [updated_at] of the rows whose id is [id].  When the server takes
    its parameters (a text without U+0000, an id within 32 bits: from
    -2147483648 to 2147483647) it returns, and has rewritten the table row
    by row: a row whose id is [id] gets [s] as access token and the server
    time as [updated_at]; its id, refresh token, instance URL and creation
    time stay; every other row is untouched.  Otherwise it throws and the
    database is as it was.
    The sequence, the clock and the pending responses are untouched in
    either case. *)
Theorem updateAccessToken_frame (id0 : Z) (newAccessToken : string) (w : World) :
  exists o w',
    updateAccessToken id0 (JStr newAccessToken) w
    = (o, w', [EvQuery (UPDATE_access_token (JStr newAccessToken) id0)])
    /\ ((o = Returned tt
         /\ ~ In "000"%char (list_ascii_of_string newAccessToken)
         /\ -2147483648 <= id0 <= 2147483647
         /\ salesforce_tokens (db w')
            = map (updated_row id0 newAccessToken (current_timestamp (db w)))
                (salesforce_tokens (db w)))
        \/ (exists reason,
              o = Thrown (DatabaseError reason)
              /\ (In "000"%char (list_ascii_of_string newAccessToken)
                  \/ id0 < -2147483648 \/ 2147483647 < id0)
              /\ db w' = db w))
    /\ salesforce_tokens_id_seq (db w') = salesforce_tokens_id_seq (db w)
    /\ current_timestamp (db w') = current_timestamp (db w)
    /\ incoming w' = incoming w
    /\ (forall (n : nat) (r : Row),
          salesforce_tokens (db w) !! n = Some r ->
          exists r',
            salesforce_tokens (db w') !! n = Some r'
            /\ row_id r' = row_id r
            /\ refresh_token r' = refresh_token r
            /\ instance_url r' = instance_url r
            /\ created_at r' = created_at r
            /\ (row_id r = id0 -> o = Returned tt ->
                  access_token r' = newAccessToken
                  /\ updated_at r' = current_timestamp (db w))
            /\ (row_id r <> id0 -> r' = r)).
Proof.
  assert (forall rows' (n : nat) (r : Row),
            rows' = map (updated_row id0 newAccessToken (current_timestamp (db w)))
                      (salesforce_tokens (db w)) ->
            salesforce_tokens (db w) !! n = Some r ->
            exists r', rows' !! n = Some r'
              /\ row_id r' = row_id r /\ refresh_token r' = refresh_token r
              /\ instance_url r' = instance_url r /\ created_at r' = created_at r
              /\ (row_id r = id0 -> Returned tt = Returned tt :> Outcome unit ->
                    access_token r' = newAccessToken
                    /\ updated_at r' = current_timestamp (db w))
              /\ (row_id r <> id0 -> r' = r)) as Hrows.
  { intros rows' n r -> Hn.
    exists (updated_row id0 newAccessToken (current_timestamp (db w)) r).
    split; [rewrite list_lookup_fmap, Hn; reflexivity|].
    unfold updated_row. destruct (Z.eqb_spec (row_id r) id0); cbn;
      repeat split; try reflexivity; intros; congruence. }
  rewrite updateAccessToken_run.
  destruct (execute_update_cases (JStr newAccessToken) id0 (db w))
    as [(s & [Hs Hnul] & Hi & Hex & ->)
       |[(Hi & Hex & Hv & ->)
        |(reason & -> & Hwhy)]];
    cbn [fst snd].
  - cbn in Hs. inversion Hs; subst s; clear Hs.
    apply has_nul_false in Hnul. apply int4_true in Hi.
    eexists _, _. split; [reflexivity|].
    cbn [db incoming salesforce_tokens salesforce_tokens_id_seq
         current_timestamp].
    split; [left; repeat split; solve [assumption|apply Hi]|].
    repeat (split; [reflexivity|]).
    intros n r. apply Hrows. reflexivity.
  - destruct Hv as [Hv|(s & Hs & Hnul)]; [discriminate|].
    cbn in Hs. inversion Hs; subst s; clear Hs.
    apply has_nul_false in Hnul. apply int4_true in Hi.
    eexists _, _. split; [reflexivity|].
    cbn [db incoming].
    split; [left; repeat split; try assumption; try apply Hi;
            now rewrite (updated_row_none _ _ _ _ Hex)|].
    repeat (split; [reflexivity|]).
    intros n r. apply Hrows. now rewrite (updated_row_none _ _ _ _ Hex).
  - eexists _, _. split; [reflexivity|]. cbn [db incoming].
    split.
    { right. exists reason. split; [reflexivity|]. split; [|reflexivity].
      destruct Hwhy as [(s & Hs & Hnul)|[Hi|[Hv _]]];
        [cbn in Hs; inversion Hs; subst; left; now apply has_nul_true
        |right; now apply int4_false|discriminate]. }
    repeat (split; [reflexivity|]).
    intros n r Hn. exists r. split; [exact Hn|].
    repeat (split; [reflexivity|]).
    split; [intros _ Ho; discriminate|reflexivity].
Qed.

End CredentialStoreFacts.

(* ===================================================================== *)
(** * More on the credential store                                        *)
(* ===================================================================== *)

Section CredentialStoreMore.
Import Js Db Async.
Context {RT : Runtime}.

Lemma updated_row_id (i : Z) (s : string) (now : Z) (r : Row) :
  row_id (updated_row i s now r) = row_id r.
Proof. unfold updated_row. destruct (row_id r =? i); reflexivity. Qed.

Lemma db_wf_updated (d d' : Database) (i : Z) (s : string) (now : Z) :
  db_wf d ->
  salesforce_tokens d' = map (updated_row i s now) (salesforce_tokens d) ->
  salesforce_tokens_id_seq d' = salesforce_tokens_id_seq d ->
  db_wf d'.
Proof.
  intros [Hnd Hlt] Hrows Hseq. unfold db_wf. rewrite Hrows, Hseq. split.
  - rewrite map_map.
    rewrite (map_ext _ row_id (updated_row_id i s now)). exact Hnd.
  - apply Forall_map. eapply Forall_impl; [exact Hlt|].
    intros r Hr. cbn. now rewrite updated_row_id.
Qed.

(** Every statement keeps the ids unique and below the sequence. *)
Lemma execute_wf (st : Statement) (d : Database) :
  db_wf d -> db_wf (snd (execute st d)).
Proof.
  intros Hwf. pose proof Hwf as [Hnd Hlt]. destruct st as [|a r u| |v i].
  - split; cbn; constructor.
  - cbn [execute]. destruct (bind_text a) as [ea|a']; [exact Hwf|].
    destruct (bind_text r) as [er|r']; [destruct a'; exact Hwf|].
    destruct (bind_text u) as [eu|u']; [destruct a', r'; exact Hwf|].
    destruct (INT4_MAX <? salesforce_tokens_id_seq d); [exact Hwf|].
    destruct a' as [a'|], r' as [r'|], u' as [u'|];
      cbn [snd];
      try (split; cbn [salesforce_tokens salesforce_tokens_id_seq];
           [exact Hnd|];
           eapply Forall_impl; [exact Hlt|]; cbn beta; intros; lia).
    split; cbn [salesforce_tokens salesforce_tokens_id_seq].
    + rewrite map_app. cbn [map row_id]. apply NoDup_app. split; [exact Hnd|].
      split; [|repeat constructor; intros Hin; inversion Hin].
      intros x Hx Hx'. apply list_elem_of_singleton in Hx'. subst x.
      apply list_elem_of_fmap in Hx as (r0 & Heq & Hr0).
      rewrite Forall_forall in Hlt. specialize (Hlt r0 Hr0). lia.
    + apply Forall_app. split.
      * eapply Forall_impl; [exact Hlt|]. cbn beta; intros; lia.
      * repeat constructor. cbn [row_id]. lia.
  - exact Hwf.
  - destruct (execute_update_cases v i d)
      as [(s & _ & _ & _ & ->)|[(_ & _ & _ & ->)|(reason & -> & _)]];
      cbn [snd]; try exact Hwf.
    eapply db_wf_updated; [exact Hwf|reflexivity..].
Qed.

Lemma getTokens_run' (w : World) :
  fst (fst (getTokens w)) = Returned (current (db w)).
Proof. now rewrite getTokens_run. Qed.

Lemma pool_query_db (st : Statement) (w w' : World) (o : Outcome (list Row))
    (t : list Event) :
  pool_query st w = (o, w', t) ->
  db w' = snd (execute st (db w)) /\ incoming w' = incoming w.
Proof.
  unfold pool_query. destruct (execute st (db w)) as [[e|rows] d];
    intros H; inversion H; subst; split; reflexivity.
Qed.

(** A replace whose argument is missing (undefined or null, as when the
    provider grants no refresh token) is rejected by the database after
    the deletion went through - by the NOT NULL column, when nothing else
    is wrong with the insert: the call throws, the table is empty and the
    credential that was stored before is gone. *)
Theorem storeTokens_rejected_empties (a r u : JsValue) (w : World) :
  prepareValue a = None \/ prepareValue r = None \/ prepareValue u = None ->
  exists w' reason,
    storeTokens a r u w
    = (Thrown (DatabaseError reason), w',
       [EvQuery DELETE_all; EvQuery (INSERT_returning_id a r u)])
    /\ salesforce_tokens (db w') = []
    /\ current (db w') = None
    /\ fst (fst (getTokens w')) = Returned None.
Proof.
  intros Hnull.
  destruct (storeTokens_cases a r u w)
    as [(a' & r' & u' & ([Ha _] & [Hr _] & [Hu _] & _) & _)
       |(reason & d' & -> & Hrows & _)].
  - destruct Hnull as [H|[H|H]]; congruence.
  - eexists _, reason. split; [reflexivity|]. rewrite getTokens_run.
    unfold current. cbn [db fst]. rewrite Hrows. repeat split.
Qed.

(** A disconnect always succeeds and leaves no credential, whatever the
    table held; doing it again changes nothing more.  The id sequence is
    not reset by it. *)
Theorem deleteTokens_clears (w : World) :
  exists w',
    deleteTokens w = (Returned tt, w', [EvQuery DELETE_all])
    /\ salesforce_tokens (db w') = []
    /\ fst (fst (getTokens w')) = Returned None
    /\ salesforce_tokens_id_seq (db w') = salesforce_tokens_id_seq (db w)
    /\ incoming w' = incoming w
    /\ db (snd (fst (deleteTokens w'))) = db w'.
Proof.
  unfold deleteTokens, bind, pool_query. cbn.
  eexists. repeat split.
Qed.

(** A completed replace hands out the present value of the sequence as id,
    which is above the id of every row the table held, and moves the
    sequence on: no id is given twice, not even after a disconnect. *)
Theorem storeTokens_fresh_id (a r u : JsValue) (w w' : World) (i : Z)
    (t : list Event) :
  db_wf (db w) ->
  storeTokens a r u w = (Returned i, w', t) ->
  i = salesforce_tokens_id_seq (db w)
  /\ (forall row, row ∈ salesforce_tokens (db w) -> row_id row < i)
  /\ salesforce_tokens_id_seq (db w') = i + 1
  /\ db_wf (db w').
Proof.
  intros [Hnd Hlt].
  destruct (storeTokens_cases a r u w)
    as [(a' & r' & u' & _ & ->)|(reason & d' & -> & _)];
    intros H; inversion H; subst; clear H.
  cbn [db salesforce_tokens_id_seq].
  split; [reflexivity|]. split; [|split; [reflexivity|]].
  - intros row Hrow. rewrite Forall_forall in Hlt. apply Hlt, Hrow.
  - split; cbn; [apply NoDup_singleton|].
    repeat constructor. cbn. lia.
Qed.

(** The four operations of the store keep the ids unique and below the
    sequence, however they end. *)
Lemma db_wf_preserved (w w' : World) :
  db_wf (db w) ->
  (forall a r u o t, storeTokens a r u w = (o, w', t) -> db_wf (db w'))
  /\ (forall o t, getTokens w = (o, w', t) -> db_wf (db w'))
  /\ (forall i v o t, updateAccessToken i v w = (o, w', t) -> db_wf (db w'))
  /\ (forall o t, deleteTokens w = (o, w', t) -> db_wf (db w')).
Proof.
  intros Hwf. split; [|split; [|split]].
  - intros a r u o t. unfold storeTokens. unfold bind at 1.
    destruct (pool_query DELETE_all w) as [[o1 w1] t1] eqn:H1.
    pose proof (pool_query_db _ _ _ _ _ H1) as [Hdb1 _].
    assert (db_wf (db w1)) as Hwf1 by (rewrite Hdb1; apply execute_wf, Hwf).
    destruct o1 as [rows1|e]; [|intros H; inversion H; subst; exact Hwf1].
    unfold bind at 1.
    destruct (pool_query _ w1) as [[o2 w2] t2] eqn:H2.
    pose proof (pool_query_db _ _ _ _ _ H2) as [Hdb2 _].
    assert (db_wf (db w2)) as Hwf2 by (rewrite Hdb2; apply execute_wf, Hwf1).
    destruct o2 as [[|row rows2]|e]; cbn; intros H; inversion H; subst;
      exact Hwf2.
  - intros o t. rewrite getTokens_run. intros H; inversion H; subst. exact Hwf.
  - intros i v o t. unfold updateAccessToken. unfold bind at 1.
    destruct (pool_query _ w) as [[o1 w1] t1] eqn:H1.
    pose proof (pool_query_db _ _ _ _ _ H1) as [Hdb1 _].
    assert (db_wf (db w1)) as Hwf1 by (rewrite Hdb1; apply execute_wf, Hwf).
    destruct o1; cbn; intros H; inversion H; subst; exact Hwf1.
  - intros o t. unfold deleteTokens. unfold bind at 1.
    destruct (pool_query _ w) as [[o1 w1] t1] eqn:H1.
    pose proof (pool_query_db _ _ _ _ _ H1) as [Hdb1 _].
    assert (db_wf (db w1)) as Hwf1 by (rewrite Hdb1; apply execute_wf, Hwf).
    destruct o1; cbn; intros H; inversion H; subst; exact Hwf1.
Qed.

(** An update aimed at an id that no row has changes nothing.  It returns
    normally when the server can read its parameters: an id within 32 bits
    (-2147483648 to 2147483647) and a value that is null, undefined or a
    text without U+0000.  It
    throws when the id is outside 32 bits or the text holds U+0000.  Aimed
    at a stored row with a null or undefined value it is rejected and
    changes nothing either. *)
Theorem updateAccessToken_no_effect (i : Z) (v : JsValue) (w : World) :
  (existsb (fun r => row_id r =? i) (salesforce_tokens (db w)) = false ->
     exists o w',
       updateAccessToken i v w = (o, w', [EvQuery (UPDATE_access_token v i)])
       /\ db w' = db w /\ incoming w' = incoming w
       /\ (-2147483648 <= i <= 2147483647 ->
             (forall s, prepareValue v = Some s ->
                ~ In "000"%char (list_ascii_of_string s)) ->
             o = Returned tt)
       /\ (i < -2147483648 \/ 2147483647 < i ->
             exists reason, o = Thrown (DatabaseError reason))
       /\ (forall s, prepareValue v = Some s ->
             In "000"%char (list_ascii_of_string s) ->
             exists reason, o = Thrown (DatabaseError reason)))
  /\ (existsb (fun r => row_id r =? i) (salesforce_tokens (db w)) = true ->
      prepareValue v = None ->
      exists w' reason,
        updateAccessToken i v w
        = (Thrown (DatabaseError reason), w',
           [EvQuery (UPDATE_access_token v i)])
        /\ db w' = db w).
Proof.
  split.
  - intros Hex. rewrite updateAccessToken_run.
    destruct (execute_update_cases v i (db w))
      as [(s & _ & _ & Hex' & _)
         |[(Hi & _ & Hv & ->)|(reason & -> & Hwhy)]];
      [congruence| |]; cbn [fst snd];
      eexists _, _; (split; [reflexivity|]); cbn [db incoming];
      (split; [reflexivity|]); (split; [reflexivity|]).
    + split; [reflexivity|]. split.
      * intros Hout. apply int4_false in Hout. congruence.
      * intros s Hs Hnul. apply has_nul_true in Hnul.
        destruct Hv as [Hv|(s' & [Hs' Hnul'])]; congruence.
    + split; [|split; eauto].
      intros Hi Hok. apply int4_true in Hi.
      destruct Hwhy as [(s & Hs & Hnul)|[Hi'|[_ Hex']]]; [|congruence..].
      apply has_nul_true in Hnul. destruct (Hok s Hs Hnul).
  - intros Hex Hnull. rewrite updateAccessToken_run.
    destruct (execute_update_cases v i (db w))
      as [(s & [Hs _] & _)|[(_ & Hex' & _)|(reason & -> & _)]];
      [congruence..|].
    cbn [fst snd]. eexists _, reason. split; reflexivity.
Qed.

Lemma latest_spec (rows : list Row) :
  match latest rows with
  | None => rows = []
  | Some r => r ∈ rows /\ forall r', r' ∈ rows -> row_id r' <= row_id r
  end.
Proof.
  induction rows as [|x rows IH]; [reflexivity|]. cbn.
  destruct (latest rows) as [r|].
  - destruct IH as [Hin Hmax].
    destruct (Z.ltb_spec (row_id r) (row_id x)).
    + split; [apply list_elem_of_here|].
      intros r' Hr'. apply elem_of_cons in Hr' as [->|Hr']; [lia|].
      specialize (Hmax r' Hr'). lia.
    + split; [apply list_elem_of_further, Hin|].
      intros r' Hr'. apply elem_of_cons in Hr' as [->|Hr']; [lia|].
      apply Hmax, Hr'.
  - subst rows. split; [apply list_elem_of_here|].
    intros r' Hr'. apply elem_of_cons in Hr' as [->|Hr']; [lia|].
    inversion Hr'.
Qed.

(** Reading the credential changes nothing, finds none exactly when the
    table is empty, and otherwise gives the fields of a stored row whose
    id no other row exceeds: the row created last. *)
Theorem getTokens_latest (w : World) :
  exists w',
    getTokens w = (Returned (current (db w)), w', [EvQuery SELECT_latest])
    /\ db w' = db w /\ incoming w' = incoming w
    /\ (current (db w) = None <-> salesforce_tokens (db w) = [])
    /\ (forall tok, current (db w) = Some tok ->
          (exists r, r ∈ salesforce_tokens (db w) /\ tok = tokens_of_row r)
          /\ (forall r, r ∈ salesforce_tokens (db w) -> row_id r <= id tok)).
Proof.
  rewrite getTokens_run. eexists. split; [reflexivity|]. cbn.
  split; [reflexivity|]. split; [reflexivity|].
  unfold current. pose proof (latest_spec (salesforce_tokens (db w))) as Hl.
  destruct (latest (salesforce_tokens (db w))) as [r|]; cbn.
  - destruct Hl as [Hin Hmax]. split.
    + split; [discriminate|]. intros Hnil. rewrite Hnil in Hin. inversion Hin.
    + intros tok Heq; inversion Heq; subst. split; [eauto|exact Hmax].
  - split; [tauto|]. intros; discriminate.
Qed.

(** "At most one credential" holds across the store: a table with at most
    one row still has at most one after any of the four operations,
    however the operation ends (a replace even brings any table down to at
    most one row). *)
Lemma at_most_one_credential_preserved (w w' : World) :
  (forall a r u o t, storeTokens a r u w = (o, w', t) ->
     (length (salesforce_tokens (db w')) <= 1)%nat)
  /\ ((length (salesforce_tokens (db w)) <= 1)%nat ->
      (forall o t, getTokens w = (o, w', t) ->
         (length (salesforce_tokens (db w')) <= 1)%nat)
      /\ (forall i v o t, updateAccessToken i v w = (o, w', t) ->
            (length (salesforce_tokens (db w')) <= 1)%nat)
      /\ (forall o t, deleteTokens w = (o, w', t) ->
            (length (salesforce_tokens (db w')) <= 1)%nat)).
Proof.
  split; [|intros Hone; split; [|split]].
  - intros a r u o t. apply storeTokens_at_most_one.
  - intros o t. rewrite getTokens_run. intros H; inversion H; subst.
    exact Hone.
  - intros i v o t. rewrite updateAccessToken_run.
    destruct (execute_update_cases v i (db w))
      as [(s & _ & _ & _ & ->)|[(_ & _ & _ & ->)|(reason & -> & _)]];
      cbn [fst snd]; intros H; inversion H; subst; cbn [db salesforce_tokens];
      rewrite ?length_map; exact Hone.
  - intros o t. unfold deleteTokens, bind, pool_query. cbn.
    intros H; inversion H; subst; cbn. lia.
Qed.

End CredentialStoreMore.

(* ===================================================================== *)
(** * Properties of the token refresher                                   *)
(* ===================================================================== *)

Section TokenRefresherFacts.
Import Js Db Async.
Context {RT : Runtime}.

Lemma current_after_update (d : Database) (tok : Tokens) (s : string)
    (seq now now' : Z) :
  current d = Some tok ->
  current {| salesforce_tokens :=
               map (updated_row (id tok) s now) (salesforce_tokens d);
             salesforce_tokens_id_seq := seq;
             current_timestamp := now' |}
  = Some {| accessToken := s; refreshToken := refreshToken tok;
            instanceUrl := instanceUrl tok; id := id tok |}.
Proof.
  unfold current. cbn [salesforce_tokens].
  destruct (latest (salesforce_tokens d)) as [r|] eqn:Hr; [|discriminate].
  cbn. intros H; inversion H; subst; clear H.
  rewrite latest_map.
  - rewrite Hr. cbn. unfold updated_row, tokens_of_row. cbn.
    rewrite Z.eqb_refl. reflexivity.
  - intros r'. unfold updated_row. destruct (row_id r' =? _); reflexivity.
Qed.

Lemma current_exists (d : Database) (tok : Tokens) :
  current d = Some tok ->
  existsb (fun r => row_id r =? id tok) (salesforce_tokens d) = true.
Proof.
  unfold current.
  destruct (latest (salesforce_tokens d)) as [r|] eqn:Hr; [|discriminate].
  cbn. intros H; inversion H; subst; clear H. cbn.
  apply latest_exists, Hr.
Qed.

Lemma refreshAccessToken_inv (w w' : World) (o : Outcome NewTokens)
    (t : list Event) :
  refreshAccessToken w = (o, w', t) ->
  refresh_count t = 1%nat
  /\ api_exchanges t = []
  /\ (forall nt, o = Returned nt ->
        exists tok resp rest data s iu,
          current (db w) = Some tok
          /\ incoming w = Resolved resp :: rest
          /\ incoming w' = rest
          /\ ok resp = true
          /\ body resp = JsonText data
          /\ getProp data "access_token" = inr (new_accessToken nt)
          /\ prepareValue (new_accessToken nt) = Some s
          /\ getProp data "instance_url" = inr iu
          /\ new_instanceUrl nt = js_or iu (JStr (instanceUrl tok))
          /\ salesforce_tokens (db w')
             = map (updated_row (id tok) s (current_timestamp (db w)))
                 (salesforce_tokens (db w))
          /\ current (db w')
             = Some {| accessToken := s; refreshToken := refreshToken tok;
                       instanceUrl := instanceUrl tok; id := id tok |}).
Proof.
  destruct w as [d inc].
  unfold refreshAccessToken.
  unfold bind at 1. cbn [emit].
  unfold bind at 1. rewrite getTokens_run. cbn [db incoming].
  destruct (current d) as [tok|] eqn:Hcur.
  2:{ cbn. intros H; inversion H; subst. repeat split. intros; discriminate. }
  unfold bind at 1, fetch at 1. cbn [incoming db].
  destruct inc as [|[resp|reason] rest].
  1,3: cbn; intros H; inversion H; subst; repeat split; intros; discriminate.
  destruct (ok resp) eqn:Hok; cbn [negb].
  2:{ unfold bind, response_json, lift, throw, ret.
      destruct (body resp) as [errorData|text]; cbn.
      2:{ intros H; inversion H; subst; repeat split; intros; discriminate. }
      destruct (getProp errorData "error_description") as [e|ed]; cbn.
      1:{ intros H; inversion H; subst; repeat split; intros; discriminate. }
      destruct (truthy ed); cbn.
      1:{ intros H; inversion H; subst; repeat split; intros; discriminate. }
      destruct (getProp errorData "error") as [e|er]; cbn;
        intros H; inversion H; subst; repeat split; intros; discriminate. }
  unfold bind at 1, response_json at 1.
  destruct (body resp) as [data|text] eqn:Hbody.
  2:{ cbn. intros H; inversion H; subst; repeat split; intros; discriminate. }
  unfold ret at 1. unfold bind at 1.
  destruct (getProp data "access_token") as [e|at_] eqn:Hat.
  1:{ cbn. intros H; inversion H; subst; repeat split; intros; discriminate. }
  cbn [lift]. unfold ret at 1.
  unfold bind at 1. rewrite updateAccessToken_run. cbn [db incoming].
  destruct (execute_update_cases at_ (id tok) d)
    as [(s & [Hprep Hnul] & Hint & _ & ->)
       |[(_ & Hex & _)|(reason & -> & _)]];
    [|rewrite (current_exists d tok Hcur) in Hex; discriminate|];
    cbn [fst snd].
  2:{ cbn. intros H; inversion H; subst; repeat split; intros; discriminate. }
  unfold ret at 1. unfold bind at 1.
  destruct (getProp data "instance_url") as [e|iu] eqn:Hiu.
  1:{ cbn. intros H; inversion H; subst; repeat split; intros; discriminate. }
  cbn. intros H; inversion H; subst; clear H. repeat split.
  intros nt Hnt; inversion Hnt; subst; clear Hnt. cbn.
  exists tok, resp, rest, data, s, iu. repeat split; try assumption.
  exact (current_after_update d tok s 0 (current_timestamp d) 0 Hcur).
Qed.
(** C1, as the code has it.  A refresh that returns has rewritten the
    access token of the stored credential and nothing else: the refresh
    token, the instance URL and the id that [getTokens] finds afterwards are
    the ones it found before, and the table is the old one with the update
    statement applied to the rows of that id.  The instance URL of the provider's response
    goes to the caller, in the returned object, and falls back to the stored
    one when the response has none. *)
Theorem refreshAccessToken_stores_access_token_only
    (w w' : World) (nt : NewTokens) (t : list Event) :
  refreshAccessToken w = (Returned nt, w', t) ->
  exists tok s resp data iu,
    fst (fst (getTokens w)) = Returned (Some tok)
    /\ prepareValue (new_accessToken nt) = Some s
    /\ fst (fst (getTokens w'))
       = Returned (Some {| accessToken := s;
                           refreshToken := refreshToken tok;
                           instanceUrl := instanceUrl tok;
                           id := id tok |})
    /\ salesforce_tokens (db w')
       = map (updated_row (id tok) s (current_timestamp (db w)))
           (salesforce_tokens (db w))
    /\ head (incoming w) = Some (Resolved resp)
    /\ body resp = JsonText data
    /\ getProp data "access_token" = inr (new_accessToken nt)
    /\ getProp data "instance_url" = inr iu
    /\ new_instanceUrl nt = js_or iu (JStr (instanceUrl tok)).
Proof.
  intros H. apply refreshAccessToken_inv in H as (_ & _ & H).
  destruct (H nt eq_refl)
    as (tok & resp & rest & data & s & iu & Hcur & Hinc & _ & _ & Hbody
        & Hat & Hprep & Hiu & Hnew & Hrows & Hcur').
  exists tok, s, resp, data, iu. rewrite !getTokens_run. cbn [fst].
  rewrite Hcur, Hcur', Hinc. repeat split; assumption.
Qed.

End TokenRefresherFacts.

(* ===================================================================== *)
(** * More on the token refresher                                         *)
(* ===================================================================== *)

Section TokenRefresherMore.
Import Js Db Async.
Context {RT : Runtime}.

Lemma getProp_twice (v : JsValue) (k1 k2 : string) (x : JsValue) :
  getProp v k1 = inr x -> exists y, getProp v k2 = inr y.
Proof. destruct v; cbn; intros H; try discriminate; eauto. Qed.

(** Closes a branch of a run once the run is an equation between triples. *)
Ltac branch_done H :=
  inversion H; subst; clear H; cbn;
  repeat split; intros; simplify_eq; try reflexivity; try assumption;
  try (eexists _, _; cbn; repeat split; intros; simplify_eq;
       try reflexivity; try assumption; eauto);
  eauto.

(** What a refresh does to the world and what it leaves on record, in
    every case. *)
Lemma refreshAccessToken_effects (w w' : World) (o : Outcome NewTokens)
    (t : list Event) :
  refreshAccessToken w = (o, w', t) ->
  (forall e, o = Thrown e -> db w' = db w)
  /\ (current (db w) = None ->
        o = Thrown NoTokensFound /\ incoming w' = incoming w
        /\ t = [EvRefresh; EvQuery SELECT_latest])
  /\ (forall tok, current (db w) = Some tok ->
        exists res t_rest,
          t = EvRefresh :: EvQuery SELECT_latest
              :: EvFetch (refresh_request tok) res :: t_rest
          /\ incoming w' = tail (incoming w)
          /\ requests t_rest = []
          /\ (forall r, res = Resolved r ->
                head (incoming w) = Some (Resolved r))
          /\ (forall nt, o = Returned nt ->
                exists r, res = Resolved r /\ ok r = true))
  /\ length (salesforce_tokens (db w')) = length (salesforce_tokens (db w))
  /\ salesforce_tokens_id_seq (db w') = salesforce_tokens_id_seq (db w)
  /\ current_timestamp (db w') = current_timestamp (db w).
Proof.
  destruct w as [d inc].
  unfold refreshAccessToken.
  unfold bind at 1. cbn [emit].
  unfold bind at 1. rewrite getTokens_run. cbn [db incoming].
  destruct (current d) as [tok|] eqn:Hcur.
  2:{ cbn. intros H. branch_done H. }
  change (fetch _) with (fetch (refresh_request tok)).
  unfold bind at 1, fetch at 1. cbn [incoming db].
  destruct inc as [|[resp|reason] rest].
  1,3: cbn; intros H; branch_done H.
  destruct (ok resp) eqn:Hok; cbn [negb].
  2:{ unfold bind, response_json, lift, throw, ret.
      destruct (body resp) as [errorData|text]; cbn.
      2:{ intros H; branch_done H. }
      destruct (getProp errorData "error_description") as [e|ed]; cbn.
      1:{ intros H; branch_done H. }
      destruct (truthy ed); cbn.
      1:{ intros H; branch_done H. }
      destruct (getProp errorData "error") as [e|er]; cbn;
        intros H; branch_done H. }
  unfold bind at 1, response_json at 1.
  destruct (body resp) as [data|text] eqn:Hbody.
  2:{ cbn. intros H; branch_done H. }
  unfold ret at 1. unfold bind at 1.
  destruct (getProp data "access_token") as [e|at_] eqn:Hat.
  1:{ cbn. intros H; branch_done H. }
  destruct (getProp_twice data "access_token" "instance_url" at_ Hat)
    as [iu Hiu].
  cbn [lift]. unfold ret at 1.
  unfold bind at 1. rewrite updateAccessToken_run. cbn [db incoming].
  destruct (execute_update_cases at_ (id tok) d)
    as [(s & [Hprep Hnul] & Hint & _ & ->)
       |[(_ & Hex & _)|(reason & -> & _)]];
    [|rewrite (current_exists d tok Hcur) in Hex; discriminate|];
    cbn [fst snd].
  2:{ cbn. intros H; branch_done H. }
  unfold ret at 1. unfold bind at 1. rewrite Hiu.
  cbn. intros H; branch_done H. apply length_map.
Qed.

Lemma refreshAccessToken_wf (w w' : World) (o : Outcome NewTokens)
    (t : list Event) :
  refreshAccessToken w = (o, w', t) -> db_wf (db w) -> db_wf (db w').
Proof.
  intros Hrun Hwf.
  pose proof (refreshAccessToken_effects w w' o t Hrun)
    as (Hkeep & _ & _ & _ & Hseq & _).
  destruct o as [nt|e]; [|now rewrite (Hkeep e eq_refl)].
  apply refreshAccessToken_inv in Hrun as (_ & _ & Hret).
  destruct (Hret nt eq_refl)
    as (tok & resp & rest & data & s & iu & _ & _ & _ & _ & _ & _ & _
        & _ & _ & Hrows & _).
  eapply db_wf_updated; eassumption.
Qed.

(** A refresh that fails leaves the database as it was: the stored
    credential is still the one from before the attempt. *)
Theorem refreshAccessToken_failure_keeps_credential (w w' : World)
    (e : JsError) (t : list Event) :
  refreshAccessToken w = (Thrown e, w', t) ->
  db w' = db w /\ current (db w') = current (db w).
Proof.
  intros H. apply refreshAccessToken_effects in H as (Hdb & _).
  rewrite (Hdb e eq_refl). split; reflexivity.
Qed.

(** With no stored credential a refresh fails at once: it throws 'No
    tokens found in database' after the one query, and sends nothing. *)
Theorem refreshAccessToken_no_credential (w : World) :
  current (db w) = None ->
  exists w',
    refreshAccessToken w
    = (Thrown NoTokensFound, w', [EvRefresh; EvQuery SELECT_latest])
    /\ db w' = db w /\ incoming w' = incoming w.
Proof.
  intros Hcur.
  destruct (refreshAccessToken w) as [[o w'] t] eqn:Hrun.
  pose proof (refreshAccessToken_effects w w' o t Hrun)
    as (Hdb & Hnone & _).
  destruct (Hnone Hcur) as (-> & Hinc & ->).
  exists w'. repeat split; [apply (Hdb NoTokensFound eq_refl)|exact Hinc].
Qed.

(** A refresh with a stored credential sends exactly one request, the
    form-encoded POST to the token endpoint that carries the stored
    refresh token, and consumes exactly that one answer; it never sends a
    second one, whatever the answer. *)
Theorem refreshAccessToken_one_request (w w' : World) (o : Outcome NewTokens)
    (t : list Event) (tok : Tokens) :
  refreshAccessToken w = (o, w', t) ->
  current (db w) = Some tok ->
  requests t = [refresh_request tok]
  /\ incoming w' = tail (incoming w)
  /\ refresh_count t = 1%nat
  /\ Js.method (refresh_request tok) = "POST"%string
  /\ url (refresh_request tok) = SF_LOGIN_URL +:+ "/services/oauth2/token".
Proof.
  intros Hrun Hcur.
  pose proof (refreshAccessToken_inv w w' o t Hrun) as (Hcount & _).
  apply refreshAccessToken_effects in Hrun as (_ & _ & Hsome & _).
  destruct (Hsome tok Hcur) as (res & t_rest & -> & Hinc & Hreq & _).
  cbn [requests]. rewrite Hreq. repeat split; assumption.
Qed.

(** A refusal by the provider, a status outside 200-299 with a JSON object
    as body, is thrown with the object's [error_description], or with its
    [error] when the description is missing or empty; a refusal whose body
    is not JSON is thrown as the parse failure instead.  Either way the
    stored credential is not touched. *)
Theorem refreshAccessToken_rejected (w : World) (tok : Tokens)
    (resp : Response) (rest : list FetchResult) :
  current (db w) = Some tok ->
  incoming w = Resolved resp :: rest ->
  ok resp = false ->
  exists w',
    refreshAccessToken w
    = (Thrown match body resp with
              | JsonText (JObj fields) =>
                  TokenRefreshRejected
                    (js_or (assoc "error_description" fields)
                       (assoc "error" fields))
              | JsonText (JUndefined | JNull) => TypeError "error_description"
              | JsonText _ => TokenRefreshRejected JUndefined
              | PlainText _ => SyntaxError
              end,
       w',
       [EvRefresh; EvQuery SELECT_latest;
        EvFetch (refresh_request tok) (Resolved resp)])
    /\ db w' = db w /\ incoming w' = rest.
Proof.
  intros Hcur Hinc Hok. destruct w as [d inc]. cbn in Hcur, Hinc. subst inc.
  unfold refreshAccessToken.
  unfold bind at 1. cbn [emit].
  unfold bind at 1. rewrite getTokens_run. cbn [db incoming]. rewrite Hcur.
  change (fetch _) with (fetch (refresh_request tok)).
  unfold bind at 1, fetch at 1. cbn [incoming db]. rewrite Hok. cbn [negb].
  unfold bind, response_json, lift, throw, ret, js_or.
  destruct (body resp) as [[| | | | | |fields]|text]; cbn;
    try (eexists; repeat split; fail).
  destruct (truthy (assoc "error_description" fields)); cbn;
    eexists; repeat split.
Qed.

(** A success answer without a usable access token (none, or null) makes
    the refresh fail on the NOT NULL column, after the update was tried;
    the stored access token is still the old one. *)
Theorem refreshAccessToken_missing_access_token (w : World) (tok : Tokens)
    (resp : Response) (rest : list FetchResult)
    (fields : list (string * JsValue)) :
  current (db w) = Some tok ->
  incoming w = Resolved resp :: rest ->
  ok resp = true ->
  body resp = JsonText (JObj fields) ->
  prepareValue (assoc "access_token" fields) = None ->
  exists w' reason,
    refreshAccessToken w
    = (Thrown (DatabaseError reason), w',
       [EvRefresh; EvQuery SELECT_latest;
        EvFetch (refresh_request tok) (Resolved resp);
        EvQuery (UPDATE_access_token (assoc "access_token" fields) (id tok))])
    /\ db w' = db w /\ current (db w') = Some tok.
Proof.
  intros Hcur Hinc Hok Hbody Hnull. destruct w as [d inc].
  cbn in Hcur, Hinc. subst inc.
  unfold refreshAccessToken.
  unfold bind at 1. cbn [emit].
  unfold bind at 1. rewrite getTokens_run. cbn [db incoming]. rewrite Hcur.
  change (fetch _) with (fetch (refresh_request tok)).
  unfold bind at 1, fetch at 1. cbn [incoming db]. rewrite Hok. cbn [negb].
  unfold bind at 1, response_json at 1. rewrite Hbody.
  unfold ret at 1. unfold bind at 1. cbn [getProp lift]. unfold ret at 1.
  unfold bind at 1. rewrite updateAccessToken_run. cbn [db incoming].
  destruct (execute_update_cases (assoc "access_token" fields) (id tok) d)
    as [(s & [Hprep _] & _)|[(_ & Hex & _)|(reason & -> & _)]];
    [congruence|rewrite (current_exists d tok Hcur) in Hex; discriminate|].
  cbn. eexists _, _. repeat split. exact Hcur.
Qed.

End TokenRefresherMore.

(* ===================================================================== *)
(** * Properties of the authenticated API call                            *)
(* ===================================================================== *)

Section ApiGatewayFacts.
Import Js Db Async.
Context {RT : Runtime}.

Lemma api_exchanges_app (t1 t2 : list Event) :
  api_exchanges (t1 ++ t2) = api_exchanges t1 ++ api_exchanges t2.
Proof.
  induction t1 as [|[st|req res|] t1 IH]; cbn; try assumption.
  - reflexivity.
  - destruct (is_api_request req); cbn; now rewrite IH.
Qed.

Lemma refresh_count_app (t1 t2 : list Event) :
  refresh_count (t1 ++ t2) = (refresh_count t1 + refresh_count t2)%nat.
Proof.
  induction t1 as [|[st|req res|] t1 IH]; cbn; try assumption.
  - reflexivity.
  - now rewrite IH.
Qed.

Lemma makeRequest_run (endpoint method : string) (body : JsValue)
    (tok : Tokens) (w : World) :
  makeRequest endpoint method body (accessToken tok) (instanceUrl tok) w
  = fetch (api_request endpoint method body tok) w.
Proof. reflexivity. Qed.

Lemma fetch_inv (req : Request) (w w' : World) (o : Outcome Response)
    (t : list Event) :
  fetch req w = (o, w', t) ->
  db w' = db w
  /\ exists res, t = [EvFetch req res]
       /\ o = match res with
              | Resolved r => Returned r
              | Rejected reason => Thrown (FetchError reason)
              end.
Proof.
  unfold fetch. destruct (incoming w) as [|[r|reason] rest];
    intros H; inversion H; subst; cbn; split; try reflexivity;
    eexists; split; reflexivity.
Qed.

(** Every way a call can run. *)
Lemma salesforceApiCall_inv (endpoint method : string) (body : JsValue)
    (w w' : World) (o : Outcome JsValue) (t : list Event) :
  salesforceApiCall endpoint method body w = (o, w', t) ->
  (current (db w) = None /\ o = Thrown NotConnected
   /\ api_exchanges t = [] /\ refresh_count t = 0%nat)
  \/ (exists tok reason,
        current (db w) = Some tok
        /\ api_exchanges t
           = [(api_request endpoint method body tok, Rejected reason)]
        /\ refresh_count t = 0%nat
        /\ o = Thrown (FetchError reason))
  \/ (exists tok r1,
        current (db w) = Some tok
        /\ status r1 <> 401
        /\ api_exchanges t
           = [(api_request endpoint method body tok, Resolved r1)]
        /\ refresh_count t = 0%nat
        /\ o = settle r1)
  \/ (exists tok r1 e,
        current (db w) = Some tok
        /\ status r1 = 401
        /\ api_exchanges t
           = [(api_request endpoint method body tok, Resolved r1)]
        /\ refresh_count t = 1%nat
        /\ o = Thrown (TokenRefreshFailed e))
  \/ (exists tok r1 s res2 t0,
        let tok' := {| accessToken := s; refreshToken := refreshToken tok;
                       instanceUrl := instanceUrl tok; id := id tok |} in
        current (db w) = Some tok
        /\ status r1 = 401
        /\ api_exchanges t
           = [(api_request endpoint method body tok, Resolved r1);
              (api_request endpoint method body tok', res2)]
        /\ refresh_count t = 1%nat
        /\ t = t0 ++ [EvQuery SELECT_latest;
                      EvFetch (api_request endpoint method body tok') res2]
        /\ refresh_count t0 = 1%nat
        /\ current (db w') = Some tok'
        /\ o = match res2 with
               | Resolved r2 => settle r2
               | Rejected reason =>
                   Thrown (TokenRefreshFailed (FetchError reason))
               end).
Proof.
  unfold salesforceApiCall. intros H.
  unfold bind at 1 in H. rewrite getTokens_run in H.
  destruct (current (db w)) as [tok|] eqn:Hcur.
  2:{ cbn in H. inversion H; subst. left. repeat split. }
  right.
  unfold bind at 1 in H. rewrite makeRequest_run in H.
  destruct (fetch _ _) as [[o1 w1] t1] eqn:Hf1.
  apply fetch_inv in Hf1 as (Hdb1 & res1 & -> & ->). cbn [db] in Hdb1.
  destruct res1 as [r1|reason].
  2:{ inversion H; subst. left. exists tok, reason. cbn. repeat split. }
  right.
  unfold bind at 1 in H.
  destruct (Z.eqb_spec (status r1) 401) as [H401|H401].
  2:{ left. exists tok, r1. unfold settle.
      unfold ret at 1 in H. destruct (ok r1); cbn in H.
      - unfold response_json in H. destruct (Js.body r1); cbn in H;
          inversion H; subst; cbn; repeat split; assumption.
      - inversion H; subst; cbn; repeat split; assumption. }
  right.
  unfold try_catch at 1, bind at 1 in H.
  destruct (refreshAccessToken w1) as [[o2 w2] t2] eqn:Href.
  apply refreshAccessToken_inv in Href as (Hcount & Hapi & Hret).
  destruct o2 as [nt|e].
  2:{ cbn in H. inversion H; subst. left. exists tok, r1, e. cbn.
      rewrite app_nil_r, Hapi, Hcount. repeat split; assumption. }
  right.
  destruct (Hret nt eq_refl)
    as (tok1 & resp & rest & data & s & iu & Hcur1 & _ & _ & _ & _ & _ & _
        & _ & _ & _ & Hcur2).
  rewrite Hdb1, Hcur in Hcur1. inversion Hcur1; subst tok1; clear Hcur1 Hret.
  unfold bind at 1 in H. rewrite getTokens_run, Hcur2 in H.
  rewrite makeRequest_run in H.
  destruct (fetch _ _) as [[o3 w3] t3] eqn:Hf3.
  apply fetch_inv in Hf3 as (Hdb3 & res2 & -> & ->). cbn [db] in Hdb3.
  exists tok, r1, s, res2,
    ([EvQuery SELECT_latest;
      EvFetch (api_request endpoint method body tok) (Resolved r1)] ++ t2).
  cbn zeta. rewrite <- Hdb3 in Hcur2.
  assert (forall (o' : Outcome JsValue) (tr : list Event),
            (o', w3, tr) = (o, w', t) ->
            tr = EvQuery SELECT_latest
                 :: EvFetch (api_request endpoint method body tok) (Resolved r1)
                 :: t2 ++ [EvQuery SELECT_latest;
                     EvFetch (api_request endpoint method body
                       {| accessToken := s; refreshToken := refreshToken tok;
                          instanceUrl := instanceUrl tok; id := id tok |}) res2] ->
            o' = match res2 with
                 | Resolved r2 => settle r2
                 | Rejected reason =>
                     Thrown (TokenRefreshFailed (FetchError reason))
                 end ->
            Some tok = Some tok /\ status r1 = 401
            /\ api_exchanges t
               = [(api_request endpoint method body tok, Resolved r1);
                  (api_request endpoint method body
                     {| accessToken := s; refreshToken := refreshToken tok;
                        instanceUrl := instanceUrl tok; id := id tok |}, res2)]
            /\ refresh_count t = 1%nat
            /\ t = ([EvQuery SELECT_latest;
                     EvFetch (api_request endpoint method body tok)
                       (Resolved r1)] ++ t2)
                   ++ [EvQuery SELECT_latest;
                       EvFetch (api_request endpoint method body
                         {| accessToken := s; refreshToken := refreshToken tok;
                            instanceUrl := instanceUrl tok; id := id tok |}) res2]
            /\ refresh_count
                 ([EvQuery SELECT_latest;
                   EvFetch (api_request endpoint method body tok)
                     (Resolved r1)] ++ t2) = 1%nat
            /\ current (db w')
               = Some {| accessToken := s; refreshToken := refreshToken tok;
                         instanceUrl := instanceUrl tok; id := id tok |}
            /\ o = match res2 with
                   | Resolved r2 => settle r2
                   | Rejected reason =>
                       Thrown (TokenRefreshFailed (FetchError reason))
                   end) as Hdone.
  { intros o' tr Heq -> ->. inversion Heq; subst; clear Heq. cbn.
    rewrite !api_exchanges_app, !refresh_count_app, Hapi, Hcount. cbn.
    repeat split; try assumption. }
  destruct res2 as [r2|reason].
  - unfold settle in *. destruct (ok r2); cbn in H.
    + unfold response_json in H. destruct (Js.body r2); cbn in H;
        apply (Hdone _ _ H); try reflexivity;
        now rewrite app_nil_r.
    + apply (Hdone _ _ H); try reflexivity. now rewrite app_nil_r.
  - cbn in H. apply (Hdone _ _ H); try reflexivity. now rewrite ?app_nil_r.
Qed.

Lemma api_request_body (endpoint method : string) (body : JsValue)
    (tok : Tokens) :
  let req := api_request endpoint method body tok in
  Js.method req = method
  /\ req_body req
     = (if truthy body && (String.eqb method "POST" || String.eqb method "PATCH")
        then Some (JSON_stringify body) else None)
  /\ (req_body req <> None -> method = "POST"%string \/ method = "PATCH"%string)
  /\ (method <> "POST"%string -> method <> "PATCH"%string -> req_body req = None).
Proof.
  cbn. split; [reflexivity|]. split; [reflexivity|].
  destruct (String.eqb_spec method "POST"), (String.eqb_spec method "PATCH");
    rewrite ?andb_false_r; cbn; split; auto; try congruence.
Qed.



(** C10. Every request the call sends to the API, the first one and the
    one after a refresh, has the caller's method and carries a body only
    when the method is POST or PATCH (then the serialised body argument,
    provided that argument is truthy); under any other method the body
    argument is dropped. *)
Theorem salesforceApiCall_body_only_on_post_patch (endpoint method : string)
    (body : JsValue) (w w' : World) (o : Outcome JsValue) (t : list Event) :
  salesforceApiCall endpoint method body w = (o, w', t) ->
  (length (api_exchanges t) <= 2)%nat
  /\ forall req res, (req, res) ∈ api_exchanges t ->
       Js.method req = method
       /\ req_body req
          = (if truthy body
                && (String.eqb method "POST" || String.eqb method "PATCH")
             then Some (JSON_stringify body) else None)
       /\ (req_body req <> None ->
             method = "POST"%string \/ method = "PATCH"%string)
       /\ (method <> "POST"%string -> method <> "PATCH"%string ->
             req_body req = None).
Proof.
  intros Hrun.
  apply salesforceApiCall_inv in Hrun
    as [(_ & _ & Hex & _)
       |[(tok & reason & _ & Hex & _)
        |[(tok & r & _ & _ & Hex & _)
         |[(tok & r & e & _ & _ & Hex & _)
          |(tok & r & s & res2 & t0 & _ & _ & Hex & _)]]]];
    rewrite Hex; (split; [cbn; lia|]); intros req res Hin;
    repeat (apply elem_of_cons in Hin as [Hin|Hin];
            [inversion Hin; subst; apply api_request_body|]);
    inversion Hin.
Qed.

End ApiGatewayFacts.

(* ===================================================================== *)
(** * More on the authenticated API call                                  *)
(* ===================================================================== *)

Section ApiGatewayMore.
Import Js Db Async.
Context {RT : Runtime}.

Lemma requests_app (t1 t2 : list Event) :
  requests (t1 ++ t2) = requests t1 ++ requests t2.
Proof.
  induction t1 as [|[st|req res|] t1 IH]; cbn; try assumption.
  - reflexivity.
  - now rewrite IH.
Qed.

Ltac effects_done :=
  repeat match goal with |- _ /\ _ => split end; cbn;
  try lia; try tauto; try reflexivity; try (intros; discriminate);
  try (intros; reflexivity); try (intros; split; reflexivity);
  try (intros ? Heq; inversion Heq; subst; eauto; fail).

(** What a call does to the database and how much it sends, in every
    case. *)
Lemma salesforceApiCall_effects (endpoint method : string) (body : JsValue)
    (w w' : World) (o : Outcome JsValue) (t : list Event) :
  salesforceApiCall endpoint method body w = (o, w', t) ->
  (refresh_count t = 0%nat -> db w' = db w)
  /\ (refresh_count t <= 1)%nat
  /\ (length (requests t) <= 3)%nat
  /\ (current (db w) = None -> requests t = [] /\ incoming w' = incoming w)
  /\ (forall tok, current (db w) = Some tok ->
        exists a, current (db w') = Some (with_access_token a tok))
  /\ length (salesforce_tokens (db w')) = length (salesforce_tokens (db w))
  /\ salesforce_tokens_id_seq (db w') = salesforce_tokens_id_seq (db w)
  /\ (db_wf (db w) -> db_wf (db w')).
Proof.
  unfold salesforceApiCall. intros H.
  unfold bind at 1 in H. rewrite getTokens_run in H.
  destruct (current (db w)) as [tok|] eqn:Hcur.
  2:{ cbn in H. inversion H; subst. effects_done. }
  assert (current (db w) = Some (with_access_token (accessToken tok) tok))
    as Hsame by (rewrite Hcur; destruct tok; reflexivity).
  unfold bind at 1 in H. rewrite makeRequest_run in H.
  destruct (fetch _ _) as [[o1 w1] t1] eqn:Hf1.
  apply fetch_inv in Hf1 as (Hdb1 & res1 & -> & ->). cbn [db] in Hdb1.
  destruct res1 as [r1|reason].
  2:{ inversion H; subst. cbn. rewrite Hdb1. effects_done. }
  unfold bind at 1 in H.
  destruct (Z.eqb_spec (status r1) 401) as [H401|H401].
  2:{ assert (exists o', (o', w1,
                          [EvQuery SELECT_latest] ++
                          [EvFetch (api_request endpoint method body tok)
                             (Resolved r1)] ++ [] ++ []) = (o, w', t))
        as [o' Hrun].
      { unfold ret at 1 in H. destruct (ok r1); cbn in H.
        - unfold response_json in H. destruct (Js.body r1); cbn in H; eauto.
        - eauto. }
      inversion Hrun; subst. cbn. rewrite Hdb1. effects_done. }
  unfold try_catch at 1, bind at 1 in H.
  destruct (refreshAccessToken w1) as [[o2 w2] t2] eqn:Href.
  pose proof (refreshAccessToken_effects w1 w2 o2 t2 Href)
    as (Hkeep & _ & Hsome & Hlen & Hseq & _).
  pose proof (refreshAccessToken_inv w1 w2 o2 t2 Href)
    as (Hcount & Hapi & Hret).
  pose proof (refreshAccessToken_wf w1 w2 o2 t2 Href) as Hwf2.
  rewrite Hdb1 in Hsome, Hlen, Hseq, Hwf2.
  destruct (Hsome tok Hcur) as (res & t_rest & Ht2 & _ & Hreq & _).
  assert (requests t2 = [refresh_request tok]) as Hreq2.
  { rewrite Ht2. cbn. now rewrite Hreq. }
  destruct o2 as [nt|e].
  2:{ cbn in H. inversion H; subst o w' t.
      rewrite (Hkeep e eq_refl), Hdb1.
      cbn [requests refresh_count app]. rewrite app_nil_r, Hcount, Hreq2.
      effects_done. }
  destruct (Hret nt eq_refl)
    as (tok1 & resp & rest & data & s & iu & Hcur1 & _ & _ & _ & _ & _ & _
        & _ & _ & _ & Hcur2).
  rewrite Hdb1, Hcur in Hcur1. inversion Hcur1; subst tok1; clear Hcur1 Hret.
  unfold bind at 1 in H. rewrite getTokens_run, Hcur2 in H.
  rewrite makeRequest_run in H.
  destruct (fetch _ _) as [[o3 w3] t3] eqn:Hf3.
  apply fetch_inv in Hf3 as (Hdb3 & res2 & -> & ->). cbn [db] in Hdb3.
  assert (exists o',
            (o', w3,
             EvQuery SELECT_latest
             :: EvFetch (api_request endpoint method body tok) (Resolved r1)
             :: t2 ++ [EvQuery SELECT_latest;
                       EvFetch (api_request endpoint method body
                          {| accessToken := s; refreshToken := refreshToken tok;
                             instanceUrl := instanceUrl tok; id := id tok |})
                         res2]) = (o, w', t))
    as [o' Hrun].
  { destruct res2 as [r2|reason].
    - destruct (ok r2); cbn in H.
      + unfold response_json in H. destruct (Js.body r2); cbn in H;
          rewrite ?app_nil_r in H; eauto.
      + rewrite ?app_nil_r in H. eauto.
    - cbn in H. rewrite ?app_nil_r in H. eauto. }
  inversion Hrun; subst o' w' t. rewrite Hdb3.
  cbn [requests refresh_count].
  rewrite refresh_count_app, requests_app, Hcount, Hreq2.
  effects_done; assumption.
Qed.

(** What the store relies on holds across every operation.  From a table
    whose ids are unique and below the sequence and that holds at most one
    row, each of replace, read, update and clear, a refresh and an API call
    leads, however it ends, to a table of which the same is true. *)
Theorem store_invariants_preserved (endpoint method : string)
    (body : JsValue) (w w' : World) :
  db_wf (db w) ->
  (length (salesforce_tokens (db w)) <= 1)%nat ->
  (forall a r u o t, storeTokens a r u w = (o, w', t) ->
     db_wf (db w') /\ (length (salesforce_tokens (db w')) <= 1)%nat)
  /\ (forall o t, getTokens w = (o, w', t) ->
        db_wf (db w') /\ (length (salesforce_tokens (db w')) <= 1)%nat)
  /\ (forall i v o t, updateAccessToken i v w = (o, w', t) ->
        db_wf (db w') /\ (length (salesforce_tokens (db w')) <= 1)%nat)
  /\ (forall o t, deleteTokens w = (o, w', t) ->
        db_wf (db w') /\ (length (salesforce_tokens (db w')) <= 1)%nat)
  /\ (forall o t, refreshAccessToken w = (o, w', t) ->
        db_wf (db w') /\ (length (salesforce_tokens (db w')) <= 1)%nat)
  /\ (forall o t, salesforceApiCall endpoint method body w = (o, w', t) ->
        db_wf (db w') /\ (length (salesforce_tokens (db w')) <= 1)%nat).
Proof.
  intros Hwf Hone.
  destruct (db_wf_preserved w w' Hwf) as (W1 & W2 & W3 & W4).
  destruct (at_most_one_credential_preserved w w') as (O1 & O).
  destruct (O Hone) as (O2 & O3 & O4).
  split; [|split; [|split; [|split; [|split]]]].
  - intros a r u o t H. split; [eapply W1|eapply O1]; exact H.
  - intros o t H. split; [eapply W2|eapply O2]; exact H.
  - intros i v o t H. split; [eapply W3|eapply O3]; exact H.
  - intros o t H. split; [eapply W4|eapply O4]; exact H.
  - intros o t Hrun. split; [apply (refreshAccessToken_wf w w' o t Hrun Hwf)|].
    apply refreshAccessToken_effects in Hrun as (_ & _ & _ & Hlen & _).
    lia.
  - intros o t Hrun. apply salesforceApiCall_effects in Hrun
      as (_ & _ & _ & _ & _ & Hlen & _ & Hwf').
    split; [exact (Hwf' Hwf)|lia].
Qed.

(** Without a stored credential the call fails with 'Not connected to
    Salesforce' after its one query: nothing is sent and nothing changes. *)
Theorem salesforceApiCall_not_connected (endpoint method : string)
    (body : JsValue) (w : World) :
  current (db w) = None ->
  exists w',
    salesforceApiCall endpoint method body w
    = (Thrown NotConnected, w', [EvQuery SELECT_latest])
    /\ db w' = db w /\ incoming w' = incoming w.
Proof.
  intros Hcur. unfold salesforceApiCall.
  unfold bind at 1. rewrite getTokens_run, Hcur. cbn.
  eexists. repeat split.
Qed.

(** An answer other than 401 to the first request ends the call there:
    one request, no refresh, the database as it was.  A status in 200-299
    gives the parsed body (a body that is not JSON makes the call throw the
    parse failure); any other status, 403 or 500 say, is thrown as the API
    error with that status and body. *)
Theorem salesforceApiCall_single_attempt (endpoint method : string)
    (body : JsValue) (w : World) (tok : Tokens) (r1 : Response)
    (rest : list FetchResult) :
  current (db w) = Some tok ->
  incoming w = Resolved r1 :: rest ->
  status r1 <> 401 ->
  exists w',
    salesforceApiCall endpoint method body w
    = (settle r1, w',
       [EvQuery SELECT_latest;
        EvFetch (api_request endpoint method body tok) (Resolved r1)])
    /\ db w' = db w /\ incoming w' = rest
    /\ (ok r1 = false ->
          settle r1 = Thrown (SalesforceApiError (status r1)
                                (parse_errorData (Js.body r1))))
    /\ (ok r1 = true ->
          settle r1 = match Js.body r1 with
                      | JsonText v => Returned v
                      | PlainText _ => Thrown SyntaxError
                      end).
Proof.
  intros Hcur Hinc H401. unfold salesforceApiCall.
  unfold bind at 1. rewrite getTokens_run, Hcur.
  unfold bind at 1. rewrite makeRequest_run.
  unfold fetch at 1. cbn [incoming db]. rewrite Hinc.
  unfold bind at 1.
  destruct (Z.eqb_spec (status r1) 401) as [|_]; [contradiction|].
  unfold ret at 1, settle.
  destruct (ok r1) eqn:Hok; cbn.
  - unfold response_json. destruct (Js.body r1) eqn:Hb; cbn;
      eexists; repeat split; intros; discriminate.
  - eexists; repeat split; intros; discriminate.
Qed.

(** No call loops: it invokes the refresher at most once and sends at most
    three requests, two to the API and one to the token endpoint; and it
    neither adds nor removes a row, nor draws from the id sequence. *)
Theorem salesforceApiCall_bounded (endpoint method : string)
    (body : JsValue) (w w' : World) (o : Outcome JsValue) (t : list Event) :
  salesforceApiCall endpoint method body w = (o, w', t) ->
  (refresh_count t <= 1)%nat
  /\ (length (requests t) <= 3)%nat
  /\ (length (api_exchanges t) <= 2)%nat
  /\ length (salesforce_tokens (db w')) = length (salesforce_tokens (db w))
  /\ salesforce_tokens_id_seq (db w') = salesforce_tokens_id_seq (db w).
Proof.
  intros Hrun.
  pose proof (salesforceApiCall_effects _ _ _ _ _ _ _ Hrun)
    as (_ & Hrc & Hreq & _ & _ & Hlen & Hseq & _).
  repeat split; try assumption.
  apply salesforceApiCall_inv in Hrun
    as [(_ & _ & Hex & _)
       |[(tok & reason & _ & Hex & _)
        |[(tok & r & _ & _ & Hex & _)
         |[(tok & r & e & _ & _ & Hex & _)
          |(tok & r & s & res2 & t0 & _ & _ & Hex & _)]]]];
    rewrite Hex; cbn; lia.
Qed.

(** A call never changes who the stored credential is: the credential
    found after the call has the id, the refresh token and the instance URL
    of the one found before, and at most another access token; when no
    refresh was invoked the whole database is as before. *)
Theorem salesforceApiCall_credential_frame (endpoint method : string)
    (body : JsValue) (w w' : World) (o : Outcome JsValue) (t : list Event)
    (tok : Tokens) :
  salesforceApiCall endpoint method body w = (o, w', t) ->
  current (db w) = Some tok ->
  (exists tok',
     current (db w') = Some tok'
     /\ id tok' = id tok
     /\ refreshToken tok' = refreshToken tok
     /\ instanceUrl tok' = instanceUrl tok)
  /\ (refresh_count t = 0%nat -> db w' = db w).
Proof.
  intros Hrun Hcur.
  apply salesforceApiCall_effects in Hrun as (Hdb & _ & _ & _ & Hsome & _).
  destruct (Hsome tok Hcur) as [a Ha].
  split; [|exact Hdb]. eexists. split; [exact Ha|]. repeat split.
Qed.

(** The request sent again after a refresh differs from the first one in
    its bearer token only: same URL (the stored instance URL, whatever
    instance the token endpoint named), same method, same body; and the
    bearer token is the access token the store holds after the call. *)
Theorem salesforceApiCall_retry_request (endpoint method : string)
    (body : JsValue) (w w' : World) (o : Outcome JsValue) (t : list Event)
    (req1 req2 : Request) (res1 res2 : FetchResult) :
  salesforceApiCall endpoint method body w = (o, w', t) ->
  api_exchanges t = [(req1, res1); (req2, res2)] ->
  url req2 = url req1
  /\ Js.method req2 = Js.method req1
  /\ req_body req2 = req_body req1
  /\ exists tok tok',
       current (db w) = Some tok
       /\ current (db w') = Some tok'
       /\ url req1 = instanceUrl tok +:+ endpoint
       /\ headers req1 = [("Authorization", "Bearer " +:+ accessToken tok);
                          ("Content-Type", "application/json")]
       /\ headers req2 = [("Authorization", "Bearer " +:+ accessToken tok');
                          ("Content-Type", "application/json")].
Proof.
  intros Hrun Hex'.
  apply salesforceApiCall_inv in Hrun
    as [(_ & _ & Hex & _)
       |[(tok & reason & _ & Hex & _)
        |[(tok & r & _ & _ & Hex & _)
         |[(tok & r & e & _ & _ & Hex & _)
          |(tok & r & s & res & t0 & Hcur & _ & Hex & _ & _ & _ & Hcur' & _)]]]];
    rewrite Hex in Hex'; try discriminate.
  inversion Hex'; subst. cbn. repeat split.
  exists tok, (with_access_token s tok).
  repeat split; try assumption; reflexivity.
Qed.

Lemma fetch_resolved_inv (req : Request) (w w' : World) (r : Response)
    (t : list Event) :
  fetch req w = (Returned r, w', t) ->
  exists rest,
    incoming w = Resolved r :: rest
    /\ w' = {| db := db w; incoming := rest |}
    /\ t = [EvFetch req (Resolved r)].
Proof.
  unfold fetch. destruct (incoming w) as [|[r'|reason] rest];
    intros H; inversion H; subst. eauto.
Qed.

(** A call whose first answer is a 401, laid out around the refresh it
    makes: the refresh runs on the world the first request left, and the
    call ends as the refresh and the second request decide. *)
Lemma salesforceApiCall_after_401 (endpoint method : string)
    (body : JsValue) (w w' : World) (o : Outcome JsValue) (t : list Event)
    (r1 : Response) :
  salesforceApiCall endpoint method body w = (o, w', t) ->
  head (api_responses t) = Some (Resolved r1) ->
  status r1 = 401 ->
  exists tok rest o2 w2 t2,
    current (db w) = Some tok
    /\ incoming w = Resolved r1 :: rest
    /\ refreshAccessToken {| db := db w; incoming := rest |} = (o2, w2, t2)
    /\ refresh_count t = 1%nat
    /\ match o2 with
       | Thrown e =>
           o = Thrown (TokenRefreshFailed e) /\ w' = w2
           /\ api_responses t = [Resolved r1]
       | Returned nt =>
           exists res2,
             api_responses t = [Resolved r1; res2]
             /\ db w' = db w2
             /\ o = match res2 with
                    | Resolved r2 => settle r2
                    | Rejected reason =>
                        Thrown (TokenRefreshFailed (FetchError reason))
                    end
       end.
Proof.
  unfold salesforceApiCall, api_responses. intros H Hhead H401.
  unfold bind at 1 in H. rewrite getTokens_run in H.
  destruct (current (db w)) as [tok|] eqn:Hcur.
  2:{ cbn in H. inversion H; subst. discriminate Hhead. }
  unfold bind at 1 in H. rewrite makeRequest_run in H.
  destruct (fetch _ _) as [[o1 w1] t1] eqn:Hf1.
  destruct o1 as [r|e1].
  2:{ apply fetch_inv in Hf1 as (_ & res1 & -> & Ho1).
      destruct res1; [discriminate|].
      inversion H; subst. discriminate Hhead. }
  apply fetch_resolved_inv in Hf1 as (rest & Hinc & -> & ->).
  cbn [db incoming] in *.
  unfold bind at 1 in H.
  destruct (Z.eqb_spec (status r) 401) as [Hr401|Hn401].
  2:{ assert (exists o', (o', {| db := db w; incoming := rest |},
                          [EvQuery SELECT_latest] ++
                          [EvFetch (api_request endpoint method body tok)
                             (Resolved r)] ++ [] ++ []) = (o, w', t))
        as [o' Hrun].
      { unfold ret at 1 in H. destruct (ok r); cbn in H.
        - unfold response_json in H. destruct (Js.body r); cbn in H; eauto.
        - eauto. }
      inversion Hrun; subst. cbn in Hhead. inversion Hhead; subst.
      contradiction. }
  unfold try_catch at 1, bind at 1 in H.
  destruct (refreshAccessToken _) as [[o2 w2] t2] eqn:Href.
  pose proof (refreshAccessToken_inv _ _ _ _ Href) as (Hcount & Hapi & Hret).
  assert (forall tr, api_exchanges
            (EvQuery SELECT_latest
             :: EvFetch (api_request endpoint method body tok) (Resolved r)
             :: t2 ++ tr)
          = (api_request endpoint method body tok, Resolved r)
            :: api_exchanges tr) as Hex.
  { intros tr. cbn. now rewrite api_exchanges_app, Hapi. }
  assert (forall tr, refresh_count
            (EvQuery SELECT_latest
             :: EvFetch (api_request endpoint method body tok) (Resolved r)
             :: t2 ++ tr)
          = S (refresh_count tr)) as Hrc.
  { intros tr. cbn. rewrite refresh_count_app, Hcount. reflexivity. }
  exists tok, rest, o2, w2, t2.
  destruct o2 as [nt|e].
  2:{ cbn in H. inversion H; subst. rewrite app_nil_r in *.
      specialize (Hex []). specialize (Hrc []). rewrite app_nil_r in Hex, Hrc.
      rewrite Hex in Hhead |- *. cbn in Hhead. inversion Hhead; subst r.
      rewrite Hrc. cbn. repeat split; assumption. }
  destruct (Hret nt eq_refl)
    as (tok1 & resp & rest1 & data & s & iu & Hcur1 & _ & _ & _ & _ & _ & _
        & _ & _ & _ & Hcur2).
  unfold bind at 1 in H. rewrite getTokens_run, Hcur2 in H.
  rewrite makeRequest_run in H.
  destruct (fetch _ _) as [[o3 w3] t3] eqn:Hf3.
  apply fetch_inv in Hf3 as (Hdb3 & res2 & -> & ->). cbn [db] in Hdb3.
  match goal with
  | |- ?G =>
      assert (forall (o' : Outcome JsValue) (tr : list Event),
                (o', w3, tr) = (o, w', t) ->
                tr = EvQuery SELECT_latest
                     :: EvFetch (api_request endpoint method body tok)
                          (Resolved r)
                     :: t2 ++ [EvQuery SELECT_latest;
                         EvFetch (api_request endpoint method body
                           {| accessToken := s;
                              refreshToken := refreshToken tok1;
                              instanceUrl := instanceUrl tok1;
                              id := id tok1 |})
                           res2] ->
                o' = match res2 with
                     | Resolved r2 => settle r2
                     | Rejected reason =>
                         Thrown (TokenRefreshFailed (FetchError reason))
                     end ->
                G) as Hdone
  end.
  { intros o' tr Heq -> ->. inversion Heq; subst; clear Heq.
    rewrite Hex in Hhead. cbn in Hhead. inversion Hhead; subst r.
    split; [reflexivity|]. split; [exact Hinc|]. split; [exact Href|].
    split; [rewrite Hrc; reflexivity|].
    exists res2. rewrite Hex. cbn.
    split; [reflexivity|]. split; [exact Hdb3|reflexivity]. }
  destruct res2 as [r2|reason].
  - unfold settle in *. destruct (ok r2); cbn in H.
    + unfold response_json in H. destruct (Js.body r2); cbn in H;
        apply (Hdone _ _ H); try reflexivity;
        now rewrite app_nil_r.
    + apply (Hdone _ _ H); try reflexivity. now rewrite app_nil_r.
  - cbn in H. apply (Hdone _ _ H); try reflexivity. now rewrite ?app_nil_r.
Qed.

(** Whatever goes wrong between the first 401 and the second answer is
    thrown as 'Token refresh failed'.  The refresh runs on the world the
    first request left.  When the API was not asked again, that refresh
    threw, the call throws the error that wraps what it threw, and the
    database is as it was.  When the second request got no response, the
    call throws the error that wraps that network failure although the
    refresh returned: the access token of the refresh response is then
    already the access token of the stored credential. *)
Theorem salesforceApiCall_refresh_failure_wrapped (endpoint method : string)
    (body : JsValue) (w w' : World) (o : Outcome JsValue) (t : list Event)
    (r1 : Response) :
  salesforceApiCall endpoint method body w = (o, w', t) ->
  head (api_responses t) = Some (Resolved r1) ->
  status r1 = 401 ->
  exists o2 w2 t2,
    refreshAccessToken {| db := db w; incoming := tail (incoming w) |}
    = (o2, w2, t2)
    /\ refresh_count t = 1%nat
    /\ (api_responses t = [Resolved r1] ->
          exists e,
            o2 = Thrown e /\ o = Thrown (TokenRefreshFailed e)
            /\ db w' = db w)
    /\ (forall e, o2 = Thrown e ->
          api_responses t = [Resolved r1]
          /\ o = Thrown (TokenRefreshFailed e))
    /\ (forall reason,
          api_responses t = [Resolved r1; Rejected reason] ->
          o = Thrown (TokenRefreshFailed (FetchError reason))
          /\ exists nt tok resp data s,
               o2 = Returned nt
               /\ current (db w) = Some tok
               /\ head (tail (incoming w)) = Some (Resolved resp)
               /\ Js.body resp = JsonText data
               /\ getProp data "access_token" = inr (new_accessToken nt)
               /\ prepareValue (new_accessToken nt) = Some s
               /\ (forall s', new_accessToken nt = JStr s' -> s = s')
               /\ current (db w')
                  = Some {| accessToken := s;
                            refreshToken := refreshToken tok;
                            instanceUrl := instanceUrl tok;
                            id := id tok |}).
Proof.
  intros Hrun Hhead H401.
  destruct (salesforceApiCall_after_401 _ _ _ _ _ _ _ _ Hrun Hhead H401)
    as (tok & rest & o2 & w2 & t2 & Hcur & Hinc & Href & Hrc & Hcase).
  exists o2, w2, t2. rewrite Hinc. cbn [tail].
  split; [exact Href|]. split; [exact Hrc|].
  destruct o2 as [nt|e].
  - destruct Hcase as (res2 & Hresp & Hdb & Ho).
    split; [rewrite Hresp; discriminate|]. split; [discriminate|].
    intros reason Heq. rewrite Hresp in Heq. inversion Heq; subst res2.
    split; [exact Ho|].
    apply refreshAccessToken_inv in Href as (_ & _ & Hret).
    destruct (Hret nt eq_refl)
      as (tok1 & resp & rest1 & data & s & iu & Hcur1 & Hinc1 & _ & _
          & Hbody & Hat & Hprep & _ & _ & _ & Hcur2).
    cbn [db incoming] in Hcur1, Hinc1.
    rewrite Hcur in Hcur1. inversion Hcur1; subst tok1.
    exists nt, tok, resp, data, s. rewrite Hinc1, Hdb.
    repeat split; try assumption.
    intros s' Hs'. rewrite Hs' in Hprep. cbn in Hprep. congruence.
  - destruct Hcase as (-> & -> & Hresp).
    apply refreshAccessToken_effects in Href as (Hkeep & _).
    split; [|split].
    + intros _. exists e. repeat split. exact (Hkeep e eq_refl).
    + intros e' He'. inversion He'; subst. split; [exact Hresp|reflexivity].
    + intros reason Heq. rewrite Hresp in Heq. discriminate.
Qed.

Section QueryWrappers.
Variable encodeURIComponent : string -> string.

(** The two convenience calls only ever read: every request they send to
    the API, the retry included, is a GET without body, to the stored
    instance URL followed by the versioned path - for a query, the path
    that carries the query text passed through [encodeURIComponent]. *)
Theorem executeQuery_describeObject_requests (text : string)
    (w w' : World) (o : Outcome JsValue) (t : list Event) (tok : Tokens) :
  current (db w) = Some tok ->
  (executeQuery encodeURIComponent text w = (o, w', t) ->
     forall req res, (req, res) ∈ api_exchanges t ->
       Js.method req = "GET"%string /\ req_body req = None
       /\ url req = instanceUrl tok +:+ "/services/data/v59.0/query?q="
                     +:+ encodeURIComponent text)
  /\ (describeObject text w = (o, w', t) ->
      forall req res, (req, res) ∈ api_exchanges t ->
        Js.method req = "GET"%string /\ req_body req = None
        /\ url req = instanceUrl tok +:+ "/services/data/v59.0/sobjects/"
                      +:+ text +:+ "/describe").
Proof.
  intros Hcur.
  assert (forall endpoint,
            salesforceApiCall endpoint "GET" JNull w = (o, w', t) ->
            forall req res, (req, res) ∈ api_exchanges t ->
              Js.method req = "GET"%string /\ req_body req = None
              /\ url req = instanceUrl tok +:+ endpoint) as Hcall.
  { intros endpoint Hrun req res Hin.
    apply salesforceApiCall_inv in Hrun
      as [(Hnone & _)
         |[(tok0 & reason & Hc & Hex & _)
          |[(tok0 & r & Hc & _ & Hex & _)
           |[(tok0 & r & e & Hc & _ & Hex & _)
            |(tok0 & r & s & res2 & t0 & Hc & _ & Hex & _)]]]];
      [congruence|..]; rewrite Hcur in Hc; inversion Hc; subst tok0;
      rewrite Hex in Hin;
      repeat (apply elem_of_cons in Hin as [Hin|Hin];
              [inversion Hin; subst; repeat split|]);
      inversion Hin. }
  split; intros Hrun req res Hin.
  - unfold executeQuery, SF_API_VERSION in Hrun.
    destruct (Hcall _ Hrun req res Hin) as (Hm & Hb & Hu).
    repeat split; assumption.
  - unfold describeObject, SF_API_VERSION in Hrun.
    destruct (Hcall _ Hrun req res Hin) as (Hm & Hb & Hu).
    repeat split; assumption.
Qed.

End QueryWrappers.

End ApiGatewayMore.

(* ===================================================================== *)
(** * The authorization flow                                              *)
(* ===================================================================== *)

Section ServerFacts.
Import Js Db Async Server.
Context {RT : Runtime}.
Variable String_of : JsValue -> string.
Variable sha256 : string -> list byte.
Variable randomBytes : nat -> list byte.

Implicit Types (vs : gmap string VerifierStore.Entry).

Ltac exchange_done H :=
  inversion H; subst; cbn;
  split; [reflexivity|]; split; [reflexivity|];
  eexists; split; [reflexivity|];
  let v := fresh "v" in
  let Hv := fresh "Hv" in
  intros v Hv; inversion Hv; subst.

(** The exchange sends one request, reads one answer and leaves the
    database alone; it gives a token response only for a success status
    with a JSON body. *)
Lemma exchangeCodeForTokens_inv (c cv uri : string) (w w1 : World)
    (o : AppError + JsValue) (t1 : list Event) :
  exchangeCodeForTokens c cv uri w = (o, w1, t1) ->
  db w1 = db w
  /\ incoming w1 = tail (incoming w)
  /\ exists res,
       t1 = [EvFetch (exchange_request c cv uri) res]
       /\ (forall v, o = inr v ->
             exists resp,
               res = Resolved resp /\ ok resp = true
               /\ Js.body resp = JsonText v
               /\ incoming w = Resolved resp :: incoming w1).
Proof.
  unfold exchangeCodeForTokens, exchange_attempt.
  unfold bind at 1, fetch at 1.
  destruct w as [d inc]. cbn [incoming db].
  destruct inc as [|[resp|reason] rest]; cbn [tail].
  1,3: intros H; exchange_done H.
  destruct (ok resp) eqn:Hok; cbn [negb].
  - unfold bind, response_json, ret, throw.
    destruct (Js.body resp) as [v|text] eqn:Hb; cbn;
      intros H; exchange_done H.
    exists resp. repeat split; assumption.
  - unfold bind, response_json, lift, ret, throw.
    destruct (Js.body resp) as [errorData|text]; cbn.
    2:{ intros H; exchange_done H. }
    destruct (getProp errorData "error_description") as [e|ed]; cbn.
    1:{ intros H; exchange_done H. }
    destruct (truthy ed); cbn.
    1:{ intros H; exchange_done H. }
    destruct (getProp errorData "error") as [e|er]; cbn;
      intros H; exchange_done H.
Qed.

(** A callback that reports a provider error, or lacks the code or the
    state, or names a state the store does not hold, is answered with 400
    and costs nothing: no request is sent and the database is as before;
    in the first two cases the verifier store is untouched as well. *)
Theorem callback_rejects_without_effect (now : Z) (baseUrl : string)
    (query : CallbackQuery) vs (w : World) :
  (truthy (error query) = true ->
     callback String_of now baseUrl query vs w
     = (ReplyJson 400 "OAuth authorization failed"
          (Some (DetailsValue (js_or (error_description query) (error query)))),
        vs, w, []))
  /\ (truthy (error query) = false ->
      truthy (code query) = false \/ truthy (state query) = false ->
      callback String_of now baseUrl query vs w
      = (ReplyJson 400 "Missing code or state parameter" None, vs, w, []))
  /\ (truthy (error query) = false ->
      truthy (code query) = true -> truthy (state query) = true ->
      fst (getVerifier_of now (state query) vs) = None ->
      callback String_of now baseUrl query vs w
      = (ReplyJson 400 "Invalid or expired state parameter" None,
         snd (getVerifier_of now (state query) vs), w, [])).
Proof.
  unfold callback. split; [|split].
  - intros ->. reflexivity.
  - intros -> [-> | ->]; cbn; [reflexivity|].
    now rewrite orb_true_r.
  - intros -> -> -> Hnone. cbn.
    destruct (getVerifier_of now (state query) vs) as [cv vs']. cbn in *.
    now subst cv.
Qed.

(** A state works once.  Whatever a callback that passed the checks of
    error, code and state answers, the state it named is no longer in the
    verifier store afterwards, so the same callback presented again is
    answered 400 'Invalid or expired state parameter' and does nothing. *)
Theorem callback_state_single_use (now now' : Z) (baseUrl : string)
    (query : CallbackQuery) vs (w w1 w2 : World) (reply : Reply)
    vs1 (t1 : list Event) (s : string) :
  truthy (error query) = false ->
  truthy (code query) = true ->
  state query = JStr s ->
  s <> ""%string ->
  callback String_of now baseUrl query vs w = (reply, vs1, w1, t1) ->
  vs1 !! s = None
  /\ callback String_of now' baseUrl query vs1 w2
     = (ReplyJson 400 "Invalid or expired state parameter" None, vs1, w2, []).
Proof.
  intros Herr Hcode Hstate Hs Hrun.
  assert (truthy (state query) = true) as Hts.
  { rewrite Hstate. cbn. destruct (String.eqb_spec s ""); [contradiction|].
    reflexivity. }
  assert (vs1 !! s = None) as Hgone.
  { unfold callback in Hrun. rewrite Herr, Hcode, Hts in Hrun. cbn in Hrun.
    rewrite Hstate in Hrun. cbn [getVerifier_of] in Hrun.
    unfold VerifierStore.getVerifier in Hrun.
    destruct (vs !! s) as [e|] eqn:Hlook.
    - assert (delete s vs !! s = None) as Hdel by apply lookup_delete_eq.
      destruct (now - VerifierStore.createdAt e >? VerifierStore.VERIFIER_TTL).
      + inversion Hrun; subst. exact Hdel.
      + destruct (String.eqb (VerifierStore.verifier e) "");
          [inversion Hrun; subst; exact Hdel|].
        destruct (exchangeCodeForTokens _ _ _ w) as [[[err|resp] w3] t3].
        * inversion Hrun; subst. exact Hdel.
        * match type of Hrun with
          | context [let (_, _) := ?m in _] =>
              destruct m as [[[stored|err] w4] t4]
          end; inversion Hrun; subst; exact Hdel.
    - inversion Hrun; subst. exact Hlook. }
  split; [exact Hgone|].
  unfold callback. rewrite Herr, Hcode, Hts. cbn.
  rewrite Hstate. cbn [getVerifier_of].
  unfold VerifierStore.getVerifier. rewrite Hgone. reflexivity.
Qed.

(** What reading the three fields and storing them does, however it ends. *)
Lemma store_fields_inv (tokenResponse : JsValue) (w w' : World)
    (o : Outcome Z) (t : list Event) :
  (access_token <- lift (getProp tokenResponse "access_token") ;;
   refresh_token <- lift (getProp tokenResponse "refresh_token") ;;
   instance_url <- lift (getProp tokenResponse "instance_url") ;;
   storeTokens access_token refresh_token instance_url)%async w = (o, w', t) ->
  incoming w' = incoming w
  /\ requests t = []
  /\ match o with
     | Returned i =>
         exists row,
           salesforce_tokens (db w') = [row] /\ row_id row = i
           /\ getProp tokenResponse "access_token"
              = inr (assoc "access_token" match tokenResponse with
                                          | JObj fields => fields
                                          | _ => []
                                          end)
           /\ prepareValue (assoc "access_token"
                              match tokenResponse with
                              | JObj fields => fields
                              | _ => []
                              end) = Some (access_token row)
           /\ prepareValue (assoc "refresh_token"
                              match tokenResponse with
                              | JObj fields => fields
                              | _ => []
                              end) = Some (refresh_token row)
           /\ prepareValue (assoc "instance_url"
                              match tokenResponse with
                              | JObj fields => fields
                              | _ => []
                              end) = Some (instance_url row)
     | Thrown (TypeError _) => db w' = db w
     | Thrown _ => salesforce_tokens (db w') = []
     end.
Proof.
  unfold bind at 1.
  destruct tokenResponse as [| | | | | |fields]; cbn [getProp lift];
    try (unfold throw; intros H; inversion H; subst; repeat split; fail).
  all: unfold ret at 1; unfold bind at 1; cbn [getProp lift];
    unfold ret at 1; unfold bind at 1; cbn [getProp lift]; unfold ret at 1;
    cbn [assoc].
  all: match goal with
       | |- context [storeTokens ?a ?r ?u ?w0] =>
           destruct (storeTokens_cases a r u w0)
             as [(a' & r' & u' & ([Ha _] & [Hr _] & [Hu _] & _) & ->)
                |(reason & d' & -> & Hrows & _)]
       end;
    cbn [app]; intros H; inversion H; subst; clear H;
    cbn [db incoming]; (split; [reflexivity|]); (split; [reflexivity|]);
    [|exact Hrows].
  all: eexists; cbn [salesforce_tokens]; (split; [reflexivity|]);
    repeat split; assumption.
Qed.

(** The reply tells what became of the database.  After the success page
    the table holds exactly one row and one request was sent; after a 400
    nothing was sent and nothing changed; after a 500 the database is as
    it was - always so when the provider refused the code - or, when the
    store rejected the new tokens, the table is left empty. *)
Theorem callback_database_outcomes (now : Z) (baseUrl : string)
    (query : CallbackQuery) vs (w w1 : World) (reply : Reply)
    vs1 (t1 : list Event) :
  callback String_of now baseUrl query vs w = (reply, vs1, w1, t1) ->
  match reply with
  | ReplySend page =>
      page = SuccessHtml
      /\ (exists row, salesforce_tokens (db w1) = [row])
      /\ length (requests t1) = 1%nat
  | ReplyJson status _ details =>
      (status = 400 /\ w1 = w /\ t1 = [])
      \/ (status = 500
          /\ (length (requests t1) <= 1)%nat
          /\ (db w1 = db w \/ salesforce_tokens (db w1) = [])
          /\ (forall d,
                details = Some (DetailsMessage (TokenExchangeFailed d)) ->
                db w1 = db w))
  | ReplyRedirect _ => False
  end.
Proof.
  unfold callback.
  destruct (truthy (error query));
    [intros H; inversion H; subst; left; repeat split|].
  destruct (negb (truthy (code query)) || negb (truthy (state query)));
    [intros H; inversion H; subst; left; repeat split|].
  destruct (getVerifier_of now (state query) vs) as [[cv|] vs'];
    [|intros H; inversion H; subst; left; repeat split].
  destruct (String.eqb cv "");
    [intros H; inversion H; subst; left; repeat split|].
  destruct (exchangeCodeForTokens _ _ _ w) as [[[err|resp] w3] t3] eqn:Hex.
  - apply exchangeCodeForTokens_inv in Hex as (Hdb & _ & res & -> & _).
    intros H; inversion H; subst. right. cbn.
    repeat split; try lia; auto.
  - apply exchangeCodeForTokens_inv in Hex as (Hdb & _ & res & -> & _).
    match goal with
    | |- context [let (_, _) := ?m in _] =>
        destruct m as [[[stored|e] w4] t4] eqn:Hst
    end; apply store_fields_inv in Hst as (_ & Hreq & Hdb4);
      intros H; inversion H; subst; clear H.
    + destruct Hdb4 as (row & Hrow & _).
      cbn [requests app]. rewrite Hreq. cbn. repeat split. eauto.
    + right. cbn [requests app]. rewrite Hreq. cbn.
      split; [reflexivity|]. split; [lia|]. split; [|intros; discriminate].
      destruct e; try (right; exact Hdb4). left. congruence.
Qed.

(** A callback whose state is in the store and fresh, answered by the
    provider with three string tokens: the exchange request goes out and
    the state is used up whatever the database then says; the success page
    is sent exactly when the store took the tokens. *)
Lemma callback_granted_run (now : Z) (baseUrl : string)
    (query : CallbackQuery) vs (w : World) (s : string)
    (entry : VerifierStore.Entry) (resp : Response) (rest : list FetchResult)
    (fields : list (string * JsValue)) (a r u : string) :
  truthy (error query) = false ->
  truthy (code query) = true ->
  state query = JStr s -> s <> ""%string ->
  vs !! s = Some entry ->
  now - VerifierStore.createdAt entry <= VerifierStore.VERIFIER_TTL ->
  VerifierStore.verifier entry <> ""%string ->
  incoming w = Resolved resp :: rest ->
  ok resp = true ->
  Js.body resp = JsonText (JObj fields) ->
  assoc "access_token" fields = JStr a ->
  assoc "refresh_token" fields = JStr r ->
  assoc "instance_url" fields = JStr u ->
  exists reply w1 t1,
    callback String_of now baseUrl query vs w
    = (reply, delete s vs, w1, t1)
    /\ requests t1
       = [exchange_request (String_of (code query))
            (VerifierStore.verifier entry) (baseUrl +:+ "/callback")]
    /\ incoming w1 = rest
    /\ (has_nul a = false -> has_nul r = false -> has_nul u = false ->
        salesforce_tokens_id_seq (db w) <= INT4_MAX ->
        reply = ReplySend SuccessHtml
        /\ current (db w1)
           = Some {| accessToken := a; refreshToken := r; instanceUrl := u;
                     id := salesforce_tokens_id_seq (db w) |}
        /\ length (salesforce_tokens (db w1)) = 1%nat)
    /\ (has_nul a = true \/ has_nul r = true \/ has_nul u = true
        \/ INT4_MAX < salesforce_tokens_id_seq (db w) ->
        (exists reason,
           reply = ReplyJson 500 "Failed to complete OAuth flow"
                     (Some (DetailsMessage (Js (DatabaseError reason)))))
        /\ salesforce_tokens (db w1) = []).
Proof.
  intros Herr Hcode Hstate Hs Hlook Hage Hcv Hinc Hok Hbody Ha Hr Hu.
  unfold callback. rewrite Herr, Hcode, Hstate. cbn [negb orb truthy].
  destruct (String.eqb_spec s ""); [contradiction|]. cbn [negb].
  cbn [getVerifier_of]. unfold VerifierStore.getVerifier. rewrite Hlook.
  destruct (Z.gtb_spec (now - VerifierStore.createdAt entry)
              VerifierStore.VERIFIER_TTL); [lia|].
  destruct (String.eqb_spec (VerifierStore.verifier entry) "");
    [contradiction|].
  unfold exchangeCodeForTokens, exchange_attempt.
  unfold bind at 1, fetch at 1. destruct w as [d inc]. cbn in Hinc. subst inc.
  cbn [incoming db]. rewrite Hok. cbn [negb].
  unfold bind at 1, response_json at 1. rewrite Hbody.
  unfold ret at 1 2. cbn [app].
  unfold bind at 1. cbn [getProp lift]. unfold ret at 1.
  unfold bind at 1. cbn [getProp lift]. unfold ret at 1.
  unfold bind at 1. cbn [getProp lift]. unfold ret at 1.
  rewrite Ha, Hr, Hu.
  destruct (storeTokens_cases (JStr a) (JStr r) (JStr u)
              {| db := d; incoming := rest |})
    as [(a' & r' & u' & ([Ha' Hna] & [Hr' Hnr] & [Hu' Hnu] & Hseq) & ->)
       |(reason & d' & -> & Hrows & _ & _ & Hno)];
    cbn [app db incoming] in *.
  - cbn in Ha', Hr', Hu'. inversion Ha'; inversion Hr'; inversion Hu'.
    subst a' r' u'.
    eexists _, _, _. split; [reflexivity|]. cbn [db incoming].
    split; [reflexivity|]. split; [reflexivity|]. split.
    + intros _ _ _ _. repeat split.
    + intros [Hbad|[Hbad|[Hbad|Hbad]]]; [congruence..|lia].
  - eexists _, _, _. split; [reflexivity|]. cbn [db incoming].
    split; [reflexivity|]. split; [reflexivity|]. split.
    + intros Hna Hnr Hnu Hseq. exfalso. apply Hno. exists a, r, u.
      repeat split; assumption.
    + intros _. split; [eauto|exact Hrows].
Qed.

(** When the state is in the store, fresh, and the provider answers the
    exchange with three tokens the database takes, the callback sends
    exactly the exchange request built from the code, the stored verifier
    and the callback URL, replaces the credential by the three tokens
    under the next id, takes the state out of the store and sends the
    success page. *)
Theorem callback_success (now : Z) (baseUrl : string)
    (query : CallbackQuery) vs (w : World) (s : string)
    (entry : VerifierStore.Entry) (resp : Response) (rest : list FetchResult)
    (fields : list (string * JsValue)) (a r u : string) :
  truthy (error query) = false ->
  truthy (code query) = true ->
  state query = JStr s -> s <> ""%string ->
  vs !! s = Some entry ->
  now - VerifierStore.createdAt entry <= VerifierStore.VERIFIER_TTL ->
  VerifierStore.verifier entry <> ""%string ->
  incoming w = Resolved resp :: rest ->
  ok resp = true ->
  Js.body resp = JsonText (JObj fields) ->
  assoc "access_token" fields = JStr a ->
  assoc "refresh_token" fields = JStr r ->
  assoc "instance_url" fields = JStr u ->
  has_nul a = false -> has_nul r = false -> has_nul u = false ->
  salesforce_tokens_id_seq (db w) <= INT4_MAX ->
  exists w1 t1,
    callback String_of now baseUrl query vs w
    = (ReplySend SuccessHtml, delete s vs, w1, t1)
    /\ requests t1
       = [exchange_request (String_of (code query))
            (VerifierStore.verifier entry) (baseUrl +:+ "/callback")]
    /\ incoming w1 = rest
    /\ current (db w1)
       = Some {| accessToken := a; refreshToken := r; instanceUrl := u;
                 id := salesforce_tokens_id_seq (db w) |}
    /\ length (salesforce_tokens (db w1)) = 1%nat.
Proof.
  intros Herr Hcode Hstate Hs Hlook Hage Hcv Hinc Hok Hbody Ha Hr Hu
    Hna Hnr Hnu Hseq.
  destruct (callback_granted_run now baseUrl query vs w s entry resp rest
              fields a r u Herr Hcode Hstate Hs Hlook Hage Hcv Hinc Hok
              Hbody Ha Hr Hu)
    as (reply & w1 & t1 & Hrun & Hreq & Hrest & Hyes & _).
  destruct (Hyes Hna Hnr Hnu Hseq) as (-> & Hcur & Hone).
  exists w1, t1. repeat split; assumption.
Qed.

Lemma generateCodeVerifier_nonempty :
  length (randomBytes 32%nat) = 32%nat ->
  Pkce.generateCodeVerifier randomBytes <> ""%string.
Proof.
  intros Hlen Heq. unfold Pkce.generateCodeVerifier in Heq.
  destruct (base64urlEncode_shape (randomBytes 32%nat)) as [Hl _].
  rewrite Heq, Hlen in Hl. discriminate Hl.
Qed.

Lemma generateState_nonempty (now : Z) :
  Pkce.generateState now randomBytes <> ""%string.
Proof.
  intros Heq. apply (f_equal String.length) in Heq.
  unfold Pkce.generateState in Heq.
  rewrite !string_length_append in Heq. cbn in Heq. lia.
Qed.

(** The whole flow.  GET /auth redirects to the authorize URL that carries
    the challenge of a fresh verifier and a fresh state, and files the
    verifier under that state.  When the provider then calls back with
    that state within the TTL and grants the tokens, the one request the
    callback sends is the exchange carrying that very verifier - the one
    whose challenge went out in the redirect - and the state is used up.
    When the database takes the granted tokens (no U+0000 in them, the id
    sequence not run out) the success page is sent and the credential
    stored is the granted one; when it does not, the answer is a 500 and
    the table is left empty. *)
Theorem auth_then_callback (now_state now_cleanup now_set now : Z)
    (baseUrl : string) vs (w : World) (query : CallbackQuery)
    (resp : Response) (rest : list FetchResult)
    (fields : list (string * JsValue)) (a r u : string) :
  length (randomBytes 32%nat) = 32%nat ->
  truthy (error query) = false ->
  truthy (code query) = true ->
  state query = JStr (Pkce.generateState now_state randomBytes) ->
  now - now_set <= VerifierStore.VERIFIER_TTL ->
  incoming w = Resolved resp :: rest ->
  ok resp = true ->
  Js.body resp = JsonText (JObj fields) ->
  assoc "access_token" fields = JStr a ->
  assoc "refresh_token" fields = JStr r ->
  assoc "instance_url" fields = JStr u ->
  let verifier := Pkce.generateCodeVerifier randomBytes in
  let st := Pkce.generateState now_state randomBytes in
  let started := auth sha256 randomBytes now_state now_cleanup now_set
                   baseUrl vs in
  fst started
  = ReplyRedirect
      (buildAuthorizationUrl (baseUrl +:+ "/callback")
         (Pkce.generateCodeChallenge sha256 verifier) st)
  /\ snd started !! st
     = Some {| VerifierStore.verifier := verifier;
               VerifierStore.createdAt := now_set |}
  /\ exists reply w1 t1,
       callback String_of now baseUrl query (snd started) w
       = (reply, delete st (snd started), w1, t1)
       /\ requests t1
          = [exchange_request (String_of (code query)) verifier
               (baseUrl +:+ "/callback")]
       /\ (~ In "000"%char (list_ascii_of_string a) ->
           ~ In "000"%char (list_ascii_of_string r) ->
           ~ In "000"%char (list_ascii_of_string u) ->
           salesforce_tokens_id_seq (db w) <= 2147483647 ->
           reply = ReplySend SuccessHtml
           /\ current (db w1)
              = Some {| accessToken := a; refreshToken := r;
                        instanceUrl := u;
                        id := salesforce_tokens_id_seq (db w) |}
           /\ length (salesforce_tokens (db w1)) = 1%nat)
       /\ (In "000"%char (list_ascii_of_string a)
           \/ In "000"%char (list_ascii_of_string r)
           \/ In "000"%char (list_ascii_of_string u)
           \/ 2147483647 < salesforce_tokens_id_seq (db w) ->
           (exists reason,
              reply = ReplyJson 500 "Failed to complete OAuth flow"
                        (Some (DetailsMessage (Js (DatabaseError reason)))))
           /\ salesforce_tokens (db w1) = []).
Proof.
  intros Hlen Herr Hcode Hstate Hage Hinc Hok Hbody Ha Hr Hu
    verifier st started.
  assert (snd started !! st
          = Some {| VerifierStore.verifier := verifier;
                    VerifierStore.createdAt := now_set |}) as Hlook.
  { unfold started, auth. cbn [snd]. unfold VerifierStore.storeVerifier.
    apply lookup_insert_eq. }
  split; [reflexivity|]. split; [exact Hlook|].
  destruct (callback_granted_run now baseUrl query (snd started) w st
              _ resp rest fields a r u Herr Hcode Hstate
              (generateState_nonempty now_state) Hlook Hage
              (generateCodeVerifier_nonempty Hlen) Hinc Hok Hbody Ha Hr Hu)
    as (reply & w1 & t1 & Hrun & Hreq & _ & Hyes & Hno).
  exists reply, w1, t1. split; [exact Hrun|]. split; [exact Hreq|]. split.
  - intros Hna Hnr Hnu Hseq. apply has_nul_false in Hna, Hnr, Hnu.
    exact (Hyes Hna Hnr Hnu Hseq).
  - intros Hbad. apply Hno. rewrite !has_nul_true. exact Hbad.
Qed.

(** A disconnect always redirects to the dashboard and leaves the table
    empty. *)
Lemma disconnect_clears (w : World) :
  exists w',
    disconnect w = (ReplyRedirect "/", w', [EvQuery DELETE_all])
    /\ salesforce_tokens (db w') = [] /\ incoming w' = incoming w.
Proof.
  unfold disconnect, deleteTokens, bind, pool_query. cbn.
  eexists. repeat split.
Qed.

End ServerFacts.

(* ===================================================================== *)
(** * The properties at work on the sample worlds                         *)
(* ===================================================================== *)

Section Instances.
Import Js Db Async Samples.
Existing Instance sample_runtime.

Lemma storeTokens_twice_one_row_witness :
  exists o1 w1 t1,
    storeTokens (JStr "AT1") (JStr "RT1") (JStr "https://one.example")
      refresh_world = (o1, w1, t1)
    /\ exists w2,
         storeTokens (JStr "AT2") (JStr "RT2") (JStr "https://two.example") w1
         = (Returned 3, w2,
            [EvQuery DELETE_all;
             EvQuery (INSERT_returning_id (JStr "AT2") (JStr "RT2")
                        (JStr "https://two.example"))])
         /\ salesforce_tokens (db w2)
            = [ {| row_id := 3; access_token := "AT2";
                   refresh_token := "RT2";
                   instance_url := "https://two.example";
                   created_at := 500; updated_at := 500 |} ]
         /\ fst (fst (getTokens w2))
            = Returned (Some {| accessToken := "AT2"; refreshToken := "RT2";
                                instanceUrl := "https://two.example";
                                id := 3 |}).
Proof.
  eexists _, _, _. split; [reflexivity|].
  refine (proj1 (storeTokens_twice_one_row
                   (JStr "AT1") (JStr "RT1") (JStr "https://one.example")
                   refresh_world _ _ _ eq_refl)
            "AT2" "RT2" "https://two.example" _ _ _ _);
    [apply has_nul_false; reflexivity .. | vm_compute; discriminate].
Defined.

(** C7 as stated fails.  A first replace stores a credential.  The second
    is given a refresh token that holds the character U+0000: its DELETE
    goes through, its INSERT is refused, and no credential is present
    afterwards. *)
Lemma storeTokens_twice_no_row_counterexample :
  exists w1 t1 reason w2 t2,
    storeTokens (JStr "AT1") (JStr "RT1") (JStr "https://one.example")
      refresh_world = (Returned 2, w1, t1)
    /\ storeTokens (JStr "AT2") (JStr nul_token) (JStr "https://two.example")
         w1
       = (Thrown (DatabaseError reason), w2, t2)
    /\ t2 = [EvQuery DELETE_all;
             EvQuery (INSERT_returning_id (JStr "AT2") (JStr nul_token)
                        (JStr "https://two.example"))]
    /\ salesforce_tokens (db w2) = []
    /\ fst (fst (getTokens w2)) = Returned None
    /\ ~ (exists row, salesforce_tokens (db w2) = [row]).
Proof.
  eexists _, _, _, _, _. split; [reflexivity|]. split; [reflexivity|].
  split; [reflexivity|]. split; [reflexivity|]. split; [reflexivity|].
  intros (row & Hrow). discriminate Hrow.
Qed.

(** The same loss when the provider grants no refresh token and the
    callback passes [undefined] on. *)
Example storeTokens_twice_undefined :
  salesforce_tokens
    (db (snd (fst
       (bind (storeTokens (JStr "AT1") (JStr "RT1") (JStr "https://one.example"))
          (fun _ =>
             storeTokens (JStr "AT2") JUndefined (JStr "https://two.example"))
          refresh_world))))
  = [].
Proof. reflexivity. Qed.

Example storeTokens_twice_table :
  salesforce_tokens
    (db (snd (fst
       (bind (storeTokens (JStr "AT1") (JStr "RT1") (JStr "https://one.example"))
          (fun _ =>
             storeTokens (JStr "AT2") (JStr "RT2") (JStr "https://two.example"))
          refresh_world))))
  = [ {| row_id := 3; access_token := "AT2"; refresh_token := "RT2";
         instance_url := "https://two.example";
         created_at := 500; updated_at := 500 |} ].
Proof. reflexivity. Qed.

Lemma refreshAccessToken_stores_access_token_only_witness :
  exists nt w' t,
    refreshAccessToken refresh_world = (Returned nt, w', t)
    /\ exists tok s resp data iu,
         fst (fst (getTokens refresh_world)) = Returned (Some tok)
         /\ prepareValue (new_accessToken nt) = Some s
         /\ fst (fst (getTokens w'))
            = Returned (Some {| accessToken := s;
                                refreshToken := refreshToken tok;
                                instanceUrl := instanceUrl tok;
                                id := id tok |})
         /\ salesforce_tokens (db w')
            = map (updated_row (id tok) s
                     (current_timestamp (db refresh_world)))
                (salesforce_tokens (db refresh_world))
         /\ head (incoming refresh_world) = Some (Resolved resp)
         /\ body resp = JsonText data
         /\ getProp data "access_token" = inr (new_accessToken nt)
         /\ getProp data "instance_url" = inr iu
         /\ new_instanceUrl nt = js_or iu (JStr (instanceUrl tok)).
Proof.
  eexists _, _, _. split; [reflexivity|].
  eapply (refreshAccessToken_stores_access_token_only refresh_world).
  reflexivity.
Defined.

(** C1 as stated fails.  The token endpoint answers 200 with a new access
    token and the instance URL https://new.example; the refresh returns,
    and the credential read back afterwards has the new access token and
    still the instance URL https://old.example. *)
Lemma refreshAccessToken_instance_url_counterexample :
  exists nt w' t,
    refreshAccessToken refresh_world = (Returned nt, w', t)
    /\ getProp (JObj [("access_token", JStr "AT1");
                      ("instance_url", JStr "https://new.example")])
         "instance_url" = inr (JStr "https://new.example")
    /\ new_instanceUrl nt = JStr "https://new.example"
    /\ fst (fst (getTokens w'))
       = Returned (Some {| accessToken := "AT1"; refreshToken := "RT0";
                           instanceUrl := "https://old.example"; id := 1 |})
    /\ ~ (exists tok,
            fst (fst (getTokens w')) = Returned (Some tok)
            /\ instanceUrl tok = "https://new.example"%string).
Proof.
  eexists _, _, _. split; [reflexivity|].
  split; [reflexivity|]. split; [reflexivity|]. split; [reflexivity|].
  intros (tok & Hget & Hurl). vm_compute in Hget.
  inversion Hget; subst tok. discriminate Hurl.
Qed.


(** A second answer that is not JSON is carried as [{message: text}]. *)
Example salesforceApiCall_retry_fails_plain_text :
  fst (fst (salesforceApiCall "/services/data/v59.0/query" "GET" JNull
              failing_world))
  = Thrown (SalesforceApiError 503
              (JObj [("message", JStr "Service Unavailable")])).
Proof. reflexivity. Qed.



Example salesforceApiCall_retry_succeeds_run :
  fst (fst (salesforceApiCall "/services/data/v59.0/query" "GET" JNull
              expired_world))
  = Returned (JObj [("totalSize", JNum 0)]).
Proof. reflexivity. Qed.

Example salesforceApiCall_retry_fails_run :
  fst (fst (salesforceApiCall "/services/data/v59.0/query" "GET" JNull
              revoked_world))
  = Thrown (SalesforceApiError 401
              (JArr [JObj [("errorCode", JStr "INVALID_SESSION_ID")]])).
Proof. reflexivity. Qed.

Lemma salesforceApiCall_body_only_on_post_patch_witness :
  exists o w' t,
    salesforceApiCall "/services/data/v59.0/sobjects/Account/001" "DELETE"
      (JObj [("Name", JStr "Acme")]) expired_world = (o, w', t)
    /\ forall req res, (req, res) ∈ api_exchanges t -> req_body req = None.
Proof.
  eexists _, _, _. split; [reflexivity|].
  intros req res Hin.
  eapply (salesforceApiCall_body_only_on_post_patch
            "/services/data/v59.0/sobjects/Account/001" "DELETE"
            (JObj [("Name", JStr "Acme")]) expired_world);
    [reflexivity | exact Hin | discriminate | discriminate].
Defined.

Example salesforceApiCall_post_sends_body :
  api_exchanges
    (snd (salesforceApiCall "/services/data/v59.0/sobjects/Account" "POST"
            (JObj [("Name", JStr "Acme")]) expired_world))
  = [({| url := "https://old.example/services/data/v59.0/sobjects/Account";
         method := "POST";
         headers := [("Authorization", "Bearer AT0");
                     ("Content-Type", "application/json")];
         req_body := Some "<json>"%string |}, Resolved unauthorized);
     ({| url := "https://old.example/services/data/v59.0/sobjects/Account";
         method := "POST";
         headers := [("Authorization", "Bearer AT1");
                     ("Content-Type", "application/json")];
         req_body := Some "<json>"%string |}, Resolved records)].
Proof. reflexivity. Qed.

Example end_to_end_replace_current :
  fst (fst (bind (storeTokens (JStr "AT1") (JStr "RT1") (JStr "URL1"))
              (fun _ => getTokens)
              {| db := empty_database 0; incoming := [] |}))
  = Returned (Some {| accessToken := "AT1"; refreshToken := "RT1";
                      instanceUrl := "URL1"; id := 1 |}).
Proof. reflexivity. Qed.

End Instances.

Section MoreInstances.
Import Js Db Async Server Samples.
Existing Instance sample_runtime.

Lemma sample_database_wf : db_wf sample_database.
Proof.
  split; cbn; [apply NoDup_singleton|]. repeat constructor.
Qed.

Lemma storeTokens_rejected_empties_witness :
  exists w' reason,
    storeTokens (JStr "AT1") JUndefined (JStr "https://one.example") refresh_world
    = (Thrown (DatabaseError reason), w',
       [EvQuery DELETE_all;
        EvQuery (INSERT_returning_id (JStr "AT1") JUndefined
                   (JStr "https://one.example"))])
    /\ salesforce_tokens (db w') = []
    /\ current (db w') = None
    /\ fst (fst (getTokens w')) = Returned None.
Proof.
  apply (storeTokens_rejected_empties (JStr "AT1") JUndefined
           (JStr "https://one.example") refresh_world).
  right; left; reflexivity.
Defined.

Lemma storeTokens_fresh_id_witness :
  exists w' t,
    storeTokens (JStr "AT1") (JStr "RT1") (JStr "https://one.example")
      refresh_world = (Returned 2, w', t)
    /\ 2 = salesforce_tokens_id_seq (db refresh_world)
    /\ (forall row, row ∈ salesforce_tokens (db refresh_world) -> row_id row < 2)
    /\ salesforce_tokens_id_seq (db w') = 2 + 1
    /\ db_wf (db w').
Proof.
  eexists _, _. split; [reflexivity|].
  eapply (storeTokens_fresh_id (JStr "AT1") (JStr "RT1")
            (JStr "https://one.example") refresh_world);
    [exact sample_database_wf|reflexivity].
Defined.

Lemma store_invariants_preserved_witness :
  let run :=
    salesforceApiCall "/services/data/v59.0/query" "GET" JNull expired_world in
  db_wf (db expired_world)
  /\ (length (salesforce_tokens (db expired_world)) <= 1)%nat
  /\ db_wf (db (snd (fst run)))
  /\ (length (salesforce_tokens (db (snd (fst run)))) <= 1)%nat.
Proof.
  intros run. destruct run as [[o w'] t] eqn:Hrun. cbn [fst snd].
  split; [exact sample_database_wf|]. split; [cbn; lia|].
  eapply (store_invariants_preserved "/services/data/v59.0/query" "GET" JNull
            expired_world w');
    [exact sample_database_wf | cbn; lia | exact Hrun].
Defined.

Lemma refreshAccessToken_failure_keeps_credential_witness :
  exists e w' t,
    refreshAccessToken offline_world = (Thrown e, w', t)
    /\ db w' = db offline_world
    /\ current (db w') = current (db offline_world).
Proof.
  eexists _, _, _. split; [reflexivity|].
  eapply (refreshAccessToken_failure_keeps_credential offline_world).
  reflexivity.
Defined.

Lemma refreshAccessToken_no_credential_witness :
  exists w',
    refreshAccessToken disconnected_world
    = (Thrown NoTokensFound, w', [EvRefresh; EvQuery SELECT_latest])
    /\ db w' = db disconnected_world
    /\ incoming w' = incoming disconnected_world.
Proof.
  apply (refreshAccessToken_no_credential disconnected_world). reflexivity.
Defined.

Lemma refreshAccessToken_one_request_witness :
  exists o w' t tok,
    refreshAccessToken refresh_world = (o, w', t)
    /\ current (db refresh_world) = Some tok
    /\ requests t = [refresh_request tok]
    /\ incoming w' = tail (incoming refresh_world)
    /\ refresh_count t = 1%nat
    /\ Js.method (refresh_request tok) = "POST"%string
    /\ url (refresh_request tok) = SF_LOGIN_URL +:+ "/services/oauth2/token".
Proof.
  eexists _, _, _, _. split; [reflexivity|]. split; [reflexivity|].
  eapply (refreshAccessToken_one_request refresh_world); reflexivity.
Defined.

Lemma refreshAccessToken_rejected_witness :
  exists w',
    refreshAccessToken refused_world
    = (Thrown (TokenRefreshRejected (JStr "expired access/refresh token")), w',
       [EvRefresh; EvQuery SELECT_latest;
        EvFetch (refresh_request
                   {| accessToken := "AT0"; refreshToken := "RT0";
                      instanceUrl := "https://old.example"; id := 1 |})
          (Resolved token_refused)])
    /\ db w' = db refused_world /\ incoming w' = [].
Proof.
  apply (refreshAccessToken_rejected refused_world
           {| accessToken := "AT0"; refreshToken := "RT0";
              instanceUrl := "https://old.example"; id := 1 |}
           token_refused []);
    reflexivity.
Defined.

Lemma refreshAccessToken_missing_access_token_witness :
  exists w' reason,
    refreshAccessToken missing_world
    = (Thrown (DatabaseError reason), w',
       [EvRefresh; EvQuery SELECT_latest;
        EvFetch (refresh_request
                   {| accessToken := "AT0"; refreshToken := "RT0";
                      instanceUrl := "https://old.example"; id := 1 |})
          (Resolved token_missing);
        EvQuery (UPDATE_access_token
                   (assoc "access_token"
                      [("instance_url", JStr "https://new.example")]) 1)])
    /\ db w' = db missing_world
    /\ current (db w')
       = Some {| accessToken := "AT0"; refreshToken := "RT0";
                 instanceUrl := "https://old.example"; id := 1 |}.
Proof.
  apply (refreshAccessToken_missing_access_token missing_world
           {| accessToken := "AT0"; refreshToken := "RT0";
              instanceUrl := "https://old.example"; id := 1 |}
           token_missing [] [("instance_url", JStr "https://new.example")]);
    reflexivity.
Defined.

Lemma salesforceApiCall_not_connected_witness :
  exists w',
    salesforceApiCall "/services/data/v59.0/query" "GET" JNull
      disconnected_world
    = (Thrown NotConnected, w', [EvQuery SELECT_latest])
    /\ db w' = db disconnected_world
    /\ incoming w' = incoming disconnected_world.
Proof.
  apply (salesforceApiCall_not_connected "/services/data/v59.0/query" "GET"
           JNull disconnected_world).
  reflexivity.
Defined.

Lemma salesforceApiCall_single_attempt_witness :
  exists w',
    salesforceApiCall "/services/data/v59.0/query" "GET" JNull answering_world
    = (Returned (JObj [("totalSize", JNum 0)]), w',
       [EvQuery SELECT_latest;
        EvFetch (api_request "/services/data/v59.0/query" "GET" JNull
                   {| accessToken := "AT0"; refreshToken := "RT0";
                      instanceUrl := "https://old.example"; id := 1 |})
          (Resolved records)])
    /\ db w' = db answering_world.
Proof.
  destruct (salesforceApiCall_single_attempt "/services/data/v59.0/query"
              "GET" JNull answering_world
              {| accessToken := "AT0"; refreshToken := "RT0";
                 instanceUrl := "https://old.example"; id := 1 |}
              records [] eq_refl eq_refl ltac:(discriminate))
    as (w' & Hrun & Hdb & _).
  exists w'. split; [exact Hrun|exact Hdb].
Defined.

Lemma salesforceApiCall_bounded_witness :
  exists o w' t,
    salesforceApiCall "/services/data/v59.0/query" "GET" JNull expired_world
    = (o, w', t)
    /\ (refresh_count t <= 1)%nat
    /\ (length (requests t) <= 3)%nat
    /\ (length (api_exchanges t) <= 2)%nat
    /\ length (salesforce_tokens (db w'))
       = length (salesforce_tokens (db expired_world))
    /\ salesforce_tokens_id_seq (db w')
       = salesforce_tokens_id_seq (db expired_world).
Proof.
  eexists _, _, _. split; [reflexivity|].
  eapply (salesforceApiCall_bounded "/services/data/v59.0/query" "GET" JNull
            expired_world).
  reflexivity.
Defined.

Lemma salesforceApiCall_credential_frame_witness :
  exists o w' t tok,
    salesforceApiCall "/services/data/v59.0/query" "GET" JNull expired_world
    = (o, w', t)
    /\ current (db expired_world) = Some tok
    /\ (exists tok',
          current (db w') = Some tok'
          /\ id tok' = id tok
          /\ refreshToken tok' = refreshToken tok
          /\ instanceUrl tok' = instanceUrl tok)
    /\ (refresh_count t = 0%nat -> db w' = db expired_world).
Proof.
  eexists _, _, _, _. split; [reflexivity|]. split; [reflexivity|].
  eapply (salesforceApiCall_credential_frame "/services/data/v59.0/query"
            "GET" JNull expired_world);
    reflexivity.
Defined.

Lemma salesforceApiCall_retry_request_witness :
  exists o w' t req1 req2 res1 res2,
    salesforceApiCall "/services/data/v59.0/query" "GET" JNull expired_world
    = (o, w', t)
    /\ api_exchanges t = [(req1, res1); (req2, res2)]
    /\ url req2 = url req1
    /\ url req2 = "https://old.example/services/data/v59.0/query"%string.
Proof.
  eexists _, _, _, _, _, _, _. split; [reflexivity|]. split; [reflexivity|].
  split; [|reflexivity].
  eapply (salesforceApiCall_retry_request "/services/data/v59.0/query" "GET"
            JNull expired_world);
    reflexivity.
Defined.

Lemma salesforceApiCall_refresh_failure_wrapped_witness :
  exists o w' t,
    salesforceApiCall "/services/data/v59.0/query" "GET" JNull dropped_world
    = (o, w', t)
    /\ exists o2 w2 t2,
         refreshAccessToken
           {| db := sample_database;
              incoming := [Resolved token_granted; Rejected "ECONNRESET"] |}
         = (o2, w2, t2)
         /\ refresh_count t = 1%nat
         /\ (api_responses t = [Resolved unauthorized] ->
               exists e,
                 o2 = Thrown e /\ o = Thrown (TokenRefreshFailed e)
                 /\ db w' = sample_database)
         /\ (forall e, o2 = Thrown e ->
               api_responses t = [Resolved unauthorized]
               /\ o = Thrown (TokenRefreshFailed e))
         /\ (forall reason,
               api_responses t = [Resolved unauthorized; Rejected reason] ->
               o = Thrown (TokenRefreshFailed (FetchError reason))
               /\ exists nt tok resp data s,
                    o2 = Returned nt
                    /\ current sample_database = Some tok
                    /\ Some (Resolved token_granted) = Some (Resolved resp)
                    /\ body resp = JsonText data
                    /\ getProp data "access_token" = inr (new_accessToken nt)
                    /\ prepareValue (new_accessToken nt) = Some s
                    /\ (forall s', new_accessToken nt = JStr s' -> s = s')
                    /\ current (db w')
                       = Some {| accessToken := s;
                                 refreshToken := refreshToken tok;
                                 instanceUrl := instanceUrl tok;
                                 id := id tok |}).
Proof.
  eexists _, _, _. split; [reflexivity|].
  eapply (salesforceApiCall_refresh_failure_wrapped
            "/services/data/v59.0/query" "GET" JNull dropped_world
            _ _ _ unauthorized);
    reflexivity.
Defined.

(** The connection drops on the second request: the error wraps the
    network failure, and the access token the refresh was granted is the
    stored one. *)
Example salesforceApiCall_dropped_run :
  fst (fst (salesforceApiCall "/services/data/v59.0/query" "GET" JNull
              dropped_world))
  = Thrown (TokenRefreshFailed (FetchError "ECONNRESET"))
  /\ current (db (snd (fst (salesforceApiCall "/services/data/v59.0/query"
                              "GET" JNull dropped_world))))
     = Some {| accessToken := "AT1"; refreshToken := "RT0";
               instanceUrl := "https://old.example"; id := 1 |}.
Proof. split; reflexivity. Qed.

(** The token endpoint is silent: the error wraps what the refresh threw. *)
Example salesforceApiCall_stranded_run :
  fst (fst (refreshAccessToken {| db := sample_database; incoming := [] |}))
  = Thrown (FetchError "no response")
  /\ fst (fst (salesforceApiCall "/services/data/v59.0/query" "GET" JNull
                 stranded_world))
     = Thrown (TokenRefreshFailed (FetchError "no response")).
Proof. split; reflexivity. Qed.

Lemma executeQuery_describeObject_requests_witness :
  exists o w' t,
    executeQuery (fun q => q) "SELECT+Id+FROM+Account" expired_world
    = (o, w', t)
    /\ forall req res, (req, res) ∈ api_exchanges t ->
         Js.method req = "GET"%string /\ req_body req = None
         /\ url req
            = "https://old.example" +:+ "/services/data/v59.0/query?q="
              +:+ "SELECT+Id+FROM+Account".
Proof.
  eexists _, _, _. split; [reflexivity|].
  eapply (executeQuery_describeObject_requests (fun q => q)
            "SELECT+Id+FROM+Account" expired_world _ _ _
            {| accessToken := "AT0"; refreshToken := "RT0";
               instanceUrl := "https://old.example"; id := 1 |});
    reflexivity.
Defined.

(** The verifier store after GET /auth at clock reading 1000. *)
Lemma callback_state_single_use_witness :
  let vs := snd (auth sample_sha256 sample_randomBytes 1000 1000 1000
                   "https://app.example" ∅) in
  exists reply vs1 w1 t1,
    callback sample_String_of 2000 "https://app.example" sample_query vs
      granting_world = (reply, vs1, w1, t1)
    /\ vs1 !! Pkce.generateState 1000 sample_randomBytes = None
    /\ callback sample_String_of 3000 "https://app.example" sample_query vs1
         granting_world
       = (ReplyJson 400 "Invalid or expired state parameter" None, vs1,
          granting_world, []).
Proof.
  intros vs.
  destruct (callback sample_String_of 2000 "https://app.example" sample_query
              vs granting_world) as [[[reply vs1] w1] t1] eqn:Hrun.
  exists reply, vs1, w1, t1. split; [reflexivity|].
  apply (callback_state_single_use sample_String_of 2000 3000
           "https://app.example" sample_query vs granting_world w1
           granting_world reply vs1 t1
           (Pkce.generateState 1000 sample_randomBytes));
    [reflexivity | reflexivity | reflexivity | discriminate | exact Hrun].
Defined.

Lemma callback_database_outcomes_witness :
  let run :=
    callback sample_String_of 2000 "https://app.example" sample_query
      (snd (auth sample_sha256 sample_randomBytes 1000 1000 1000
              "https://app.example" ∅))
      granting_world in
  match fst (fst (fst run)) with
  | ReplySend page =>
      page = SuccessHtml
      /\ (exists row, salesforce_tokens (db (snd (fst run))) = [row])
      /\ length (requests (snd run)) = 1%nat
  | ReplyJson status _ details =>
      (status = 400 /\ snd (fst run) = granting_world /\ snd run = [])
      \/ (status = 500
          /\ (length (requests (snd run)) <= 1)%nat
          /\ (db (snd (fst run)) = db granting_world
              \/ salesforce_tokens (db (snd (fst run))) = [])
          /\ (forall d,
                details = Some (DetailsMessage (TokenExchangeFailed d)) ->
                db (snd (fst run)) = db granting_world))
  | ReplyRedirect _ => False
  end.
Proof.
  intros run. destruct run as [[[reply vs1] w1] t1] eqn:Hrun. cbn [fst snd].
  exact (callback_database_outcomes sample_String_of 2000
           "https://app.example" sample_query _ granting_world w1 reply vs1
           t1 Hrun).
Defined.

Lemma auth_then_callback_witness :
  exists w1 t1,
    callback sample_String_of 2000 "https://app.example" sample_query
      (snd (auth sample_sha256 sample_randomBytes 1000 1000 1000
              "https://app.example" ∅))
      granting_world
    = (ReplySend SuccessHtml,
       delete (Pkce.generateState 1000 sample_randomBytes)
         (snd (auth sample_sha256 sample_randomBytes 1000 1000 1000
                 "https://app.example" ∅)),
       w1, t1)
    /\ requests t1
       = [exchange_request (sample_String_of (code sample_query))
            (Pkce.generateCodeVerifier sample_randomBytes)
            ("https://app.example" +:+ "/callback")]
    /\ current (db w1)
       = Some {| accessToken := "AT9"; refreshToken := "RT9";
                 instanceUrl := "https://org.example";
                 id := salesforce_tokens_id_seq (db granting_world) |}
    /\ length (salesforce_tokens (db w1)) = 1%nat.
Proof.
  assert (2000 - 1000 <= VerifierStore.VERIFIER_TTL) as Hage
    by (vm_compute; discriminate).
  pose proof (auth_then_callback sample_String_of sample_sha256
                sample_randomBytes 1000 1000 1000 2000 "https://app.example"
                ∅ granting_world sample_query token_issued []
                [("access_token", JStr "AT9"); ("refresh_token", JStr "RT9");
                 ("instance_url", JStr "https://org.example")]
                "AT9" "RT9" "https://org.example"
                eq_refl eq_refl eq_refl eq_refl Hage eq_refl eq_refl eq_refl
                eq_refl eq_refl eq_refl) as Hall.
  cbv zeta in Hall.
  destruct Hall as (_ & _ & reply & w1 & t1 & Hrun & Hreq & Hyes & _).
  destruct Hyes as (-> & Hcur & Hone);
    [apply has_nul_false; reflexivity .. | vm_compute; discriminate |].
  exists w1, t1. repeat split; assumption.
Defined.

(** An id beyond 32 bits is refused by the server, whatever the table
    holds, and so is a token with U+0000 in it. *)
Example updateAccessToken_refused :
  fst (fst (updateAccessToken 2147483648 (JStr "AT1") refresh_world))
  = Thrown (DatabaseError "value is out of range for type integer")
  /\ db (snd (fst (updateAccessToken 2147483648 (JStr "AT1") refresh_world)))
     = sample_database
  /\ fst (fst (updateAccessToken 1 (JStr nul_token) refresh_world))
     = Thrown (DatabaseError "invalid byte sequence for encoding UTF8: 0x00")
  /\ db (snd (fst (updateAccessToken 1 (JStr nul_token) refresh_world)))
     = sample_database.
Proof. repeat split. Qed.

Example updateAccessToken_applied :
  salesforce_tokens
    (db (snd (fst (updateAccessToken 1 (JStr "AT1") refresh_world))))
  = [ {| row_id := 1; access_token := "AT1"; refresh_token := "RT0";
         instance_url := "https://old.example";
         created_at := 100; updated_at := 500 |} ]
  /\ fst (fst (updateAccessToken 7 (JStr "AT1") refresh_world)) = Returned tt
  /\ db (snd (fst (updateAccessToken 7 (JStr "AT1") refresh_world)))
     = sample_database.
Proof. repeat split. Qed.

(** The last id of the sequence is still handed out; after it the insert
    is refused. *)
Example storeTokens_sequence_end :
  fst (fst (storeTokens (JStr "AT1") (JStr "RT1") (JStr "URL1")
              {| db := {| salesforce_tokens := [];
                          salesforce_tokens_id_seq := 2147483647;
                          current_timestamp := 0 |};
                 incoming := [] |}))
  = Returned 2147483647
  /\ fst (fst (storeTokens (JStr "AT1") (JStr "RT1") (JStr "URL1")
                 {| db := {| salesforce_tokens := [];
                             salesforce_tokens_id_seq := 2147483648;
                             current_timestamp := 0 |};
                    incoming := [] |}))
     = Thrown (DatabaseError "nextval: reached maximum value of sequence").
Proof. split; reflexivity. Qed.

End MoreInstances.
